(** * Texas Hold'em hand of play: cards, deck, players, evaluator, showdown

    A shallow embedding of [cardgames.py].  Python integers are [Z],
    rank indices (positions in [Card.RANKS]) are [nat], lists are lists.
    Methods that mutate an object and may raise are functions in a
    state-and-exception monad whose state survives a raise, as the
    object does in Python. *)

From Stdlib Require Import String Ascii.
From Stdlib Require Import List ZArith Lia Bool Permutation Sorted Arith PeanoNat.
Import ListNotations.
Local Open Scope string_scope.
Local Open Scope list_scope.

(** ** Exceptions and the state monad *)

Inductive Exn : Type :=
| ValueError (msg : string)
| TypeError
| IndexError
| EOFError.

Inductive Res (A : Type) : Type :=
| Ok (a : A)
| Raise (e : Exn).
Arguments Ok {A} a.
Arguments Raise {A} e.

Definition M (S A : Type) : Type := S -> Res A * S.

Definition ret {S A : Type} (a : A) : M S A := fun s => (Ok a, s).

Definition raise {S A : Type} (e : Exn) : M S A := fun s => (Raise e, s).

Definition bind {S A B : Type} (m : M S A) (k : A -> M S B) : M S B :=
  fun s => match m s with
           | (Ok a, s') => k a s'
           | (Raise e, s') => (Raise e, s')
           end.

Definition get {S : Type} : M S S := fun s => (Ok s, s).
Definition put {S : Type} (s : S) : M S unit := fun _ => (Ok tt, s).
Definition modify {S : Type} (f : S -> S) : M S unit := fun s => (Ok tt, f s).

Declare Scope py_scope.
Delimit Scope py_scope with py.
Notation "x <- m ;; k" := (bind m (fun x => k))
  (at level 61, m at next level, right associativity) : py_scope.
Notation "m ;;; k" := (bind m (fun _ => k))
  (at level 61, right associativity) : py_scope.

(** ** Card *)

Inductive Suit : Type := Hearts | Spades | Diamonds | Clubs.

Inductive Rank : Type :=
| R2 | R3 | R4 | R5 | R6 | R7 | R8 | R9 | R10 | RJ | RQ | RK | RA.

Definition SUITS : list Suit := [Hearts; Spades; Diamonds; Clubs].
Definition RANKS : list Rank := [R2; R3; R4; R5; R6; R7; R8; R9; R10; RJ; RQ; RK; RA].

Definition suit_eq_dec (a b : Suit) : {a = b} + {a <> b}.
Proof. decide equality. Defined.

Definition rank_eq_dec (a b : Rank) : {a = b} + {a <> b}.
Proof. decide equality. Defined.

Definition rank_eqb (a b : Rank) : bool := if rank_eq_dec a b then true else false.
Definition suit_eqb (a b : Suit) : bool := if suit_eq_dec a b then true else false.

(** [Card.RANKS.index(rank)] *)
Definition rank_index (r : Rank) : nat :=
  match r with
  | R2 => 0 | R3 => 1 | R4 => 2 | R5 => 3 | R6 => 4 | R7 => 5 | R8 => 6
  | R9 => 7 | R10 => 8 | RJ => 9 | RQ => 10 | RK => 11 | RA => 12
  end%nat.

(** The constructor's [ValueError] for a suit or rank outside the two
    tuples cannot arise: the types hold exactly the valid ones. *)
Record Card : Type := mkCard { suit : Suit; rank : Rank }.

Definition card_eq_dec (a b : Card) : {a = b} + {a <> b}.
Proof. decide equality; [apply rank_eq_dec | apply suit_eq_dec]. Defined.

Definition card_eqb (a b : Card) : bool := if card_eq_dec a b then true else false.

Notation "r 'of' s" := (mkCard s r) (at level 9, only parsing).

(** ** Deck *)

Record Deck : Type := mkDeck { cards : list Card }.

(** [Deck.__init__]: suits outermost, ranks innermost. *)
Definition Deck_init : Deck :=
  mkDeck (flat_map (fun s => map (fun r => mkCard s r) RANKS) SUITS).

(** [Deck.draw_card]: both guards come before the assignment, so a
    raise leaves [self.cards] as it was. *)
Definition draw_card (n : Z) : M Deck (list Card) := fun d =>
  if (n <=? 0)%Z then
    (Raise (ValueError "The number of cards to draw must be a positive integer."), d)
  else if (n >? Z.of_nat (length (cards d)))%Z then
    (Raise (ValueError "Not enough cards left in the deck."), d)
  else
    (Ok (firstn (Z.to_nat n) (cards d)), mkDeck (skipn (Z.to_nat n) (cards d))).

Definition is_empty (d : Deck) : bool :=
  match cards d with [] => true | _ => false end.

(** A run of draws, one after the other on the same deck; the first
    raise ends the run. *)
Fixpoint draw_seq (ns : list Z) : M Deck (list (list Card)) :=
  match ns with
  | [] => ret []
  | n :: ns' =>
      (cs <- draw_card n ;;
       rest <- draw_seq ns' ;;
       ret (cs :: rest))%py
  end.

(** ** Player *)

Record Player : Type := mkPlayer {
  player_id : nat;
  chips : Z;
  current_bet : Z;
  hand : list Card;
  action : option string;
  is_active : bool
}.

(** [Player.__init__] *)
Definition Player_init (id : nat) (initial_chips : Z) : Player :=
  mkPlayer id initial_chips 0 [] None true.

Definition set_bet (amount : Z) (p : Player) : Player :=
  mkPlayer (player_id p) (chips p - amount) amount (hand p) (action p) (is_active p).

Definition set_active (b : bool) (p : Player) : Player :=
  mkPlayer (player_id p) (chips p) (current_bet p) (hand p) (action p) b.

Definition set_hand (h : list Card) (p : Player) : Player :=
  mkPlayer (player_id p) (chips p) (current_bet p) h (action p) (is_active p).

Definition not_enough_chips : Exn := ValueError "Player doesn't have enough chips.".
Definition raise_too_small : Exn := ValueError "Raise must be more than the current bet.".

(** [Player.bet]: the guard precedes both assignments. *)
Definition bet (amount : Z) : M Player unit := fun p =>
  if (amount >? chips p)%Z then raise not_enough_chips p
  else (Ok tt, set_bet amount p).

(** [Player.fold] *)
Definition fold (_ : unit) : M Player unit := modify (set_active false).

(** [Player.all_in] *)
Definition all_in (_ : unit) : M Player unit := fun p => bet (chips p) p.

(** [Player.call] *)
Definition call (amount : Z) : M Player unit := fun p =>
  if (amount >? chips p)%Z then all_in tt p else bet amount p.

(** [Player.raise_bet] *)
Definition raise_bet (amount : Z) : M Player unit := fun p =>
  if (amount <=? current_bet p)%Z then raise raise_too_small p
  else bet amount p.

(** [Player.reset_for_new_round] *)
Definition reset_for_new_round (p : Player) : Player :=
  mkPlayer (player_id p) (chips p) 0 [] None true.

(** The five operations a caller can apply to a seat, and a run of
    them on one [Player] object.  A raised exception is the caller's to
    handle; the object lives on, so the run goes on from the state the
    raise left behind. *)
Inductive PlayerOp : Type :=
| OpBet (amount : Z)
| OpCall (amount : Z)
| OpRaise (amount : Z)
| OpAllIn
| OpFold.

Definition run_op (o : PlayerOp) : M Player unit :=
  match o with
  | OpBet a => bet a
  | OpCall a => call a
  | OpRaise a => raise_bet a
  | OpAllIn => all_in tt
  | OpFold => fold tt
  end.

Definition run_ops (ops : list PlayerOp) (p : Player) : Player :=
  fold_left (fun q o => snd (run_op o q)) ops p.

(** ** GameState *)

Record GameState : Type := mkGameState {
  current_betting_round : Z;
  players_in_game : list bool;
  current_max_bet : Z;
  pot_size : Z
}.

Definition GameState_init (num_players : nat) : GameState :=
  mkGameState 0 (repeat true num_players) 0 0.

Definition start_new_betting_round (g : GameState) : GameState :=
  mkGameState (current_betting_round g + 1) (players_in_game g) 0 (pot_size g).

(** [l[i] = v]: Python raises [IndexError] out of range. *)
Fixpoint list_set {A : Type} (l : list A) (i : nat) (v : A) : option (list A) :=
  match l, i with
  | [], _ => None
  | _ :: t, O => Some (v :: t)
  | x :: t, S i' => option_map (cons x) (list_set t i' v)
  end.

Definition player_fold (id : nat) : M GameState unit := fun g =>
  match list_set (players_in_game g) id false with
  | Some l => (Ok tt, mkGameState (current_betting_round g) l (current_max_bet g) (pot_size g))
  | None => raise IndexError g
  end.

Definition update_pot (b : Z) (g : GameState) : GameState :=
  mkGameState (current_betting_round g) (players_in_game g) (current_max_bet g) (pot_size g + b).

Definition update_max_bet (b : Z) (g : GameState) : GameState :=
  if (b >? current_max_bet g)%Z
  then mkGameState (current_betting_round g) (players_in_game g) b (pot_size g)
  else g.


(** ** Python built-ins used by the evaluator *)

(** [sorted(l, reverse=True)] under a strict order [ltb]: Python's sort
    is stable and stays stable under [reverse=True], so an element goes
    in front of the first one that is not strictly greater, which keeps
    equal elements in their input order. *)
Section Sorting.
Context {A : Type} (ltb : A -> A -> bool).

Fixpoint insert_desc (x : A) (l : list A) : list A :=
  match l with
  | [] => [x]
  | h :: t => if ltb x h then h :: insert_desc x t else x :: h :: t
  end.

Definition sorted_rev (l : list A) : list A := fold_right insert_desc [] l.

(** [sorted(l)]: an element goes in front of the first one that is
    not strictly smaller. *)
Fixpoint insert_asc (x : A) (l : list A) : list A :=
  match l with
  | [] => [x]
  | h :: t => if ltb h x then h :: insert_asc x t else x :: h :: t
  end.

Definition sorted (l : list A) : list A := fold_right insert_asc [] l.

(** [max(l)] keeps the first of several greatest elements; it is
    called on a non-empty list [x :: l]. *)
Fixpoint max_from (best : A) (l : list A) : A :=
  match l with
  | [] => best
  | x :: t => if ltb best x then max_from x t else max_from best t
  end.
End Sorting.

Definition key_ltb {A : Type} (key : A -> nat) (a b : A) : bool :=
  (key a <? key b)%nat.

(** [itertools.combinations(l, k)] *)
Fixpoint combinations {A : Type} (l : list A) (k : nat) {struct l} : list (list A) :=
  match k, l with
  | O, _ => [[]]
  | S _, [] => []
  | S k', x :: t => map (cons x) (combinations t k') ++ combinations t k
  end.

(** [<] on tuples of integers *)
Fixpoint lex_ltb (a b : list nat) : bool :=
  match a, b with
  | [], [] => false
  | [], _ :: _ => true
  | _ :: _, [] => false
  | x :: a', y :: b' => if (x =? y)%nat then lex_ltb a' b' else (x <? y)%nat
  end.

(** [collections.Counter]: a dict keeps its keys in the order of their
    first insertion. *)
Fixpoint counter_add (r : Rank) (c : list (Rank * nat)) : list (Rank * nat) :=
  match c with
  | [] => [(r, 1%nat)]
  | (r', n) :: t =>
      if rank_eqb r r' then (r', S n) :: t else (r', n) :: counter_add r t
  end.

Definition Counter (rs : list Rank) : list (Rank * nat) :=
  fold_left (fun c r => counter_add r c) rs [].

(** [Counter.most_common()] is [sorted(items, key=count, reverse=True)]. *)
Definition most_common (c : list (Rank * nat)) : list (Rank * nat) :=
  sorted_rev (key_ltb snd) c.

(** ** Poker: constants *)

Definition HAND_RANKINGS : list (string * nat) :=
  [("Royal Flush", 11); ("Straight Flush", 10); ("Four of a Kind", 9);
   ("Full House", 8); ("Flush", 7); ("Straight", 6); ("Three of a Kind", 5);
   ("Two Pair", 4); ("Pair", 3); ("High Card", 2)]%nat.

(** [HAND_RANKINGS[name]], used on the ten literal keys only. *)
Definition ranking_of (name : string) : nat :=
  match find (fun kv => String.eqb (fst kv) name) HAND_RANKINGS with
  | Some kv => snd kv
  | None => 0%nat
  end.

Definition VALID_ACTIONS : list string := ["fold"; "call"; "raise"].
Definition BIG_BLIND : Z := 10.
Definition SMALL_BLIND : Z := 5.

(** ** Poker: hand predicates *)

(** [len(set(suits)) == 1] *)
Definition is_flush (cs : list Card) : bool :=
  (length (nodup suit_eq_dec (map suit cs)) =? 1)%nat.

Definition wheel : list nat := [12; 0; 1; 2; 3]%nat.

Definition list_nat_eqb (a b : list nat) : bool :=
  if list_eq_dec Nat.eq_dec a b then true else false.

Definition card_value (c : Card) : nat := rank_index (rank c).

(** [b - a == 1] on a pair of [zip(values, values[1:])] *)
Definition gap_is_one (ab : nat * nat) : bool :=
  (Z.of_nat (snd ab) - Z.of_nat (fst ab) =? 1)%Z.

(** [is_straight]: [values] is sorted before it is compared with the
    literal [wheel]. *)
Definition is_straight (cs : list Card) : bool :=
  let values := sorted Nat.ltb (map card_value cs) in
  forallb gap_is_one (combine values (tl values)) || list_nat_eqb values wheel.

Definition get_counts (cs : list Card) : list (Rank * nat) :=
  most_common (Counter (map rank cs)).

Definition get_pairs (counts : list (Rank * nat)) (n_pairs : nat) : list Rank :=
  firstn n_pairs (map fst (filter (fun rc => (snd rc =? 2)%nat) counts)).

(** The loop falls through to an implicit [None]. *)
Definition get_three_of_a_kind (counts : list (Rank * nat)) : option Rank :=
  option_map fst (find (fun rc => (snd rc =? 3)%nat) counts).

Definition get_four_of_a_kind (counts : list (Rank * nat)) : option Rank :=
  option_map fst (find (fun rc => (snd rc =? 4)%nat) counts).

(** The [has_*] methods return [(True, ranks)] or [(False, None)]:
    an option.  A rank is a non-empty string, hence truthy. *)
Definition has_pair (all_cards : list Card) : option (list Rank) :=
  match get_pairs (get_counts all_cards) 1 with
  | [] => None
  | p :: ps => Some (p :: ps)
  end.

Definition has_two_pairs (all_cards : list Card) : option (list Rank) :=
  let pairs := get_pairs (get_counts all_cards) 2 in
  if (length pairs =? 2)%nat then Some pairs else None.

Definition has_three_of_a_kind (all_cards : list Card) : option (list Rank) :=
  match get_three_of_a_kind (get_counts all_cards) with
  | Some r => Some [r]
  | None => None
  end.

Definition has_full_house (all_cards : list Card) : option (list Rank) :=
  let counts := get_counts all_cards in
  match get_three_of_a_kind counts, get_pairs counts 1 with
  | Some three, p :: _ => Some [three; p]
  | _, _ => None
  end.

Definition has_four_of_a_kind (all_cards : list Card) : option (list Rank) :=
  match get_four_of_a_kind (get_counts all_cards) with
  | Some r => Some [r]
  | None => None
  end.

(** ** Poker: evaluate_hand *)

Definition royal_ranks : list Rank := [R10; RJ; RQ; RK; RA].

(** [set(a) == set(b)] *)
Definition rank_set_eqb (a b : list Rank) : bool :=
  forallb (fun r => existsb (rank_eqb r) b) a &&
  forallb (fun r => existsb (rank_eqb r) a) b.

(** [sorted(cards, key=lambda c: Card.RANKS.index(c.rank), reverse=True)] *)
Definition by_rank_desc (cs : list Card) : list Card :=
  sorted_rev (key_ltb card_value) cs.

Definition with_rank (r : Rank) (cs : list Card) : list Card :=
  filter (fun c => rank_eqb (rank c) r) cs.

Definition without_rank (r : Rank) (cs : list Card) : list Card :=
  filter (fun c => negb (rank_eqb (rank c) r)) cs.

(** The body of [evaluate_hand], with the method it calls on
    [([], board)] as a parameter.  The rank lists of the [has_*] methods
    are indexed at positions they always have; [nth]'s default is never
    reached.  The last [if hand:] of the source is true wherever it is
    reached, the empty hand having returned at the top. *)
Definition evaluate_hand_body
    (self_evaluate_hand : list Card -> list Card -> nat * list Card)
    (hand board : list Card) : nat * list Card :=
  let all_cards := hand ++ board in
  match hand with
  | [] => (0%nat, [])
  | h0 :: hrest =>
    let board_ranking := fst (self_evaluate_hand [] board) in
    if is_flush all_cards && is_straight all_cards then
      if rank_set_eqb (map rank all_cards) royal_ranks then
        (ranking_of "Royal Flush", all_cards)
      else
        let straight_flush_result := (ranking_of "Straight Flush", all_cards) in
        if (board_ranking <=? fst straight_flush_result)%nat
        then straight_flush_result else (board_ranking, [])
    else
    match has_four_of_a_kind all_cards with
    | Some four_of_a_kind_cards_ranks =>
      let four_of_a_kind_rank := nth 0 four_of_a_kind_cards_ranks R2 in
      let four_of_a_kind_cards := by_rank_desc (with_rank four_of_a_kind_rank all_cards) in
      let remaining_card :=
        firstn 1 (by_rank_desc (without_rank four_of_a_kind_rank all_cards)) in
      (ranking_of "Four of a Kind", four_of_a_kind_cards ++ remaining_card)
    | None =>
    match has_full_house all_cards with
    | Some full_house_cards_ranks =>
      let three_cards_rank := nth 0 full_house_cards_ranks R2 in
      let pair_rank := nth 1 full_house_cards_ranks R2 in
      let three_cards := by_rank_desc (with_rank three_cards_rank all_cards) in
      let pair_cards := by_rank_desc (with_rank pair_rank all_cards) in
      (ranking_of "Full House", three_cards ++ pair_cards)
    | None =>
    if is_flush all_cards then (ranking_of "Flush", all_cards) else
    if is_straight all_cards then (ranking_of "Straight", all_cards) else
    match has_three_of_a_kind all_cards with
    | Some three_of_a_kind_cards_ranks =>
      (ranking_of "Three of a Kind",
       with_rank (nth 0 three_of_a_kind_cards_ranks R2) all_cards)
    | None =>
    match has_two_pairs all_cards with
    | Some two_pairs_cards_ranks =>
      let first_pair_cards := with_rank (nth 0 two_pairs_cards_ranks R2) all_cards in
      let second_pair_cards := with_rank (nth 1 two_pairs_cards_ranks R2) all_cards in
      (ranking_of "Two Pair", first_pair_cards ++ second_pair_cards)
    | None =>
    match has_pair all_cards with
    | Some pair_cards_ranks =>
      (ranking_of "Pair", with_rank (nth 0 pair_cards_ranks R2) all_cards)
    | None =>
      let highest_card := max_from (key_ltb card_value) h0 hrest in
      let high_card_result := (ranking_of "High Card", [highest_card]) in
      if (board_ranking <=? fst high_card_result)%nat
      then high_card_result else (board_ranking, [])
    end end end end end
  end.

(** [evaluate_hand] calls itself once, on an empty hand, and that call
    returns at its first test: two unfoldings of the body are the whole
    recursion ([evaluate_hand_unfold] below). *)
Definition evaluate_hand (hand board : list Card) : nat * list Card :=
  evaluate_hand_body (evaluate_hand_body (fun _ _ => (0%nat, []))) hand board.

(** ** Poker: best_five_cards and show_results *)

(** [best_five_cards] returns the list [[]] or a 5-tuple; Python
    orders lists among themselves and tuples among themselves and
    raises [TypeError] on [<] or [>] between the two. *)
Inductive PySeq : Type :=
| PyList (l : list nat)
| PyTuple (l : list nat).

Definition best_five_cards (cs : list Card) : PySeq :=
  let card_values := sorted_rev Nat.ltb (map card_value cs) in
  let combs := combinations card_values 5 in
  match combs with
  | [] => PyList []
  | _ :: _ => PyTuple (hd [] (sorted_rev lex_ltb combs))
  end.

Definition pyseq_eqb (a b : PySeq) : bool :=
  match a, b with
  | PyList x, PyList y => list_nat_eqb x y
  | PyTuple x, PyTuple y => list_nat_eqb x y
  | _, _ => false
  end.

Definition pyseq_gt (a b : PySeq) : Res bool :=
  match a, b with
  | PyList x, PyList y => Ok (lex_ltb y x)
  | PyTuple x, PyTuple y => Ok (lex_ltb y x)
  | _, _ => Raise TypeError
  end.

(** [a > b] on the keys [(category, best five)]: tuples compare at the
    first position where they differ under [==]. *)
Definition key_gt (a b : nat * PySeq) : Res bool :=
  if (fst a =? fst b)%nat then
    if pyseq_eqb (snd a) (snd b) then Ok false else pyseq_gt (snd a) (snd b)
  else Ok (fst b <? fst a)%nat.

Definition showdown_key (x : nat * list Card) : nat * PySeq :=
  (fst x, best_five_cards (snd x)).

(** [max(hand_rankings, key=...)]: a later item replaces the current
    one only when its key is strictly greater. *)
Fixpoint max_ranking_from (best : nat * list Card) (l : list (nat * list Card))
  : Res (nat * list Card) :=
  match l with
  | [] => Ok best
  | x :: t =>
      match key_gt (showdown_key x) (showdown_key best) with
      | Ok true => max_ranking_from x t
      | Ok false => max_ranking_from best t
      | Raise e => Raise e
      end
  end.

(** [ranking == max_rank] on [(int, list of Card)].  [Card] defines no
    [__eq__], so cards compare by identity; a deck holds one object per
    suit and rank, so identity is equality of the two fields. *)
Definition ranking_eqb (a b : nat * list Card) : bool :=
  (fst a =? fst b)%nat && (if list_eq_dec card_eq_dec (snd a) (snd b) then true else false).

Definition enumerate {A : Type} (l : list A) : list (nat * A) :=
  combine (seq 0 (length l)) l.

(** [[key for key, value in HAND_RANKINGS.items() if value == r][0]] *)
Definition hand_category (r : nat) : Res string :=
  match filter (fun kv => (snd kv =? r)%nat) HAND_RANKINGS with
  | kv :: _ => Ok (fst kv)
  | [] => Raise IndexError
  end.

Fixpoint map_res {A B : Type} (f : A -> Res B) (l : list A) : Res (list B) :=
  match l with
  | [] => Ok []
  | x :: t =>
      match f x with
      | Raise e => Raise e
      | Ok y => match map_res f t with
                | Raise e => Raise e
                | Ok ys => Ok (y :: ys)
                end
      end
  end.

Definition potential_winners (hand_rankings : list (nat * list Card))
    (max_rank : nat * list Card) : list nat :=
  map fst (filter (fun ir => ranking_eqb (snd ir) max_rank) (enumerate hand_rankings)).

(** [show_results] (the second definition in the class, which replaces
    the first): what it prints, as data: the category name of every
    seat, then the winners (printed one-based). *)
Definition show_results (players : list Player) (board : list Card)
  : Res (list string * list nat) :=
  let hand_rankings := map (fun p => evaluate_hand (hand p) board) players in
  match hand_rankings with
  | [] => Raise (ValueError "max() arg is an empty sequence")
  | r0 :: rs =>
      match max_ranking_from r0 rs with
      | Raise e => Raise e
      | Ok max_rank =>
          match map_res hand_category (map fst hand_rankings) with
          | Raise e => Raise e
          | Ok categories => Ok (categories, potential_winners hand_rankings max_rank)
          end
      end
  end.

(** ** Deck.deal *)

(** One pass of the inner loop [for hand in hands], with its [break]. *)
Fixpoint deal_row (hands : list (list Card)) : M Deck (list (list Card)) :=
  match hands with
  | [] => ret []
  | h :: t => fun d =>
      if is_empty d then (Ok (h :: t), d)
      else (card <- draw_card 1 ;;
            rest <- deal_row t ;;
            ret ((h ++ card) :: rest))%py d
  end.

Fixpoint deal_rows (num_cards : nat) (hands : list (list Card))
  : M Deck (list (list Card)) :=
  match num_cards with
  | O => ret hands
  | S k => (hands' <- deal_row hands ;; deal_rows k hands')%py
  end.

Definition deal (num_hands num_cards : Z) : M Deck (list (list Card)) := fun d =>
  if ((num_hands <=? 0) || (num_cards <=? 0))%Z then
    raise (ValueError "Number of hands and cards must be positive integers.") d
  else if (num_hands * num_cards >? Z.of_nat (length (cards d)))%Z then
    raise (ValueError "Not enough cards in the deck to deal.") d
  else deal_rows (Z.to_nat num_cards) (repeat [] (Z.to_nat num_hands)) d.

(** ** Poker: the table and the console *)

Record Poker : Type := mkPoker {
  num_players : nat;
  players : list Player;
  board : list Card;
  deck : Deck;
  game_state : GameState;
  player_positions : list nat
}.

(** [Poker.__init__].  [self.deck.shuffle()] draws on the system's
    randomness: the order it leaves the cards in is the argument
    [shuffled]. *)
Definition Poker_init (n : nat) (shuffled : list Card) : Res Poker :=
  if ((n <? 2) || (9 <? n))%nat then
    Raise (ValueError "Invalid number of players. Must be between 2 and 9.")
  else
    Ok (mkPoker n (map (fun i => Player_init i 100) (seq 0 n)) [] (mkDeck shuffled)
                (GameState_init n) (seq 0 n)).

(** [update_player_positions]: [positions[-1:] + positions[:-1]].  No
    method of the class calls it. *)
Definition update_player_positions (g : Poker) : Poker :=
  mkPoker (num_players g) (players g) (board g) (deck g) (game_state g)
          (match rev (player_positions g) with
           | [] => []
           | x :: r => x :: rev r
           end).

(** What the program prints, as data.  Prompts and the fixed banner
    lines are left out. *)
Inductive Event : Type :=
| EvBlind (player_number : nat) (amount : Z)
| EvAction (player_number : nat) (amount : Z) (act : string)
| EvHand (player_number : nat) (shown : list Card)
| EvBoard (shown : list Card)
| EvResults (categories : list string) (winners : list nat).

(** The state of a run: the game object, the lines still to be read by
    [input()], and the output so far. *)
Record World : Type := mkWorld {
  game : Poker;
  stdin : list string;
  stdout : list Event
}.

Definition set_players (ps : list Player) (g : Poker) : Poker :=
  mkPoker (num_players g) ps (board g) (deck g) (game_state g) (player_positions g).
Definition set_board (b : list Card) (g : Poker) : Poker :=
  mkPoker (num_players g) (players g) b (deck g) (game_state g) (player_positions g).
Definition set_deck (d : Deck) (g : Poker) : Poker :=
  mkPoker (num_players g) (players g) (board g) d (game_state g) (player_positions g).
Definition set_game_state (s : GameState) (g : Poker) : Poker :=
  mkPoker (num_players g) (players g) (board g) (deck g) s (player_positions g).
Definition set_game (g : Poker) (w : World) : World :=
  mkWorld g (stdin w) (stdout w).

Definition print (e : Event) : M World unit :=
  modify (fun w => mkWorld (game w) (stdin w) (stdout w ++ [e])).

Definition on_deck {A : Type} (m : M Deck A) : M World A := fun w =>
  let (r, d) := m (deck (game w)) in (r, set_game (set_deck d (game w)) w).

Definition on_game_state {A : Type} (m : M GameState A) : M World A := fun w =>
  let (r, s) := m (game_state (game w)) in (r, set_game (set_game_state s (game w)) w).

(** A method call on [self.players[idx]]: the object in the list is
    the one that is mutated. *)
Definition on_player {A : Type} (idx : nat) (m : M Player A) : M World A := fun w =>
  match nth_error (players (game w)) idx with
  | None => raise IndexError w
  | Some p =>
      let (r, p') := m p in
      match list_set (players (game w)) idx p' with
      | Some ps => (r, set_game (set_players ps (game w)) w)
      | None => raise IndexError w
      end
  end.

(** [self.players[idx]] read without a call on it. *)
Definition get_player (idx : nat) : M World Player := fun w =>
  match nth_error (players (game w)) idx with
  | None => raise IndexError w
  | Some p => (Ok p, w)
  end.

(** ** Console input *)

(** The methods of [str] that the program calls on a typed line, and
    [int].  They are the interpreter's: which characters [strip]
    removes and [lower] maps, which characters [isdigit] accepts, and
    when [int] raises, is theirs to say, on ASCII text and beyond it.
    The program is modelled over any such methods, and nothing is
    assumed about them.  A line is held as the bytes of its text.
    [int] is a function of the line, so the program's repeated calls
    on one line agree. *)
Class Str : Type := {
  lower : string -> string;
  strip : string -> string;
  isdigit : string -> bool;
  int : string -> Res Z
}.

(** [s.lower().strip()] *)
Definition lower_strip {py : Str} (s : string) : string := strip (lower s).

(** [input()]: the next line, or [EOFError] at the end of the input. *)
Definition input : M World string := fun w =>
  match stdin w with
  | [] => raise EOFError w
  | s :: t => (Ok s, mkWorld (game w) t (stdout w))
  end.

(** A [while] loop that keeps asking until a line is accepted. *)
Fixpoint read_until {A : Type} (accept : string -> option A) (lines : list string)
  : Res A * list string :=
  match lines with
  | [] => (Raise EOFError, [])
  | s :: t =>
      match accept s with
      | Some a => (Ok a, t)
      | None => read_until accept t
      end
  end.

Definition input_until {A : Type} (accept : string -> option A) : M World A := fun w =>
  let (r, rest) := read_until accept (stdin w) in
  (r, mkWorld (game w) rest (stdout w)).

(** The same loop for a condition that can raise: the exception leaves
    the loop, the line that caused it having been read. *)
Fixpoint read_until_raising {A : Type} (accept : string -> Res (option A))
    (lines : list string) : Res A * list string :=
  match lines with
  | [] => (Raise EOFError, [])
  | s :: t =>
      match accept s with
      | Ok (Some a) => (Ok a, t)
      | Ok None => read_until_raising accept t
      | Raise e => (Raise e, t)
      end
  end.

Definition input_until_raising {A : Type} (accept : string -> Res (option A))
  : M World A := fun w =>
  let (r, rest) := read_until_raising accept (stdin w) in
  (r, mkWorld (game w) rest (stdout w)).

(** [action not in self.VALID_ACTIONS], negated *)
Definition accept_action {py : Str} (s : string) : option string :=
  let a := lower_strip s in
  if existsb (String.eqb a) VALID_ACTIONS then Some a else None.

(** The condition of the loop over the bet, negated, with the value
    [bet = int(bet_input)] takes after the loop.  [or] evaluates from
    the left: [int] is called only on a line that [isdigit] accepts, and
    what it raises there leaves the loop. *)
Definition accept_bet {py : Str} (max_bet stack : Z) (s : string) : Res (option Z) :=
  if negb (isdigit s) then Ok None
  else
    match int s with
    | Raise e => Raise e
    | Ok v =>
        if ((v <=? max_bet) || (v >? stack) || (v <? 2 * BIG_BLIND))%Z
        then Ok None else Ok (Some v)
    end.

(** ** Poker: dealing *)

Fixpoint assign_hands (hands : list (list Card)) (ps : list Player)
  : option (list Player) :=
  match hands, ps with
  | [], _ => Some ps
  | _ :: _, [] => None
  | h :: hs, p :: ps' => option_map (cons (set_hand h p)) (assign_hands hs ps')
  end.

Definition deal_hole_cards : M World unit :=
  (w <- get ;;
   hands <- on_deck (deal (Z.of_nat (num_players (game w))) 2) ;;
   w' <- get ;;
   match assign_hands hands (players (game w')) with
   | Some ps => put (set_game (set_players ps (game w')) w')
   | None => raise IndexError
   end)%py.

Definition burn_and_draw (n : Z) : M World unit :=
  (on_deck (draw_card 1) ;;;
   drawn <- on_deck (draw_card n) ;;
   modify (fun w => set_game (set_board (board (game w) ++ drawn) (game w)) w))%py.

Definition deal_flop : M World unit := burn_and_draw 3.
Definition deal_turn : M World unit := burn_and_draw 1.
Definition deal_river : M World unit := burn_and_draw 1.

Definition deal_community_cards : M World unit :=
  (deal_flop ;;; deal_turn ;;; deal_river)%py.

(** ** Poker: betting_round *)

(** One iteration of the loop over the rotated seat list; [i] is the
    position in that list, [idx] the seat's index in [self.players]. *)
Definition seat_turn {py : Str} (small_blind_player_idx big_blind_player_idx : nat)
    (i idx : nat) (active_players : nat) : M World nat :=
  (player <- get_player idx ;;
   if negb (is_active player) then ret active_players
   else if (i =? small_blind_player_idx)%nat then
     on_player idx (bet SMALL_BLIND) ;;;
     print (EvBlind (player_id player + 1) SMALL_BLIND) ;;;
     ret active_players
   else if (i =? big_blind_player_idx)%nat then
     on_player idx (bet BIG_BLIND) ;;;
     print (EvBlind (player_id player + 1) BIG_BLIND) ;;;
     ret active_players
   else
     act <- input_until accept_action ;;
     active_players' <-
       (if String.eqb act "fold"
        then on_player idx (fold tt) ;;; ret active_players
        else ret (S active_players)) ;;
     w <- get ;;
     amount <-
       (if String.eqb act "raise"
        then input_until_raising
               (accept_bet (current_max_bet (game_state (game w))) (chips player))
        else if String.eqb act "call"
        then ret (current_max_bet (game_state (game w)))
        else ret 0%Z) ;;
     (if String.eqb act "call" then on_player idx (call amount)
      else if String.eqb act "raise" then on_player idx (raise_bet amount)
      else on_player idx (fold tt) ;;; on_game_state (player_fold (player_id player))) ;;;
     player' <- get_player idx ;;
     on_game_state (modify (update_pot (current_bet player'))) ;;;
     on_game_state (modify (update_max_bet (current_bet player'))) ;;;
     print (EvAction (player_id player + 1) (current_bet player') act) ;;;
     ret active_players')%py.

Fixpoint seats_loop {py : Str} (sb bb : nat) (order : list (nat * nat)) (active_players : nat)
  : M World nat :=
  match order with
  | [] => ret active_players
  | (i, idx) :: t =>
      (a <- seat_turn sb bb i idx active_players ;; seats_loop sb bb t a)%py
  end.

(** [self.players[start_index:] + self.players[:start_index]], as the
    indices of the seats: the new list holds the same objects. *)
Definition rotated_seats (start_index n : nat) : list nat :=
  skipn start_index (seq 0 n) ++ firstn start_index (seq 0 n).

Definition betting_round {py : Str} (first_round : bool) : M World nat :=
  (w <- get ;;
   match player_positions (game w) with
   | small_blind_player_idx :: big_blind_player_idx :: _ =>
       let start_index := if first_round then 2%nat else 0%nat in
       seats_loop small_blind_player_idx big_blind_player_idx
         (enumerate (rotated_seats start_index (length (players (game w))))) 0
   | _ => raise IndexError
   end)%py.

(** ** Poker: display_hands, show_results, play *)

Definition by_rank_asc (cs : list Card) : list Card :=
  sorted (key_ltb card_value) cs.

Definition display_poker_hand (player_number : nat) (h board_cards : list Card)
  : M World unit :=
  (print (EvHand player_number (by_rank_asc h)) ;;;
   match board_cards with
   | [] => ret tt
   | _ :: _ => print (EvBoard (by_rank_asc board_cards))
   end)%py.

Fixpoint display_each (ps : list Player) (b : list Card) : M World unit :=
  match ps with
  | [] => ret tt
  | p :: t => (display_poker_hand (player_id p + 1) (hand p) b ;;; display_each t b)%py
  end.

Definition display_hands : M World unit :=
  (w <- get ;; display_each (players (game w)) (board (game w)))%py.

Definition show_results_io : M World unit :=
  (w <- get ;;
   match show_results (players (game w)) (board (game w)) with
   | Ok (categories, winners) => print (EvResults categories winners)
   | Raise e => raise e
   end)%py.

Definition gt1 (active_players : nat) : bool := (1 <? active_players)%nat.

Definition play {py : Str} : M World unit :=
  (deal_hole_cards ;;;
   active_players <- betting_round true ;;
   (if gt1 active_players then
      deal_community_cards ;;;
      active_players <- betting_round false ;;
      if gt1 active_players then
        deal_turn ;;;
        active_players <- betting_round false ;;
        if gt1 active_players then
          deal_river ;;; _ <- betting_round false ;; ret tt
        else ret tt
      else ret tt
    else ret tt) ;;;
   display_hands ;;;
   show_results_io)%py.

(** A fresh table of [n] seats on the deck order [shuffled], with the
    console lines [lines] still to come. *)
Definition start (n : nat) (shuffled : list Card) (lines : list string) : Res World :=
  match Poker_init n shuffled with
  | Ok g => Ok (mkWorld g lines [])
  | Raise e => Raise e
  end.

(** ** The streets of play *)

(** The first street of [play], and the two that may follow it. *)
Definition preflop {py : Str} : M World nat := (deal_hole_cards ;;; betting_round true)%py.
Definition flop_street {py : Str} : M World nat := (deal_community_cards ;;; betting_round false)%py.
Definition turn_street {py : Str} : M World nat := (deal_turn ;;; betting_round false)%py.

(** The last two steps of [play]. *)
Definition showdown : M World unit := (display_hands ;;; show_results_io)%py.

(** What [display_hands] prints for the seats [ps] on the board [b]. *)
Definition display_events (ps : list Player) (b : list Card) : list Event :=
  flat_map (fun p =>
              EvHand (player_id p + 1) (by_rank_asc (hand p))
              :: match b with [] => [] | _ :: _ => [EvBoard (by_rank_asc b)] end) ps.

(** ** Reading the evaluator *)

(** How often a rank occurs among the cards. *)
Definition rank_count (r : Rank) (cs : list Card) : nat :=
  count_occ rank_eq_dec (map rank cs) r.

(** The count a Counter holds for a key, 0 for a key it does not hold
    ([Counter.__getitem__]). *)
Fixpoint count_in (c : list (Rank * nat)) (x : Rank) : nat :=
  match c with
  | [] => 0%nat
  | (r, n) :: t => if rank_eqb x r then n else count_in t x
  end.

(** A dict has each key once, and a Counter built by counting holds
    positive counts only. *)
Definition counter_wf (c : list (Rank * nat)) : Prop :=
  NoDup (map fst c) /\ Forall (fun rc => (0 < snd rc)%nat) c.

Definition count_is (k : nat) (rc : Rank * nat) : bool := (snd rc =? k)%nat.

Definition is_some {A : Type} (o : option A) : bool :=
  match o with Some _ => true | None => false end.

(** The first component of [evaluate_hand]'s result for a non-empty
    hole, read off the branches of its body: the board ranking it
    compares with is 0, so no comparison changes the category. *)
Definition category_of (all_cards : list Card) : nat :=
  if is_flush all_cards && is_straight all_cards then
    if rank_set_eqb (map rank all_cards) royal_ranks
    then ranking_of "Royal Flush" else ranking_of "Straight Flush"
  else if is_some (has_four_of_a_kind all_cards) then ranking_of "Four of a Kind"
  else if is_some (has_full_house all_cards) then ranking_of "Full House"
  else if is_flush all_cards then ranking_of "Flush"
  else if is_straight all_cards then ranking_of "Straight"
  else if is_some (has_three_of_a_kind all_cards) then ranking_of "Three of a Kind"
  else if is_some (has_two_pairs all_cards) then ranking_of "Two Pair"
  else if is_some (has_pair all_cards) then ranking_of "Pair"
  else ranking_of "High Card".

(** ** Lines typed in ASCII *)

(** What the methods do on a line whose characters are all ASCII
    (below 128), to run the program on such lines: the hands used as
    examples are typed in ASCII, and only they use this instance, every
    general statement being made for all methods.  On such a line
    [lower] maps A-Z to a-z, [strip] removes the characters 9 to 13, 28
    to 31 and 32 from both ends, [isdigit] holds when the line is not
    empty and all its characters are digits 0-9, and [int] reads such a
    line in base 10.  CPython 3.11 refuses a line of more than 4300
    digits with a ValueError whose message starts as below and goes on
    with the number of digits; on a line that is not of digits, where
    the program never calls it, [int] is given the ValueError of a line
    it cannot read. *)
Definition lower_ascii (c : ascii) : ascii :=
  let n := nat_of_ascii c in
  if ((65 <=? n) && (n <=? 90))%nat then ascii_of_nat (n + 32) else c.

Definition is_space (c : ascii) : bool :=
  let n := nat_of_ascii c in
  ((n =? 32) || ((9 <=? n) && (n <=? 13)) || ((28 <=? n) && (n <=? 31)))%nat.

Fixpoint lstrip (l : list ascii) : list ascii :=
  match l with
  | c :: t => if is_space c then lstrip t else l
  | [] => []
  end.

Definition ascii_lower (s : string) : string :=
  string_of_list_ascii (map lower_ascii (list_ascii_of_string s)).

Definition ascii_strip (s : string) : string :=
  string_of_list_ascii (rev (lstrip (rev (lstrip (list_ascii_of_string s))))).

Definition is_digit (c : ascii) : bool :=
  let n := nat_of_ascii c in ((48 <=? n) && (n <=? 57))%nat.

Definition ascii_isdigit (s : string) : bool :=
  match list_ascii_of_string s with
  | [] => false
  | l => forallb is_digit l
  end.

Definition int_max_str_digits : nat := 4300.

Definition ascii_int (s : string) : Res Z :=
  if negb (ascii_isdigit s) then
    Raise (ValueError "invalid literal for int() with base 10")
  else if (int_max_str_digits <? String.length s)%nat then
    Raise (ValueError "Exceeds the limit (4300 digits) for integer string conversion")
  else
    Ok (fold_left (fun acc c => (10 * acc + Z.of_nat (nat_of_ascii c - 48))%Z)
                  (list_ascii_of_string s) 0%Z).

#[export] Instance ascii_lines : Str :=
  {| lower := ascii_lower; strip := ascii_strip; isdigit := ascii_isdigit; int := ascii_int |}.

(** ** Hands, boards and tables used in the examples *)

Definition royal_hole : list Card := [RA of Spades; RK of Spades].
Definition royal_board : list Card :=
  [RQ of Spades; RJ of Spades; R10 of Spades; R2 of Hearts; R3 of Diamonds].
Definition deuce_seven : list Card := [R2 of Clubs; R7 of Diamonds].

Definition wheel_hole : list Card := [RA of Spades; R2 of Hearts].
Definition six_high_hole : list Card := [R6 of Hearts; R2 of Clubs].
Definition low_board : list Card := [R3 of Diamonds; R4 of Clubs; R5 of Spades].

Definition ace_four : list Card := [RA of Spades; R4 of Clubs].
Definition ace_five : list Card := [RA of Hearts; R5 of Clubs].
Definition dry_board : list Card :=
  [R3 of Diamonds; R7 of Hearts; R9 of Clubs; RJ of Spades; RK of Diamonds].

Definition spade_board : list Card :=
  [R7 of Spades; R2 of Spades; R9 of Spades; RJ of Spades; RK of Spades].
Definition three_four : list Card := [R3 of Hearts; R4 of Diamonds].

Definition two_aces : list Card := [RA of Spades; RA of Hearts].
Definition kings_then_queens : list Card :=
  [RA of Diamonds; RK of Spades; RK of Hearts; RQ of Spades; RQ of Hearts].
Definition queens_then_kings : list Card :=
  [RA of Diamonds; RQ of Spades; RQ of Hearts; RK of Spades; RK of Hearts].

Definition two_deuces : list Card := [R2 of Clubs; R2 of Diamonds].
Definition quads_board : list Card :=
  [R2 of Hearts; R2 of Spades; R9 of Clubs; R9 of Diamonds; R5 of Clubs].
Definition two_trips_board : list Card :=
  [RA of Diamonds; RK of Spades; RK of Hearts; RK of Diamonds; R5 of Clubs].

(** A seat holding [h]. *)
Definition seat (id : nat) (h : list Card) : Player := set_hand h (Player_init id 100).

(** A table of four seats on the unshuffled deck order, and the console
    lines of a hand in which seat 0 raises to 20 before the flop and
    every later action is a call. *)
Definition four_seats (lines : list string) : World :=
  mkWorld (mkPoker 4 (map (fun i => Player_init i 100) (seq 0 4)) [] Deck_init
                   (GameState_init 4) (seq 0 4)) lines [].

Definition raise_then_calls : list string :=
  ["raise"; "20"; "call"; "call"; "call"; "call"; "call"].

(** The run of [play] up to the turn's betting round. *)
Definition up_to_the_turn {py : Str} : M World unit :=
  (deal_hole_cards ;;;
   _ <- betting_round true ;;
   deal_community_cards ;;;
   _ <- betting_round false ;;
   deal_turn)%py.

Definition table_on_the_turn : World := snd (up_to_the_turn (four_seats raise_then_calls)).

(** The unshuffled order with the first card and the eleventh
    exchanged, a table of five seats on it, and the lines of a hand in
    which two seats call before the flop and every seat asked on the
    flop folds. *)
Definition stacked_deck : list Card :=
  RQ of Hearts :: firstn 9 (skipn 1 (cards Deck_init))
    ++ R2 of Hearts :: skipn 11 (cards Deck_init).

Definition five_seats (lines : list string) : World :=
  mkWorld (mkPoker 5 (map (fun i => Player_init i 100) (seq 0 5)) [] (mkDeck stacked_deck)
                   (GameState_init 5) (seq 0 5)) lines [].

Definition calls_then_folds : list string :=
  ["call"; "call"; "fold"; "fold"; "fold"; "fold"].

(** ** Further reading aids *)

(** The ranks in the order in which they first occur. *)
Fixpoint first_seen (rs : list Rank) : list Rank :=
  match rs with
  | [] => []
  | r :: t => r :: filter (fun x => negb (rank_eqb x r)) (first_seen t)
  end.

(** Not among the keys [ks]. *)
Definition not_among (ks : list Rank) (x : Rank) : bool :=
  negb (existsb (rank_eqb x) ks).

(** ** Reasoning about a run *)

(** A step started in a state that satisfies [P] ends in a state that
    satisfies [Q a] when it returns [a], and [E e] when it raises [e]. *)
Definition triple {A : Type} (P : World -> Prop) (m : M World A)
    (Q : A -> World -> Prop) (E : Exn -> World -> Prop) : Prop :=
  forall (w : World) (r : Res A) (w' : World),
    P w -> m w = (r, w') ->
    match r with
    | Ok a => Q a w'
    | Raise e => E e w'
    end.

(** A seat is in order when its stack lies between 0 and the bound [B]
    and its current bet is not negative and not above both the max bet
    and 19. *)
Definition seat_ok (B max_bet : Z) (p : Player) : Prop :=
  (0 <= chips p <= B)%Z /\ (0 <= current_bet p <= Z.max max_bet 19)%Z.

(** A table of [n] seats is in order: the shape [Poker.__init__] gave
    it, every seat in order, max bet and pot not negative. *)
Definition table_ok (n : nat) (B : Z) (g : Poker) : Prop :=
  2 <= n /\
  length (players g) = n /\
  (forall (i : nat) (p : Player), nth_error (players g) i = Some p -> player_id p = i) /\
  length (players_in_game (game_state g)) = n /\
  player_positions g = seq 0 n /\
  Forall (seat_ok B (current_max_bet (game_state g))) (players g) /\
  (0 <= current_max_bet (game_state g))%Z /\
  (0 <= pot_size (game_state g))%Z /\
  num_players g = n.

(** Where the cards are. *)
Definition table_cards (g : Poker) : list (list Card) * list Card * Deck :=
  (map hand (players g), board g, deck g).

(** The only exceptions a hand on a full deck ends with: the end of
    the input, a blind that a seat cannot pay, and what [int] raises on
    a line that [isdigit] accepts. *)
Definition stops_a_hand {py : Str} (e : Exn) : Prop :=
  e = EOFError \/ e = not_enough_chips \/
  exists s : string, isdigit s = true /\ int s = Raise e.

(** The seats of a round's list that are asked for an action. *)
Definition asked (sb bb : nat) (order : list (nat * nat)) : nat :=
  length (filter (fun x => negb ((fst x =? sb) || (fst x =? bb))%nat) order).

(** A 5-tuple rather than the empty list. *)
Definition is_tuple (s : PySeq) : bool :=
  match s with PyTuple _ => true | PyList _ => false end.

(** The cards of a table dealt from the deck order [D]: every seat holds
    [L] cards, the board holds [bl], [nb] cards have been burnt, the deck
    has [dl] left, and hands, board, burnt cards and deck are together
    the cards of [D]. *)
Definition cards_ok (D : list Card) (L bl nb dl : nat)
    (tc : list (list Card) * list Card * Deck) : Prop :=
  Forall (fun h => length h = L) (fst (fst tc)) /\
  length (snd (fst tc)) = bl /\
  length (cards (snd tc)) = dl /\
  exists burned : list Card,
    length burned = nb /\
    Permutation (concat (fst (fst tc)) ++ snd (fst tc) ++ burned ++ cards (snd tc)) D.

(** A table in order, with a stack bound of 100, and its cards. *)
Definition phase (n : nat) (D : list Card) (L bl nb dl : nat) (w : World) : Prop :=
  table_ok n 100 (game w) /\ cards_ok D L bl nb dl (table_cards (game w)).

(** Where a hand can stand when [play] ends, normally or not: two cards
    in every hole, and a board of no card or of five, six or seven. *)
Definition hand_over (n : nat) (D : list Card) (w : World) : Prop :=
  exists bl nb dl : nat,
    phase n D 2 bl nb dl w /\
    ((bl = 0 /\ nb = 0) \/ (4 <= n /\ ((bl = 5 /\ nb = 3) \/ (bl = 6 /\ nb = 4)
                                      \/ (bl = 7 /\ nb = 5)))).

(** Same seat, whatever it holds. *)
Definition same_seat (p p' : Player) : Prop :=
  player_id p' = player_id p /\ chips p' = chips p /\ current_bet p' = current_bet p.


(** A fresh table of three seats on the unshuffled deck. *)
Definition three_seats (lines : list string) : World :=
  mkWorld (mkPoker 3 (map (fun i => Player_init i 100) (seq 0 3)) [] Deck_init
                   (GameState_init 3) (seq 0 3)) lines [].

(** The round counter is where it was in [g0], and the max bet is not
    below the one of [g0]. *)
Definition street_kept (g0 : GameState) (w : World) : Prop :=
  current_betting_round (game_state (game w)) = current_betting_round g0 /\
  (current_max_bet g0 <= current_max_bet (game_state (game w)))%Z.

(** A step that keeps this, whether it returns or raises. *)
Definition keeps_street {A : Type} (m : M World A) : Prop :=
  forall g0 : GameState,
    triple (street_kept g0) m (fun _ => street_kept g0) (fun _ => street_kept g0).

(** A line the loop over the bet asks again for: not of digits, or a
    number that is not above the max bet, above the stack, or below
    twice the big blind. *)
Definition bet_refused {py : Str} (max_bet stack : Z) (s : string) : Prop :=
  isdigit s = false \/
  exists v : Z, isdigit s = true /\ int s = Ok v /\
                (v <= max_bet \/ stack < v \/ v < 2 * BIG_BLIND)%Z.

(** ** Deck lemmas *)

Lemma Deck_init_length : length (cards Deck_init) = 52%nat.
Proof. reflexivity. Qed.

Lemma Deck_init_NoDup : NoDup (cards Deck_init).
Proof.
  apply (NoDup_count_occ' card_eq_dec).
  intros c Hc.
  cbv [Deck_init cards SUITS RANKS flat_map map app] in Hc |- *.
  repeat (destruct Hc as [<- | Hc]; [reflexivity | ]).
  destruct Hc.
Qed.

Lemma draw_card_ok (n : Z) (d : Deck) (cs : list Card) (d' : Deck) :
  draw_card n d = (Ok cs, d') ->
  cs ++ cards d' = cards d /\ Z.of_nat (length cs) = n.
Proof.
  unfold draw_card.
  destruct (n <=? 0)%Z eqn:Hn; [discriminate | ].
  destruct (n >? Z.of_nat (length (cards d)))%Z eqn:Hlen; [discriminate | ].
  intros H; inversion H; subst; clear H. simpl.
  split.
  - apply firstn_skipn.
  - rewrite length_firstn. lia.
Qed.

Lemma draw_seq_ok (ns : list Z) :
  forall (d : Deck) (drawn : list (list Card)) (d' : Deck),
    draw_seq ns d = (Ok drawn, d') ->
    concat drawn ++ cards d' = cards d /\
    Forall2 (fun n cs => Z.of_nat (length cs) = n) ns drawn.
Proof.
  induction ns as [ | n ns IH]; intros d drawn d' H.
  - inversion H; subst. simpl. split; [reflexivity | constructor].
  - simpl in H. unfold bind in H.
    destruct (draw_card n d) as [[cs | e] d1] eqn:Hd; [ | discriminate].
    destruct (draw_seq ns d1) as [[rest | e] d2] eqn:Hs; [ | discriminate].
    inversion H; subst; clear H.
    apply draw_card_ok in Hd. destruct Hd as [Hd Hl].
    apply IH in Hs. destruct Hs as [Hs Hf].
    split.
    + simpl. rewrite <- app_assoc, Hs. exact Hd.
    + constructor; assumption.
Qed.

(** ** Player lemmas *)

Lemma bet_chips (amount : Z) (p : Player) :
  (0 <= chips p -> 0 <= chips (snd (bet amount p)))%Z.
Proof.
  unfold bet, raise. destruct (amount >? chips p)%Z eqn:E; simpl; lia.
Qed.

Lemma run_op_chips (o : PlayerOp) (p : Player) :
  (0 <= chips p -> 0 <= chips (snd (run_op o p)))%Z.
Proof.
  intros Hp. destruct o as [a | a | a | | ]; simpl.
  - now apply bet_chips.
  - unfold call, all_in. destruct (a >? chips p)%Z; now apply bet_chips.
  - unfold raise_bet, raise. destruct (a <=? current_bet p)%Z; [exact Hp | now apply bet_chips].
  - unfold all_in. now apply bet_chips.
  - exact Hp.
Qed.

Lemma run_ops_chips (ops : list PlayerOp) :
  forall p : Player, (0 <= chips p -> 0 <= chips (run_ops ops p))%Z.
Proof.
  induction ops as [ | o ops IH]; intros p Hp; simpl.
  - exact Hp.
  - apply IH. now apply run_op_chips.
Qed.

Lemma call_result (amount : Z) (p : Player) :
  call amount p =
  (Ok tt, if (amount >? chips p)%Z then set_bet (chips p) p else set_bet amount p).
Proof.
  unfold call, all_in, bet.
  destruct (amount >? chips p)%Z eqn:E.
  - rewrite Z.gtb_ltb, Z.ltb_irrefl. reflexivity.
  - reflexivity.
Qed.

(** ** The deck under draws *)

(** C9.  Start from any ordering of the 52-card deck and run any
    sequence of draws that all succeed.  The cards drawn so far followed
    by the cards left are the deck's cards in their original order: a
    permutation of the 52 distinct cards, nothing lost and nothing
    doubled.  Every draw returned exactly as many cards as were asked
    for.  And asking the deck for more cards than it has left raises
    ValueError and leaves the deck as it was. *)
Theorem draws_partition_the_deck :
  forall (d0 : Deck) (ns : list Z) (drawn : list (list Card)) (d' : Deck),
    Permutation (cards d0) (cards Deck_init) ->
    draw_seq ns d0 = (Ok drawn, d') ->
    concat drawn ++ cards d' = cards d0 /\
    Permutation (concat drawn ++ cards d') (cards Deck_init) /\
    NoDup (concat drawn ++ cards d') /\
    length (concat drawn ++ cards d') = 52%nat /\
    Forall2 (fun n cs => Z.of_nat (length cs) = n) ns drawn /\
    (forall n : Z,
        (Z.of_nat (length (cards d')) < n)%Z ->
        draw_card n d' = (Raise (ValueError "Not enough cards left in the deck."), d')).
Proof.
  intros d0 ns drawn d' Hperm Hrun.
  destruct (draw_seq_ok ns d0 drawn d' Hrun) as [Hcat Hlen].
  rewrite Hcat.
  repeat split.
  - exact Hperm.
  - apply (Permutation_NoDup (l := cards Deck_init)).
    + symmetry. exact Hperm.
    + apply Deck_init_NoDup.
  - rewrite (Permutation_length Hperm). apply Deck_init_length.
  - exact Hlen.
  - intros n Hn. unfold draw_card.
    destruct (n <=? 0)%Z eqn:E0; [apply Z.leb_le in E0; lia | ].
    destruct (n >? Z.of_nat (length (cards d')))%Z eqn:E1; [reflexivity | ].
    rewrite Z.gtb_ltb in E1. apply Z.ltb_ge in E1. lia.
Qed.

Lemma draws_partition_the_deck_witness :
  exists (drawn : list (list Card)) (d' : Deck),
    draw_seq [2; 1; 3; 1; 1]%Z Deck_init = (Ok drawn, d') /\
    concat drawn ++ cards d' = cards Deck_init /\
    NoDup (concat drawn ++ cards d') /\
    length (cards d') = 44%nat.
Proof.
  eexists. eexists.
  split; [reflexivity | ].
  destruct (draws_partition_the_deck Deck_init [2; 1; 3; 1; 1]%Z _ _
              (Permutation_refl _) eq_refl) as (Hcat & _ & Hnd & _).
  split; [exact Hcat | ].
  split; [exact Hnd | reflexivity].
Defined.

(** ** Chips *)

(** C10.  A player whose stack is not negative keeps a non-negative
    stack through every sequence of bet, call, raise_bet, all_in and
    fold, whatever the amounts and whichever of them raise.  A bet above
    the stack raises ValueError and changes neither chips nor
    current_bet (nor anything else); a call above the stack is an all-in:
    it raises nothing, the whole stack becomes the current bet and the
    chips drop to zero. *)
Theorem chips_never_negative :
  forall (p : Player) (ops : list PlayerOp),
    (0 <= chips p)%Z ->
    (0 <= chips (run_ops ops p))%Z /\
    (forall amount : Z,
        (chips p < amount)%Z -> bet amount p = (Raise not_enough_chips, p)) /\
    (forall amount : Z,
        (chips p < amount)%Z ->
        exists p' : Player,
          call amount p = (Ok tt, p') /\
          chips p' = 0%Z /\ current_bet p' = chips p /\
          is_active p' = is_active p /\ hand p' = hand p).
Proof.
  intros p ops Hp. split; [ | split].
  - now apply run_ops_chips.
  - intros amount Ha. unfold bet, raise.
    destruct (amount >? chips p)%Z eqn:E; [reflexivity | ].
    rewrite Z.gtb_ltb in E. apply Z.ltb_ge in E. lia.
  - intros amount Ha. exists (set_bet (chips p) p).
    rewrite call_result.
    destruct (amount >? chips p)%Z eqn:E.
    + simpl. repeat split. lia.
    + rewrite Z.gtb_ltb in E. apply Z.ltb_ge in E. lia.
Qed.

Lemma chips_never_negative_witness :
  (0 <= chips (run_ops [OpBet 30; OpRaise 20; OpCall 500; OpBet 1; OpFold; OpAllIn]
                       (Player_init 0 100)))%Z /\
  bet 101 (Player_init 0 100) = (Raise not_enough_chips, Player_init 0 100).
Proof.
  destruct (chips_never_negative (Player_init 0 100)
              [OpBet 30; OpRaise 20; OpCall 500; OpBet 1; OpFold; OpAllIn])
    as (H1 & H2 & _).
  - simpl. lia.
  - split; [exact H1 | ]. apply H2. simpl. lia.
Defined.

(** ** The evaluator on the spec's examples *)

Lemma evaluate_hand_unfold (hand board : list Card) :
  evaluate_hand hand board = evaluate_hand_body evaluate_hand hand board.
Proof.
  unfold evaluate_hand. destruct hand as [ | h0 hrest]; reflexivity.
Qed.

Lemma evaluate_hand_empty (board : list Card) :
  evaluate_hand [] board = (0%nat, []).
Proof. reflexivity. Qed.

(** C1.  On hole A-K of spades and board Q-J-10 of spades, 2 of hearts,
    3 of diamonds, [evaluate_hand] returns High Card (rank 2) with the
    ace as its only card: [is_flush] asks all seven cards to share one
    suit.  The same five spades alone, as hole and a three-card board,
    are a Royal Flush (rank 11).  At a showdown on that board a seat
    holding 2 of clubs and 7 of diamonds, a pair of twos, is the only
    winner. *)
Theorem royal_flush_example_evaluates_to_high_card :
  evaluate_hand royal_hole royal_board = (ranking_of "High Card", [RA of Spades]) /\
  ranking_of "High Card" = 2%nat /\
  is_flush (royal_hole ++ royal_board) = false /\
  evaluate_hand royal_hole (firstn 3 royal_board)
    = (ranking_of "Royal Flush", royal_hole ++ firstn 3 royal_board) /\
  ranking_of "Royal Flush" = 11%nat /\
  show_results [seat 0 royal_hole; seat 1 deuce_seven] royal_board
    = Ok (["High Card"; "Pair"], [1%nat]).
Proof. repeat split; vm_compute; reflexivity. Qed.

(** C2.  The wheel A-2-3-4-5 is not recognised as a straight: the
    sorted values [0;1;2;3;12] are compared with the literal
    [12;0;1;2;3], so the hand evaluates to High Card, while 2-3-4-5-6 is
    a Straight.  The showdown key of the wheel's five cards would start
    with the ace, above the six-high straight's key. *)
Theorem wheel_is_not_a_straight :
  is_straight (wheel_hole ++ low_board) = false /\
  evaluate_hand wheel_hole low_board = (ranking_of "High Card", [RA of Spades]) /\
  fst (evaluate_hand six_high_hole low_board) = ranking_of "Straight" /\
  best_five_cards (wheel_hole ++ low_board) = PyTuple [12; 3; 2; 1; 0]%nat /\
  best_five_cards (six_high_hole ++ low_board) = PyTuple [4; 3; 2; 1; 0]%nat /\
  key_gt (ranking_of "Straight", best_five_cards (wheel_hole ++ low_board))
         (ranking_of "Straight", best_five_cards (six_high_hole ++ low_board))
    = Ok true /\
  show_results [seat 0 wheel_hole; seat 1 six_high_hole] low_board
    = Ok (["High Card"; "Straight"], [1%nat]).
Proof. repeat split; vm_compute; reflexivity. Qed.

(** C4.  Two seats with ace-high hands on a board that helps neither
    have the same category, the same showdown key and the same rank
    values in their results, yet [show_results] names only the first:
    the winners are the seats whose result equals the maximum as a pair
    of category and card list, and the two aces are different cards. *)
Theorem equal_keys_single_winner :
  fst (evaluate_hand ace_four dry_board) = fst (evaluate_hand ace_five dry_board) /\
  showdown_key (evaluate_hand ace_four dry_board)
    = showdown_key (evaluate_hand ace_five dry_board) /\
  map card_value (snd (evaluate_hand ace_four dry_board))
    = map card_value (snd (evaluate_hand ace_five dry_board)) /\
  show_results [seat 0 ace_four; seat 1 ace_five] dry_board
    = Ok (["High Card"; "High Card"], [0%nat]) /\
  show_results [seat 0 ace_five; seat 1 ace_four] dry_board
    = Ok (["High Card"; "High Card"], [0%nat]).
Proof. repeat split; vm_compute; reflexivity. Qed.

(** C5.  With an empty hole [evaluate_hand] returns the fixed pair
    (0, []) for every board, so the board ranking it compares against
    is always 0.  On a board of five spades, a flush when two of its
    cards are the hole, the board alone scores 0 and an off-suit hole
    scores High Card, below the flush the board holds. *)
Theorem empty_hole_is_a_fixed_sentinel :
  (forall board : list Card, evaluate_hand [] board = (0%nat, [])) /\
  evaluate_hand (firstn 2 spade_board) (skipn 2 spade_board)
    = (ranking_of "Flush", spade_board) /\
  evaluate_hand [] spade_board = (0%nat, []) /\
  evaluate_hand three_four spade_board = (ranking_of "High Card", [R4 of Diamonds]) /\
  (ranking_of "High Card" < ranking_of "Flush")%nat.
Proof.
  split; [exact evaluate_hand_empty | ].
  repeat split; try (vm_compute; reflexivity).
  vm_compute. lia.
Qed.

(** C6.  The same seven cards with the board's kings and queens in
    either order are a Full House both times, but the pair in the
    result is the one met first: kings in one order, queens in the
    other, so the showdown keys differ and one ordering beats the
    other. *)
Theorem full_house_pair_depends_on_order :
  Permutation kings_then_queens queens_then_kings /\
  fst (evaluate_hand two_aces kings_then_queens)
    = fst (evaluate_hand two_aces queens_then_kings) /\
  showdown_key (evaluate_hand two_aces kings_then_queens)
    = (ranking_of "Full House", PyTuple [12; 12; 12; 11; 11]%nat) /\
  showdown_key (evaluate_hand two_aces queens_then_kings)
    = (ranking_of "Full House", PyTuple [12; 12; 12; 10; 10]%nat) /\
  key_gt (showdown_key (evaluate_hand two_aces kings_then_queens))
         (showdown_key (evaluate_hand two_aces queens_then_kings)) = Ok true.
Proof.
  split.
  - unfold kings_then_queens, queens_then_kings.
    apply perm_skip.
    apply (Permutation_app_comm [RK of Spades; RK of Hearts] [RQ of Spades; RQ of Hearts]).
  - repeat split; vm_compute; reflexivity.
Qed.

(** ** Seats in the list of players *)

Lemma list_set_nth_error {A : Type} (l : list A) :
  forall (i : nat) (x v : A),
    nth_error l i = Some x ->
    exists l' : list A,
      list_set l i v = Some l' /\ nth_error l' i = Some v /\ length l' = length l.
Proof.
  induction l as [ | y l IH]; intros [ | i] x v H; simpl in *; try discriminate.
  - exists (v :: l). repeat split.
  - destruct (IH i x v H) as (l' & Hs & Hn & Hl).
    exists (y :: l'). rewrite Hs. simpl. repeat split; [exact Hn | now rewrite Hl].
Qed.

Lemma accept_action_call {py : Str} (line : string) :
  lower_strip line = "call" -> accept_action line = Some "call".
Proof. intros H. unfold accept_action. rewrite H. reflexivity. Qed.

(** ** Calling *)

(** X28.  When an active seat that posts no blind answers call, the
    amount handed to [Player.call] is the max bet the game state holds,
    and the seat's current bet is not looked at.  The seat commits that
    amount, or its whole stack when the max bet is more than the stack
    (an exact all-in, chips to zero); what it commits becomes its
    current bet and is added to the pot.  No exception is raised, the
    seat counts as active for the round, and one line is read. *)
Theorem call_commits_the_max_bet {py : Str} :
  forall (w : World) (sb bb i idx a : nat) (p : Player)
         (line : string) (rest : list string),
    nth_error (players (game w)) idx = Some p ->
    is_active p = true ->
    i <> sb -> i <> bb ->
    stdin w = line :: rest ->
    lower_strip line = "call" ->
    let max_bet := current_max_bet (game_state (game w)) in
    let committed := if (max_bet >? chips p)%Z then chips p else max_bet in
    exists w' : World,
      seat_turn sb bb i idx a w = (Ok (S a), w') /\
      nth_error (players (game w')) idx = Some (set_bet committed p) /\
      (chips p - chips (set_bet committed p) = committed)%Z /\
      current_bet (set_bet committed p) = committed /\
      pot_size (game_state (game w')) = (pot_size (game_state (game w)) + committed)%Z /\
      stdin w' = rest.
Proof.
  intros w sb bb i idx a p line rest Hp Hact Hsb Hbb Hin Hline max_bet committed.
  destruct (list_set_nth_error (players (game w)) idx p (set_bet committed p) Hp)
    as (ps & Hset & Hnth & _).
  assert (Hcall : call max_bet p = (Ok tt, set_bet committed p)).
  { rewrite call_result. unfold committed. now destruct (max_bet >? chips p)%Z. }
  destruct w as [g ins out]. simpl in *. subst ins.
  unfold seat_turn, bind, get_player. simpl. rewrite Hp, Hact. simpl.
  apply Nat.eqb_neq in Hsb, Hbb. rewrite Hsb, Hbb.
  unfold input_until. simpl. rewrite (accept_action_call line Hline). simpl.
  unfold on_player. simpl. rewrite Hp. fold max_bet. rewrite Hcall, Hset. simpl.
  rewrite Hnth. simpl.
  eexists. split; [reflexivity | ]. simpl.
  repeat split.
  - exact Hnth.
  - lia.
  - unfold update_max_bet. simpl.
    destruct (committed >? current_max_bet (game_state g))%Z; reflexivity.
Qed.

Lemma call_commits_the_max_bet_witness :
  exists w' : World,
    seat_turn 0 1 2 2 0 table_on_the_turn = (Ok 1%nat, w') /\
    option_map chips (nth_error (players (game w')) 2) = Some 55%Z /\
    pot_size (game_state (game w')) = 100%Z.
Proof.
  destruct (call_commits_the_max_bet table_on_the_turn 0 1 2 2 0
              (mkPlayer 2 75 20 [R4 of Hearts; R8 of Hearts] None true)
              "call" ["call"])
    as (w' & Hrun & Hseat & _ & _ & Hpot & _);
    try reflexivity; try (intro H; discriminate H).
  exists w'. split; [exact Hrun | ]. split.
  - rewrite Hseat. reflexivity.
  - rewrite Hpot. reflexivity.
Defined.

(** C7.  A call pays a stale max bet.  In the hand [raise_then_calls]
    seat 0 raises to 20 before the flop and the others call.  When the
    turn card has been dealt, the game state still holds that max bet
    of 20 and its round counter is still 0, no street having been
    started in it, and the seat at index 2 still carries the bet of 20
    it made on the flop.  In the betting round of the turn the first
    two seats post the blinds, and the seat at index 2, which has
    committed nothing on this street, answers call and pays 20 of its
    75 chips: not the max bet of this street less what it has committed
    on this street, and not the difference of the two values the table
    holds, which is 0. *)
Theorem call_pays_a_stale_max_bet :
  exists (p p' : Player) (w' : World),
    fst (up_to_the_turn (four_seats raise_then_calls)) = Ok tt /\
    length (board (game table_on_the_turn)) = 6 /\
    stdin table_on_the_turn = ["call"; "call"] /\
    current_betting_round (game_state (game table_on_the_turn)) = 0%Z /\
    current_max_bet (game_state (game table_on_the_turn)) = 20%Z /\
    nth_error (players (game table_on_the_turn)) 2 = Some p /\
    chips p = 75%Z /\ current_bet p = 20%Z /\
    betting_round false table_on_the_turn = (Ok 2%nat, w') /\
    nth_error (players (game w')) 2 = Some p' /\
    (chips p - chips p' = 20)%Z /\
    (chips p - chips p'
     <> current_max_bet (game_state (game table_on_the_turn)) - current_bet p)%Z.
Proof.
  eexists. eexists. eexists.
  split; [vm_compute; reflexivity | ].
  split; [vm_compute; reflexivity | ].
  split; [vm_compute; reflexivity | ].
  split; [vm_compute; reflexivity | ].
  split; [vm_compute; reflexivity | ].
  split; [vm_compute; reflexivity | ].
  split; [vm_compute; reflexivity | ].
  split; [vm_compute; reflexivity | ].
  split; [vm_compute; reflexivity | ].
  split; [vm_compute; reflexivity | ].
  split; vm_compute; [reflexivity | intro H; discriminate H].
Qed.

(** ** The course of a hand *)

Lemma bind_ok {S A B : Type} (m : M S A) (k : A -> M S B) (s s' : S) (b : B) :
  bind m k s = (Ok b, s') ->
  exists (a : A) (s1 : S), m s = (Ok a, s1) /\ k a s1 = (Ok b, s').
Proof.
  unfold bind. destruct (m s) as [[a | e] s1]; [ | discriminate].
  intros H. exists a, s1. split; [reflexivity | exact H].
Qed.

Lemma map_res_length {A B : Type} (f : A -> Res B) (l : list A) :
  forall ys : list B, map_res f l = Ok ys -> length ys = length l.
Proof.
  induction l as [ | x l IH]; intros ys H; simpl in H.
  - inversion H. reflexivity.
  - destruct (f x) as [y | e]; [ | discriminate].
    destruct (map_res f l) as [ys' | e]; [ | discriminate].
    inversion H. simpl. f_equal. now apply IH.
Qed.

Lemma show_results_length (ps : list Player) (b : list Card)
      (categories : list string) (winners : list nat) :
  show_results ps b = Ok (categories, winners) -> length categories = length ps.
Proof.
  unfold show_results.
  destruct (map (fun p => evaluate_hand (hand p) b) ps) as [ | r0 rs] eqn:E; [discriminate | ].
  destruct (max_ranking_from r0 rs) as [m | e]; [ | discriminate].
  destruct (map_res hand_category (map fst (r0 :: rs))) as [cs | e] eqn:Ec; [ | discriminate].
  intros H. inversion H; subst.
  apply map_res_length in Ec. rewrite Ec, length_map, <- E, length_map. reflexivity.
Qed.

Lemma display_each_spec (ps : list Player) (b : list Card) :
  forall w : World,
    display_each ps b w
    = (Ok tt, mkWorld (game w) (stdin w) (stdout w ++ display_events ps b)).
Proof.
  induction ps as [ | p ps IH]; intros [g ins out]; simpl.
  - unfold ret. now rewrite app_nil_r.
  - unfold bind, display_poker_hand, bind, print, modify. simpl.
    destruct b as [ | c b']; simpl; rewrite IH; simpl;
      rewrite <- !app_assoc; reflexivity.
Qed.

Lemma showdown_ok (w w' : World) :
  showdown w = (Ok tt, w') ->
  exists (categories : list string) (winners : list nat),
    show_results (players (game w)) (board (game w)) = Ok (categories, winners) /\
    game w' = game w /\ stdin w' = stdin w /\
    stdout w' = stdout w ++ display_events (players (game w)) (board (game w))
                         ++ [EvResults categories winners].
Proof.
  unfold showdown, display_hands, bind, get. rewrite display_each_spec.
  unfold show_results_io, bind, get. simpl.
  destruct (show_results (players (game w)) (board (game w))) as [[cs ws] | e];
    [ | discriminate].
  unfold print, modify. intros H. inversion H; subst; clear H. simpl.
  exists cs, ws. repeat split. now rewrite <- app_assoc.
Qed.

Lemma play_reaches_showdown {py : Str} (w w' : World) :
  play w = (Ok tt, w') -> exists ws : World, showdown ws = (Ok tt, w').
Proof.
  unfold play. intros H.
  apply bind_ok in H. destruct H as (_ & s0 & _ & H).
  apply bind_ok in H. destruct H as (a1 & s1 & _ & H).
  apply bind_ok in H. destruct H as (_ & s2 & _ & H).
  exists s2. exact H.
Qed.

Lemma gt1_false (a : nat) : a <= 1 -> gt1 a = false.
Proof. intros H. unfold gt1. apply Nat.ltb_ge. exact H. Qed.

Lemma gt1_true (a : nat) : 1 < a -> gt1 a = true.
Proof. intros H. unfold gt1. apply Nat.ltb_lt. exact H. Qed.

Lemma play_stops_after_preflop {py : Str} (w w1 : World) (a1 : nat) :
  preflop w = (Ok a1, w1) -> a1 <= 1 -> play w = showdown w1.
Proof.
  unfold play, preflop, showdown, bind. intros H Ha.
  destruct (deal_hole_cards w) as [[u | e] s0]; [ | discriminate].
  destruct (betting_round true s0) as [[a | e] s1]; [ | discriminate].
  inversion H; subst. rewrite (gt1_false _ Ha). reflexivity.
Qed.

Lemma play_stops_after_flop {py : Str} (w w1 w2 : World) (a1 a2 : nat) :
  preflop w = (Ok a1, w1) -> 1 < a1 ->
  flop_street w1 = (Ok a2, w2) -> a2 <= 1 ->
  play w = showdown w2.
Proof.
  unfold play, preflop, flop_street, showdown, bind. intros H Ha H2 Ha2.
  destruct (deal_hole_cards w) as [[u | e] s0]; [ | discriminate].
  destruct (betting_round true s0) as [[a | e] s1]; [ | discriminate].
  inversion H; subst. rewrite (gt1_true _ Ha).
  destruct (deal_community_cards w1) as [[u' | e] s2]; [ | discriminate].
  destruct (betting_round false s2) as [[a | e] s3]; [ | discriminate].
  inversion H2; subst. rewrite (gt1_false _ Ha2). reflexivity.
Qed.

Lemma play_stops_after_turn {py : Str} (w w1 w2 w3 : World) (a1 a2 a3 : nat) :
  preflop w = (Ok a1, w1) -> 1 < a1 ->
  flop_street w1 = (Ok a2, w2) -> 1 < a2 ->
  turn_street w2 = (Ok a3, w3) -> a3 <= 1 ->
  play w = showdown w3.
Proof.
  unfold play, preflop, flop_street, turn_street, showdown, bind.
  intros H Ha H2 Ha2 H3 Ha3.
  destruct (deal_hole_cards w) as [[u | e] s0]; [ | discriminate].
  destruct (betting_round true s0) as [[a | e] s1]; [ | discriminate].
  inversion H; subst. rewrite (gt1_true _ Ha).
  destruct (deal_community_cards w1) as [[u' | e] s2]; [ | discriminate].
  destruct (betting_round false s2) as [[a | e] s3]; [ | discriminate].
  inversion H2; subst. rewrite (gt1_true _ Ha2).
  destruct (deal_turn w2) as [[u'' | e] s4]; [ | discriminate].
  destruct (betting_round false s4) as [[a | e] s5]; [ | discriminate].
  inversion H3; subst. rewrite (gt1_false _ Ha3). reflexivity.
Qed.

Lemma swap_ends_perm {A : Type} (a b : A) (m r : list A) :
  Permutation (a :: m ++ b :: r) (b :: m ++ a :: r).
Proof.
  apply perm_trans with (a :: b :: m ++ r).
  - apply perm_skip. symmetry. apply Permutation_middle.
  - apply perm_trans with (b :: a :: m ++ r).
    + apply perm_swap.
    + apply perm_skip. apply Permutation_middle.
Qed.

Lemma stacked_deck_perm : Permutation stacked_deck (cards Deck_init).
Proof.
  unfold stacked_deck.
  change (cards Deck_init)
    with (R2 of Hearts :: firstn 9 (skipn 1 (cards Deck_init))
            ++ RQ of Hearts :: skipn 11 (cards Deck_init)).
  apply swap_ends_perm.
Qed.

(** C8, as the code has it.  Whenever [play] runs to its end, it ends
    with the showdown: every seat's hand is displayed, folded or not,
    and the last thing printed is the result of [show_results] over all
    seats, one category per seat; the showdown changes nothing in the
    game, so no chips move to a winner.  When a street's betting round
    reports at most one seat that called or raised, no further card is
    dealt and no further betting round is run: the showdown starts from
    that very state and leaves the game (stacks, bets, pot, board,
    deck) as that street left it. *)
Theorem play_always_runs_the_showdown {py : Str} :
  forall w w' : World,
    play w = (Ok tt, w') ->
    (exists (ws : World) (out : list Event) (categories : list string) (winners : list nat),
        showdown ws = (Ok tt, w') /\
        game w' = game ws /\
        stdout w' = out ++ [EvResults categories winners] /\
        show_results (players (game w')) (board (game w')) = Ok (categories, winners) /\
        length categories = length (players (game w'))) /\
    (forall p : Player,
        In p (players (game w')) ->
        In (EvHand (player_id p + 1) (by_rank_asc (hand p))) (stdout w')) /\
    (forall (a1 : nat) (w1 : World),
        preflop w = (Ok a1, w1) -> a1 <= 1 ->
        showdown w1 = (Ok tt, w') /\ game w' = game w1) /\
    (forall (a1 a2 : nat) (w1 w2 : World),
        preflop w = (Ok a1, w1) -> 1 < a1 ->
        flop_street w1 = (Ok a2, w2) -> a2 <= 1 ->
        showdown w2 = (Ok tt, w') /\ game w' = game w2) /\
    (forall (a1 a2 a3 : nat) (w1 w2 w3 : World),
        preflop w = (Ok a1, w1) -> 1 < a1 ->
        flop_street w1 = (Ok a2, w2) -> 1 < a2 ->
        turn_street w2 = (Ok a3, w3) -> a3 <= 1 ->
        showdown w3 = (Ok tt, w') /\ game w' = game w3).
Proof.
  intros w w' Hplay.
  assert (Hgame : forall ws, showdown ws = (Ok tt, w') -> game w' = game ws).
  { intros ws Hs. apply showdown_ok in Hs. destruct Hs as (_ & _ & _ & Hg & _). exact Hg. }
  destruct (play_reaches_showdown w w' Hplay) as (ws & Hs).
  destruct (showdown_ok ws w' Hs) as (cs & wins & Hres & Hg & _ & Hout).
  split; [ | split; [ | split; [ | split]]].
  - exists ws, (stdout ws ++ display_events (players (game ws)) (board (game ws))), cs, wins.
    split; [exact Hs | ]. split; [exact Hg | ].
    rewrite Hg. split; [ | split].
    + rewrite Hout. now rewrite app_assoc.
    + exact Hres.
    + now apply show_results_length in Hres.
  - intros p Hp. rewrite Hout, Hg in *.
    apply in_or_app. right. apply in_or_app. left.
    unfold display_events. apply in_flat_map. exists p. split; [exact Hp | now left].
  - intros a1 w1 H1 Ha1.
    rewrite (play_stops_after_preflop w w1 a1 H1 Ha1) in Hplay. auto.
  - intros a1 a2 w1 w2 H1 Ha1 H2 Ha2.
    rewrite (play_stops_after_flop w w1 w2 a1 a2 H1 Ha1 H2 Ha2) in Hplay. auto.
  - intros a1 a2 a3 w1 w2 w3 H1 Ha1 H2 Ha2 H3 Ha3.
    rewrite (play_stops_after_turn w w1 w2 w3 a1 a2 a3 H1 Ha1 H2 Ha2 H3 Ha3) in Hplay. auto.
Qed.

Lemma play_always_runs_the_showdown_witness :
  exists (out : list Event) (categories : list string) (winners : list nat),
    stdout (snd (play (five_seats calls_then_folds)))
      = out ++ [EvResults categories winners] /\
    length categories = 5%nat.
Proof.
  assert (Hplay : play (five_seats calls_then_folds)
                  = (Ok tt, snd (play (five_seats calls_then_folds))))
    by (vm_compute; reflexivity).
  destruct (play_always_runs_the_showdown _ _ Hplay)
    as ((ws & out & cs & wins & _ & _ & Hout & _ & Hlen) & _).
  exists out, cs, wins. split; [exact Hout | ].
  rewrite Hlen. vm_compute. reflexivity.
Defined.

(** C8, as the claim states it, fails.  Five seats on a deck order
    that is a permutation of the 52 cards: two seats call before the
    flop, one folds, and on the flop the three seats that are asked all
    fold, which leaves the seat at index 0 as the only active one.  The
    hand still goes to the showdown: all five hands are displayed and
    evaluated, the winner named is the folded seat at index 2 with a
    pair, and the pot of 15 is paid to nobody. *)
Lemma folded_seats_still_reach_the_showdown :
  Permutation stacked_deck (cards Deck_init) /\
  start 5 stacked_deck calls_then_folds = Ok (five_seats calls_then_folds) /\
  exists w' : World,
    play (five_seats calls_then_folds) = (Ok tt, w') /\
    map is_active (players (game w')) = [true; false; false; false; false] /\
    (exists out : list Event,
        stdout w' = out ++ [EvResults ["High Card"; "High Card"; "Pair"; "High Card"; "Pair"]
                                      [2%nat]]) /\
    (forall p : Player,
        In p (players (game w')) ->
        In (EvHand (player_id p + 1) (by_rank_asc (hand p))) (stdout w')) /\
    map chips (players (game w')) = [95; 100; 95; 90; 100]%Z /\
    pot_size (game_state (game w')) = 15%Z.
Proof.
  split; [exact stacked_deck_perm | ].
  split; [reflexivity | ].
  exists (snd (play (five_seats calls_then_folds))).
  split; [vm_compute; reflexivity | ].
  split; [vm_compute; reflexivity | ].
  split.
  { exists (removelast (stdout (snd (play (five_seats calls_then_folds))))).
    vm_compute. reflexivity. }
  split.
  - intros p Hp. vm_compute in Hp.
    repeat (destruct Hp as [<- | Hp]; [vm_compute; tauto | ]). destruct Hp.
  - split; vm_compute; reflexivity.
Qed.

(** ** Sorting *)

Section SortingFacts.
Context {A : Type} (ltb : A -> A -> bool).

Lemma insert_desc_perm (x : A) (l : list A) :
  Permutation (insert_desc ltb x l) (x :: l).
Proof.
  induction l as [ | h t IH]; simpl.
  - reflexivity.
  - destruct (ltb x h).
    + rewrite IH. apply perm_swap.
    + reflexivity.
Qed.

Lemma sorted_rev_perm (l : list A) : Permutation (sorted_rev ltb l) l.
Proof.
  induction l as [ | x l IH]; simpl.
  - reflexivity.
  - rewrite insert_desc_perm. now apply perm_skip.
Qed.

Lemma insert_asc_perm (x : A) (l : list A) :
  Permutation (insert_asc ltb x l) (x :: l).
Proof.
  induction l as [ | h t IH]; simpl.
  - reflexivity.
  - destruct (ltb h x).
    + rewrite IH. apply perm_swap.
    + reflexivity.
Qed.

Lemma sorted_perm (l : list A) : Permutation (sorted ltb l) l.
Proof.
  induction l as [ | x l IH]; simpl.
  - reflexivity.
  - rewrite insert_asc_perm. now apply perm_skip.
Qed.
End SortingFacts.

Lemma insert_asc_sorted (x : nat) (l : list nat) :
  StronglySorted le l -> StronglySorted le (insert_asc Nat.ltb x l).
Proof.
  induction l as [ | h t IH]; intros Hs; simpl.
  - repeat constructor.
  - inversion Hs as [ | ? ? Ht Hall]; subst.
    destruct (h <? x)%nat eqn:E.
    + apply Nat.ltb_lt in E. constructor.
      * now apply IH.
      * eapply Permutation_Forall.
        -- symmetry. apply insert_asc_perm.
        -- constructor; [lia | exact Hall].
    + apply Nat.ltb_ge in E. constructor; [exact Hs | ].
      constructor; [exact E | ].
      eapply Forall_impl; [ | exact Hall]. simpl. intros; lia.
Qed.

Lemma sorted_is_sorted (l : list nat) : StronglySorted le (sorted Nat.ltb l).
Proof.
  induction l as [ | x l IH]; simpl.
  - constructor.
  - now apply insert_asc_sorted.
Qed.

Lemma repeated_value_breaks_the_run (l : list nat) (v : nat) :
  StronglySorted le l ->
  2 <= count_occ Nat.eq_dec l v ->
  forallb gap_is_one (combine l (tl l)) = false.
Proof.
  induction l as [ | a t IH]; intros Hs Hc; simpl in Hc; [lia | ].
  inversion Hs as [ | ? ? Ht Hall]; subst.
  destruct t as [ | b t']; [simpl in Hc; destruct (Nat.eq_dec a v); lia | ].
  change (forallb gap_is_one (combine (a :: b :: t') (tl (a :: b :: t'))))
    with (gap_is_one (a, b) && forallb gap_is_one (combine (b :: t') (tl (b :: t')))).
  destruct (Nat.eq_dec a v) as [-> | Hne].
  - assert (Hin : In v (b :: t')) by (apply (count_occ_In Nat.eq_dec); lia).
    assert (Hb : b = v).
    { inversion Hall as [ | ? ? Hvb Hrest]; subst.
      inversion Ht as [ | ? ? _ Hall']; subst.
      destruct Hin as [Hin | Hin]; [exact Hin | ].
      rewrite Forall_forall in Hall'. specialize (Hall' v Hin). lia. }
    subst b. apply andb_false_iff. left.
    unfold gap_is_one. simpl. apply Z.eqb_neq. lia.
  - rewrite (IH Ht Hc). apply andb_false_r.
Qed.

Lemma sorted_is_never_the_wheel (l : list nat) :
  list_nat_eqb (sorted Nat.ltb l) wheel = false.
Proof.
  unfold list_nat_eqb.
  destruct (list_eq_dec Nat.eq_dec (sorted Nat.ltb l) wheel) as [E | ]; [ | reflexivity].
  pose proof (sorted_is_sorted l) as Hs. rewrite E in Hs. unfold wheel in Hs.
  inversion Hs as [ | ? ? _ Hall]; subst.
  inversion Hall as [ | ? ? H120 _]; subst. lia.
Qed.

(** The second disjunct of [is_straight] is dead: the test is the run
    test alone. *)
Lemma is_straight_run_only (cs : list Card) :
  is_straight cs
  = let values := sorted Nat.ltb (map card_value cs) in
    forallb gap_is_one (combine values (tl values)).
Proof.
  unfold is_straight.
  rewrite sorted_is_never_the_wheel. apply orb_false_r.
Qed.

(** ** Counting ranks *)

Lemma rank_eqb_eq (a b : Rank) : rank_eqb a b = true <-> a = b.
Proof.
  unfold rank_eqb. destruct (rank_eq_dec a b); split; intros; congruence.
Qed.

Lemma rank_eqb_refl (a : Rank) : rank_eqb a a = true.
Proof. now apply rank_eqb_eq. Qed.

Lemma rank_eqb_neq (a b : Rank) : rank_eqb a b = false <-> a <> b.
Proof.
  unfold rank_eqb. destruct (rank_eq_dec a b); split; intros; congruence.
Qed.

Lemma count_in_add (r x : Rank) (c : list (Rank * nat)) :
  count_in (counter_add r c) x
  = (count_in c x + if rank_eqb x r then 1 else 0)%nat.
Proof.
  induction c as [ | [r' n] t IH]; simpl.
  - destruct (rank_eqb x r); reflexivity.
  - destruct (rank_eqb r r') eqn:Err'; simpl.
    + apply rank_eqb_eq in Err'. subst r'.
      destruct (rank_eqb x r); lia.
    + destruct (rank_eqb x r') eqn:Exr'; [ | exact IH].
      apply rank_eqb_eq in Exr'. subst r'.
      replace (rank_eqb x r) with false; [lia | ].
      symmetry. apply rank_eqb_neq. apply rank_eqb_neq in Err'. congruence.
Qed.

Lemma count_in_fold (rs : list Rank) :
  forall (c : list (Rank * nat)) (x : Rank),
    count_in (fold_left (fun c r => counter_add r c) rs c) x
    = (count_in c x + count_occ rank_eq_dec rs x)%nat.
Proof.
  induction rs as [ | r rs IH]; intros c x; simpl.
  - lia.
  - rewrite IH, count_in_add.
    destruct (rank_eq_dec r x) as [-> | Hne].
    + rewrite rank_eqb_refl. lia.
    + replace (rank_eqb x r) with false; [lia | ].
      symmetry. apply rank_eqb_neq. congruence.
Qed.

Lemma counter_add_keys (r k : Rank) (c : list (Rank * nat)) :
  In k (map fst (counter_add r c)) <-> k = r \/ In k (map fst c).
Proof.
  induction c as [ | [r' n] t IH]; simpl.
  - intuition.
  - destruct (rank_eqb r r') eqn:E; simpl.
    + apply rank_eqb_eq in E. subst r'. intuition.
    + rewrite IH. intuition.
Qed.

Lemma counter_add_wf (r : Rank) (c : list (Rank * nat)) :
  counter_wf c -> counter_wf (counter_add r c).
Proof.
  unfold counter_wf.
  induction c as [ | [r' n] t IH]; intros [Hnd Hpos]; simpl.
  - split; repeat constructor. intros [].
  - simpl in Hnd. inversion Hnd as [ | ? ? Hnotin Hnd']; subst.
    inversion Hpos as [ | ? ? Hn Hpos']; subst. simpl in Hn.
    destruct (rank_eqb r r') eqn:E; simpl.
    + split; constructor; simpl; auto with arith.
    + destruct (IH (conj Hnd' Hpos')) as [IH1 IH2].
      split; constructor; simpl; auto.
      rewrite counter_add_keys. intros [-> | Hin]; [ | contradiction].
      rewrite rank_eqb_refl in E. discriminate.
Qed.

Lemma Counter_wf (rs : list Rank) : counter_wf (Counter rs).
Proof.
  unfold Counter.
  assert (H : forall c, counter_wf c ->
                        counter_wf (fold_left (fun c r => counter_add r c) rs c)).
  { induction rs as [ | r rs IH]; intros c Hc; simpl; [exact Hc | ].
    apply IH. now apply counter_add_wf. }
  apply H. split; constructor.
Qed.

Lemma counter_wf_In (c : list (Rank * nat)) (x : Rank) (n : nat) :
  counter_wf c -> (In (x, n) c <-> count_in c x = n /\ 0 < n).
Proof.
  unfold counter_wf.
  induction c as [ | [r' n'] t IH]; intros [Hnd Hpos]; simpl.
  - split; [intros [] | lia].
  - simpl in Hnd. inversion Hnd as [ | ? ? Hnotin Hnd']; subst.
    inversion Hpos as [ | ? ? Hn Hpos']; subst. simpl in Hn.
    specialize (IH (conj Hnd' Hpos')).
    destruct (rank_eqb x r') eqn:E.
    + apply rank_eqb_eq in E. subst r'. split.
      * intros [Heq | Hin]; [inversion Heq; subst; auto | ].
        exfalso. apply Hnotin. apply in_map_iff. exists (x, n). auto.
      * intros [-> _]. now left.
    + apply rank_eqb_neq in E. rewrite <- IH. split.
      * intros [Heq | Hin]; [inversion Heq; subst; congruence | exact Hin].
      * intros Hin. now right.
Qed.

(** The entries of [get_counts] are exactly the ranks that occur, each
    with the number of its occurrences. *)
Lemma get_counts_In (cs : list Card) (r : Rank) (n : nat) :
  In (r, n) (get_counts cs) <-> n = rank_count r cs /\ 0 < n.
Proof.
  unfold get_counts, most_common, rank_count.
  assert (Hp : Permutation (sorted_rev (key_ltb snd) (Counter (map rank cs)))
                           (Counter (map rank cs))) by apply sorted_rev_perm.
  assert (Hc : count_in (Counter (map rank cs)) r = count_occ rank_eq_dec (map rank cs) r).
  { unfold Counter. rewrite count_in_fold. reflexivity. }
  pose proof (counter_wf_In _ r n (Counter_wf (map rank cs))) as Hin.
  rewrite Hc in Hin.
  split.
  - intros H. apply (Permutation_in _ Hp) in H. apply Hin in H.
    destruct H as [H1 H2]. split; [now symmetry | exact H2].
  - intros [H1 H2]. apply (Permutation_in _ (Permutation_sym Hp)).
    apply Hin. split; [now symmetry | exact H2].
Qed.

Lemma find_count_none (cs : list Card) (k : nat) :
  (forall r : Rank, rank_count r cs <> k) ->
  find (fun rc => (snd rc =? k)%nat) (get_counts cs) = None.
Proof.
  intros Hno.
  destruct (find (fun rc => (snd rc =? k)%nat) (get_counts cs)) as [[r n] | ] eqn:E;
    [ | reflexivity].
  apply find_some in E. destruct E as [Hin Hk]. simpl in Hk.
  apply Nat.eqb_eq in Hk. subst n.
  apply get_counts_In in Hin. destruct Hin as [Hin _].
  exfalso. apply (Hno r). now symmetry.
Qed.

Lemma find_count_some (cs : list Card) (k : nat) (r : Rank) :
  0 < k -> rank_count r cs = k ->
  exists r' : Rank,
    find (fun rc => (snd rc =? k)%nat) (get_counts cs) = Some (r', k) /\
    rank_count r' cs = k.
Proof.
  intros Hk Hr.
  assert (Hin : In (r, k) (get_counts cs)) by (apply get_counts_In; split; [now symmetry | exact Hk]).
  destruct (find (fun rc => (snd rc =? k)%nat) (get_counts cs)) as [[r' n] | ] eqn:E.
  - apply find_some in E. destruct E as [Hin' Hn]. simpl in Hn.
    apply Nat.eqb_eq in Hn. subst n.
    exists r'. split; [reflexivity | ].
    apply get_counts_In in Hin'. destruct Hin' as [Hin' _]. now symmetry.
  - apply (find_none _ _ E) in Hin. simpl in Hin.
    rewrite Nat.eqb_refl in Hin. discriminate.
Qed.

Lemma count_occ_map_ge {A B : Type} (da : forall x y : A, {x = y} + {x <> y})
      (db : forall x y : B, {x = y} + {x <> y}) (f : A -> B) (l : list A) (x : A) :
  count_occ da l x <= count_occ db (map f l) (f x).
Proof.
  induction l as [ | a l IH]; simpl; [lia | ].
  destruct (da a x) as [-> | Hne].
  - destruct (db (f x) (f x)); [lia | congruence].
  - destruct (db (f a) (f x)); lia.
Qed.

(** A rank held twice rules a straight out: [is_straight] wants every
    card of the set in one run. *)
Lemma is_straight_repeated_rank (cs : list Card) (r : Rank) :
  2 <= rank_count r cs -> is_straight cs = false.
Proof.
  intros Hr. rewrite is_straight_run_only. cbv zeta.
  apply (repeated_value_breaks_the_run _ (rank_index r)).
  - apply sorted_is_sorted.
  - rewrite (proj1 (Permutation_count_occ Nat.eq_dec _ _)
                     (sorted_perm Nat.ltb (map card_value cs))).
    unfold rank_count in Hr.
    assert (Hm : map card_value cs = map rank_index (map rank cs))
      by (rewrite map_map; reflexivity).
    rewrite Hm.
    pose proof (count_occ_map_ge rank_eq_dec Nat.eq_dec rank_index (map rank cs) r).
    lia.
Qed.

(** ** Full house *)

(** C3, as the code has it.  For a non-empty hole, when some rank
    occurs exactly three times among hole and board, another exactly
    twice, and no rank exactly four times, [evaluate_hand] reports Full
    House (rank 8), so neither Three of a Kind nor any other category. *)
Theorem full_house_is_reported :
  forall (hand board : list Card) (r3 r2 : Rank),
    hand <> [] ->
    rank_count r3 (hand ++ board) = 3 ->
    rank_count r2 (hand ++ board) = 2 ->
    (forall r : Rank, rank_count r (hand ++ board) <> 4) ->
    fst (evaluate_hand hand board) = ranking_of "Full House" /\
    ranking_of "Full House" = 8%nat /\
    fst (evaluate_hand hand board) <> ranking_of "Three of a Kind".
Proof.
  intros hand board r3 r2 Hne H3 H2 H4.
  assert (Hfh : fst (evaluate_hand hand board) = ranking_of "Full House").
  { destruct hand as [ | h0 hrest]; [congruence | ].
    unfold evaluate_hand, evaluate_hand_body.
    set (all_cards := (h0 :: hrest) ++ board) in *.
    rewrite (is_straight_repeated_rank all_cards r2) by lia.
    rewrite andb_false_r.
    unfold has_four_of_a_kind, get_four_of_a_kind.
    rewrite (find_count_none all_cards 4 H4). simpl option_map. cbv iota.
    unfold has_full_house, get_three_of_a_kind, get_pairs.
    destruct (find_count_some all_cards 3 r3) as (t & Ht & _); [lia | exact H3 | ].
    rewrite Ht. simpl option_map.
    assert (Hin : In (r2, 2) (filter (fun rc => (snd rc =? 2)%nat) (get_counts all_cards))).
    { apply filter_In. split; [ | reflexivity].
      apply get_counts_In. split; [now symmetry | lia]. }
    destruct (filter (fun rc => (snd rc =? 2)%nat) (get_counts all_cards)) as [ | y ys];
      [destruct Hin | ].
    reflexivity. }
  split; [exact Hfh | ]. split; [reflexivity | ].
  rewrite Hfh. vm_compute. discriminate.
Qed.

Lemma full_house_is_reported_witness :
  fst (evaluate_hand two_aces kings_then_queens) = ranking_of "Full House".
Proof.
  apply (full_house_is_reported two_aces kings_then_queens RA RQ).
  - discriminate.
  - reflexivity.
  - reflexivity.
  - intros r. destruct r; vm_compute; discriminate.
Defined.

(** C3, as the claim states it, fails.  Hole 2-2 and board 2-2-9-9-5
    hold the rank 2 at least three times and the rank 9 at least twice,
    and [evaluate_hand] reports Four of a Kind (rank 9), the category
    checked before Full House. *)
Lemma quads_and_a_pair_are_four_of_a_kind :
  (exists ra rb : Rank,
      ra <> rb /\
      3 <= rank_count ra (two_deuces ++ quads_board) /\
      2 <= rank_count rb (two_deuces ++ quads_board)) /\
  fst (evaluate_hand two_deuces quads_board) = ranking_of "Four of a Kind" /\
  fst (evaluate_hand two_deuces quads_board) <> ranking_of "Full House".
Proof.
  split.
  - exists R2, R9. split; [discriminate | ]. split; vm_compute; lia.
  - split; vm_compute; [reflexivity | discriminate].
Qed.

(** Two ranks held three times each, with no rank held exactly twice,
    are reported as Three of a Kind: [get_pairs] looks for a count of
    exactly 2. *)
Lemma two_trips_are_three_of_a_kind :
  rank_count RA (two_aces ++ two_trips_board) = 3 /\
  rank_count RK (two_aces ++ two_trips_board) = 3 /\
  fst (evaluate_hand two_aces two_trips_board) = ranking_of "Three of a Kind".
Proof. repeat split. Qed.

(** ** The category does not depend on the order of the cards *)

Lemma evaluate_hand_category (hand board : list Card) :
  hand <> [] -> fst (evaluate_hand hand board) = category_of (hand ++ board).
Proof.
  intros Hne. destruct hand as [ | h0 hrest]; [congruence | ].
  unfold evaluate_hand, evaluate_hand_body, category_of.
  set (all_cards := (h0 :: hrest) ++ board).
  destruct (is_flush all_cards && is_straight all_cards).
  - destruct (rank_set_eqb (map rank all_cards) royal_ranks); reflexivity.
  - destruct (has_four_of_a_kind all_cards); [reflexivity | ].
    destruct (has_full_house all_cards); [reflexivity | ].
    destruct (is_flush all_cards); [reflexivity | ].
    destruct (is_straight all_cards); [reflexivity | ].
    destruct (has_three_of_a_kind all_cards); [reflexivity | ].
    destruct (has_two_pairs all_cards); [reflexivity | ].
    destruct (has_pair all_cards); reflexivity.
Qed.

Lemma bool_eq_iff (a b : bool) : (a = true <-> b = true) -> a = b.
Proof. destruct a, b; intuition congruence. Qed.

Lemma insert_asc_comm (x y : nat) (l : list nat) :
  insert_asc Nat.ltb x (insert_asc Nat.ltb y l)
  = insert_asc Nat.ltb y (insert_asc Nat.ltb x l).
Proof.
  induction l as [ | h t IH]; simpl.
  - destruct (Nat.ltb_spec y x), (Nat.ltb_spec x y); try reflexivity; try lia.
    assert (x = y) by lia. subst. reflexivity.
  - destruct (Nat.ltb_spec h y), (Nat.ltb_spec h x); simpl.
    + destruct (Nat.ltb_spec h x), (Nat.ltb_spec h y); try lia. now rewrite IH.
    + destruct (Nat.ltb_spec h x), (Nat.ltb_spec x y); try lia. simpl.
      destruct (Nat.ltb_spec h y); try lia. reflexivity.
    + destruct (Nat.ltb_spec y x), (Nat.ltb_spec h y); try lia. simpl.
      destruct (Nat.ltb_spec h x); try lia. reflexivity.
    + destruct (Nat.ltb_spec y x), (Nat.ltb_spec x y); try lia; simpl.
      * destruct (Nat.ltb_spec h x); try lia. reflexivity.
      * destruct (Nat.ltb_spec h y); try lia. reflexivity.
      * assert (x = y) by lia. subst. reflexivity.
Qed.

Lemma sorted_perm_eq (a b : list nat) :
  Permutation a b -> sorted Nat.ltb a = sorted Nat.ltb b.
Proof.
  induction 1 as [ | x a b _ IH | x y a | a b c _ IH1 _ IH2]; simpl.
  - reflexivity.
  - now rewrite IH.
  - apply insert_asc_comm.
  - now rewrite IH1.
Qed.

Lemma is_straight_perm (a b : list Card) :
  Permutation a b -> is_straight a = is_straight b.
Proof.
  intros H. unfold is_straight.
  now rewrite (sorted_perm_eq _ _ (Permutation_map card_value H)).
Qed.

Lemma is_flush_perm (a b : list Card) :
  Permutation a b -> is_flush a = is_flush b.
Proof.
  intros H. unfold is_flush. f_equal.
  apply Permutation_length. apply NoDup_Permutation.
  - apply NoDup_nodup.
  - apply NoDup_nodup.
  - intros s. rewrite !nodup_In.
    split; apply Permutation_in; [ | symmetry]; now apply Permutation_map.
Qed.

Lemma existsb_perm {A : Type} (f : A -> bool) (a b : list A) :
  Permutation a b -> existsb f a = existsb f b.
Proof.
  intros H. apply bool_eq_iff. rewrite !existsb_exists.
  split; intros (x & Hin & Hx); exists x; split; auto;
    [apply (Permutation_in _ H) | apply (Permutation_in _ (Permutation_sym H))]; exact Hin.
Qed.

Lemma forallb_perm {A : Type} (f : A -> bool) (a b : list A) :
  Permutation a b -> forallb f a = forallb f b.
Proof.
  intros H. apply bool_eq_iff. rewrite !forallb_forall.
  split; intros Hall x Hin; apply Hall;
    [apply (Permutation_in _ (Permutation_sym H)) | apply (Permutation_in _ H)]; exact Hin.
Qed.

Lemma rank_set_eqb_perm (a b c : list Rank) :
  Permutation a b -> rank_set_eqb a c = rank_set_eqb b c.
Proof.
  intros H. unfold rank_set_eqb. f_equal.
  - now apply forallb_perm.
  - induction c as [ | r c IH]; simpl; [reflexivity | ].
    rewrite IH. f_equal. now apply existsb_perm.
Qed.

Lemma rank_count_perm (a b : list Card) (r : Rank) :
  Permutation a b -> rank_count r a = rank_count r b.
Proof.
  intros H. unfold rank_count.
  apply (proj1 (Permutation_count_occ rank_eq_dec _ _)).
  now apply Permutation_map.
Qed.

Lemma get_counts_NoDup (cs : list Card) : NoDup (get_counts cs).
Proof.
  unfold get_counts, most_common.
  eapply Permutation_NoDup; [symmetry; apply sorted_rev_perm | ].
  apply (NoDup_map_inv fst). apply Counter_wf.
Qed.

Lemma get_counts_perm (a b : list Card) :
  Permutation a b -> Permutation (get_counts a) (get_counts b).
Proof.
  intros H. apply NoDup_Permutation; try apply get_counts_NoDup.
  intros [r n]. rewrite !get_counts_In. now rewrite (rank_count_perm a b r H).
Qed.

Lemma is_some_find {A : Type} (f : A -> bool) (l : list A) :
  is_some (find f l) = existsb f l.
Proof.
  induction l as [ | x l IH]; simpl; [reflexivity | ].
  destruct (f x); [reflexivity | exact IH].
Qed.

Lemma filter_length_existsb {A : Type} (f : A -> bool) (l : list A) :
  existsb f l = negb (length (filter f l) =? 0)%nat.
Proof.
  induction l as [ | x l IH]; simpl; [reflexivity | ].
  destruct (f x); [reflexivity | exact IH].
Qed.

Lemma has_four_of_a_kind_some (cs : list Card) :
  is_some (has_four_of_a_kind cs) = existsb (count_is 4) (get_counts cs).
Proof.
  unfold has_four_of_a_kind, get_four_of_a_kind.
  rewrite <- is_some_find. unfold count_is.
  now destruct (find (fun rc => (snd rc =? 4)%nat) (get_counts cs)).
Qed.

Lemma has_three_of_a_kind_some (cs : list Card) :
  is_some (has_three_of_a_kind cs) = existsb (count_is 3) (get_counts cs).
Proof.
  unfold has_three_of_a_kind, get_three_of_a_kind.
  rewrite <- is_some_find. unfold count_is.
  now destruct (find (fun rc => (snd rc =? 3)%nat) (get_counts cs)).
Qed.

Lemma has_full_house_some (cs : list Card) :
  is_some (has_full_house cs)
  = existsb (count_is 3) (get_counts cs) && existsb (count_is 2) (get_counts cs).
Proof.
  unfold has_full_house, get_three_of_a_kind, get_pairs.
  rewrite <- is_some_find, filter_length_existsb. unfold count_is.
  destruct (find (fun rc => (snd rc =? 3)%nat) (get_counts cs)); simpl; [ | reflexivity].
  now destruct (filter (fun rc => (snd rc =? 2)%nat) (get_counts cs)).
Qed.

Lemma has_two_pairs_some (cs : list Card) :
  is_some (has_two_pairs cs)
  = (2 <=? length (filter (count_is 2) (get_counts cs)))%nat.
Proof.
  unfold has_two_pairs, get_pairs, count_is.
  rewrite length_firstn, length_map.
  set (n := length (filter (fun rc => (snd rc =? 2)%nat) (get_counts cs))).
  destruct (Nat.leb_spec 2 n).
  - rewrite Nat.min_l by lia. reflexivity.
  - rewrite Nat.min_r by lia.
    destruct (Nat.eqb_spec n 2); [lia | reflexivity].
Qed.

Lemma has_pair_some (cs : list Card) :
  is_some (has_pair cs) = existsb (count_is 2) (get_counts cs).
Proof.
  unfold has_pair, get_pairs. rewrite filter_length_existsb. unfold count_is.
  now destruct (filter (fun rc => (snd rc =? 2)%nat) (get_counts cs)).
Qed.

Lemma filter_length_perm {A : Type} (f : A -> bool) (a b : list A) :
  Permutation a b -> length (filter f a) = length (filter f b).
Proof.
  induction 1 as [ | x a b _ IH | x y a | a b c _ IH1 _ IH2]; simpl.
  - reflexivity.
  - destruct (f x); simpl; now rewrite IH.
  - destruct (f x), (f y); reflexivity.
  - now rewrite IH1.
Qed.

Lemma category_of_perm (a b : list Card) :
  Permutation a b -> category_of a = category_of b.
Proof.
  intros H. unfold category_of.
  rewrite has_four_of_a_kind_some, has_full_house_some, has_three_of_a_kind_some,
    has_two_pairs_some, has_pair_some.
  rewrite (has_four_of_a_kind_some b), (has_full_house_some b),
    (has_three_of_a_kind_some b), (has_two_pairs_some b), (has_pair_some b).
  pose proof (get_counts_perm a b H) as Hc.
  rewrite (is_flush_perm a b H), (is_straight_perm a b H).
  rewrite (rank_set_eqb_perm _ _ royal_ranks (Permutation_map rank H)).
  rewrite (existsb_perm (count_is 4) _ _ Hc), (existsb_perm (count_is 3) _ _ Hc),
    (existsb_perm (count_is 2) _ _ Hc), (filter_length_perm (count_is 2) _ _ Hc).
  reflexivity.
Qed.

(** The category rank is the same for every ordering of the hole and
    every ordering of the board. *)
Lemma evaluate_hand_category_perm (hand hand' board board' : list Card) :
  Permutation hand hand' -> Permutation board board' ->
  fst (evaluate_hand hand board) = fst (evaluate_hand hand' board').
Proof.
  intros Hh Hb.
  destruct hand as [ | h0 hrest].
  - apply Permutation_nil in Hh. subst hand'. reflexivity.
  - assert (Hne : hand' <> []).
    { intros ->. symmetry in Hh. apply Permutation_nil in Hh. discriminate. }
    rewrite !evaluate_hand_category by (assumption || discriminate).
    apply category_of_perm. now apply Permutation_app.
Qed.

(** * Further properties of the code *)

(** ** Flushes and straights *)

Lemma one_value_short {A : Type} (l : list A) (s : A) :
  NoDup l -> (forall x, In x l -> x = s) -> length l <= 1.
Proof.
  intros Hnd Hall. destruct l as [ | a [ | b t]]; simpl; try lia.
  exfalso. inversion Hnd as [ | ? ? Hnotin _]; subst. apply Hnotin.
  rewrite (Hall a), (Hall b); simpl; auto.
Qed.

Lemma is_flush_one_suit (cs : list Card) :
  is_flush cs = true ->
  cs <> [] /\ (forall c c' : Card, In c cs -> In c' cs -> suit c = suit c').
Proof.
  unfold is_flush. rewrite Nat.eqb_eq. intros Hlen. split.
  - intros ->. simpl in Hlen. discriminate.
  - destruct (nodup suit_eq_dec (map suit cs)) as [ | s [ | s' t]] eqn:E;
      simpl in Hlen; try discriminate.
    assert (Hs : forall c, In c cs -> suit c = s).
    { intros c Hc.
      assert (Hin : In (suit c) (nodup suit_eq_dec (map suit cs)))
        by (apply nodup_In; now apply in_map).
      rewrite E in Hin. destruct Hin as [Hin | []]. now symmetry. }
    intros c c' Hc Hc'. now rewrite (Hs c Hc), (Hs c' Hc').
Qed.

Lemma one_suit_is_flush (cs : list Card) :
  cs <> [] -> (forall c c' : Card, In c cs -> In c' cs -> suit c = suit c') ->
  is_flush cs = true.
Proof.
  unfold is_flush. rewrite Nat.eqb_eq.
  intros Hne Hall. destruct cs as [ | c0 cs']; [congruence | ].
  assert (Hin0 : In (suit c0) (nodup suit_eq_dec (map suit (c0 :: cs'))))
    by (apply nodup_In; simpl; auto).
  assert (Hle : length (nodup suit_eq_dec (map suit (c0 :: cs'))) <= 1).
  { apply (one_value_short _ (suit c0)); [apply NoDup_nodup | ].
    intros s Hs. apply nodup_In in Hs. apply in_map_iff in Hs.
    destruct Hs as (c & <- & Hc). apply Hall; simpl; auto. }
  destruct (nodup suit_eq_dec (map suit (c0 :: cs'))); [destruct Hin0 | simpl in *; lia].
Qed.

(** X1.  [is_flush] holds exactly for a non-empty set of cards that all
    have one suit: every card handed in counts, not the best five. *)
Theorem is_flush_all_one_suit (cs : list Card) :
  is_flush cs = true <->
  cs <> [] /\ (forall c c' : Card, In c cs -> In c' cs -> suit c = suit c').
Proof.
  split.
  - apply is_flush_one_suit.
  - intros [Hne Hall]. now apply one_suit_is_flush.
Qed.

Lemma run_is_seq (l : list nat) :
  forallb gap_is_one (combine l (tl l)) = true -> l = seq (hd 0 l) (length l).
Proof.
  induction l as [ | a t IH]; intros H; [reflexivity | ].
  destruct t as [ | b t']; [reflexivity | ].
  change (combine (a :: b :: t') (tl (a :: b :: t')))
    with ((a, b) :: combine (b :: t') (tl (b :: t'))) in H.
  simpl forallb in H. apply andb_true_iff in H. destruct H as [Hab Hrest].
  unfold gap_is_one in Hab. simpl in Hab. apply Z.eqb_eq in Hab.
  assert (b = S a) by lia. subst b.
  specialize (IH Hrest). simpl hd in IH.
  change (length (a :: S a :: t')) with (S (length (S a :: t'))).
  simpl seq. simpl hd. f_equal. exact IH.
Qed.

Lemma seq_is_run (lo n : nat) :
  forallb gap_is_one (combine (seq lo n) (tl (seq lo n))) = true.
Proof.
  revert lo. induction n as [ | n IH]; intros lo; [reflexivity | ].
  destruct n as [ | n']; [reflexivity | ].
  change (forallb gap_is_one (combine (seq lo (S (S n'))) (tl (seq lo (S (S n'))))))
    with (gap_is_one (lo, S lo)
          && forallb gap_is_one (combine (seq (S lo) (S n')) (tl (seq (S lo) (S n'))))).
  rewrite IH, andb_true_r.
  unfold gap_is_one. simpl fst. simpl snd. apply Z.eqb_eq. lia.
Qed.

Lemma sorted_seq (lo n : nat) : sorted Nat.ltb (seq lo n) = seq lo n.
Proof.
  revert lo. induction n as [ | n IH]; intros lo; [reflexivity | ].
  simpl. rewrite IH. destruct n as [ | n']; [reflexivity | ].
  simpl. destruct (Nat.ltb_spec (S lo) lo); [lia | reflexivity].
Qed.

Lemma is_straight_run (cs : list Card) :
  is_straight cs = true ->
  Permutation (map card_value cs)
              (seq (hd 0 (sorted Nat.ltb (map card_value cs))) (length cs)).
Proof.
  rewrite is_straight_run_only. cbv zeta. intros H. apply run_is_seq in H.
  pose proof (sorted_perm Nat.ltb (map card_value cs)) as Hp.
  rewrite (Permutation_length Hp), length_map in H.
  rewrite <- H. now symmetry.
Qed.

Lemma run_is_straight (cs : list Card) (lo : nat) :
  Permutation (map card_value cs) (seq lo (length cs)) -> is_straight cs = true.
Proof.
  intros Hp. rewrite is_straight_run_only. cbv zeta.
  rewrite (sorted_perm_eq _ _ Hp), sorted_seq. apply seq_is_run.
Qed.

(** X2.  [is_straight] holds exactly when the rank values of all the
    cards handed in are consecutive and distinct: they are, in some
    order, [lo], [lo + 1], ... with one value per card.  The ace is only
    ever the highest value (the wheel does not pass), and seven cards
    pass only as a run of seven. *)
Theorem is_straight_all_in_one_run (cs : list Card) :
  is_straight cs = true <->
  exists lo : nat, Permutation (map card_value cs) (seq lo (length cs)).
Proof.
  split.
  - intros H. eexists. now apply is_straight_run.
  - intros [lo Hp]. now apply (run_is_straight cs lo).
Qed.

(** ** Royal flush *)

Lemma existsb_rank_In (r : Rank) (l : list Rank) :
  existsb (rank_eqb r) l = true <-> In r l.
Proof.
  rewrite existsb_exists. split.
  - intros (x & Hin & Hx). apply rank_eqb_eq in Hx. now subst.
  - intros Hin. exists r. split; [exact Hin | apply rank_eqb_refl].
Qed.

Lemma rank_set_eqb_iff (a b : list Rank) :
  rank_set_eqb a b = true <-> (forall r : Rank, In r a <-> In r b).
Proof.
  unfold rank_set_eqb. rewrite andb_true_iff, !forallb_forall. split.
  - intros [Hab Hba] r. split; intros Hin.
    + apply existsb_rank_In. now apply Hab.
    + apply existsb_rank_In. now apply Hba.
  - intros H. split; intros r Hin; apply existsb_rank_In; now apply H.
Qed.

Lemma category_of_royal (all_cards : list Card) :
  category_of all_cards = ranking_of "Royal Flush" ->
  is_flush all_cards = true /\ is_straight all_cards = true /\
  rank_set_eqb (map rank all_cards) royal_ranks = true.
Proof.
  unfold category_of.
  destruct (is_flush all_cards), (is_straight all_cards),
    (rank_set_eqb (map rank all_cards) royal_ranks),
    (is_some (has_four_of_a_kind all_cards)), (is_some (has_full_house all_cards)),
    (is_some (has_three_of_a_kind all_cards)), (is_some (has_two_pairs all_cards)),
    (is_some (has_pair all_cards));
    simpl; intros H; try (vm_compute in H; discriminate H); auto.
Qed.

Lemma rank_index_inj (a b : Rank) : rank_index a = rank_index b -> a = b.
Proof. destruct a, b; simpl; intros H; try reflexivity; discriminate H. Qed.

Lemma card_value_ranks (cs : list Card) :
  map card_value cs = map rank_index (map rank cs).
Proof. rewrite map_map. reflexivity. Qed.

(** X3.  [evaluate_hand] reports Royal Flush exactly when the hole is
    not empty and hole and board together are five cards, all of one
    suit, of the ranks 10, J, Q, K and A.  With more than five cards in
    hole and board, as at a showdown after the flop, turn and river, it
    never does. *)
Theorem royal_flush_needs_exactly_five_cards (hand board : list Card) :
  fst (evaluate_hand hand board) = ranking_of "Royal Flush" <->
  hand <> [] /\
  (forall c c' : Card, In c (hand ++ board) -> In c' (hand ++ board) -> suit c = suit c') /\
  Permutation (map rank (hand ++ board)) royal_ranks.
Proof.
  split.
  - intros H.
    assert (Hne : hand <> []) by (intros ->; vm_compute in H; discriminate H).
    rewrite (evaluate_hand_category _ _ Hne) in H.
    apply category_of_royal in H. destruct H as (Hf & Hs & Hr).
    split; [exact Hne | ]. split; [now apply is_flush_one_suit | ].
    apply NoDup_Permutation.
    + apply (NoDup_map_inv rank_index). rewrite <- card_value_ranks.
      apply is_straight_run in Hs.
      apply (Permutation_NoDup (Permutation_sym Hs)). apply seq_NoDup.
    + repeat constructor; simpl; intuition discriminate.
    + now apply rank_set_eqb_iff.
  - intros (Hne & Hsuit & Hp).
    rewrite (evaluate_hand_category _ _ Hne). unfold category_of.
    assert (Hall : hand ++ board <> []) by (destruct hand; [congruence | discriminate]).
    rewrite (one_suit_is_flush _ Hall Hsuit).
    assert (Hlen : length (hand ++ board) = 5).
    { rewrite <- (length_map rank), (Permutation_length Hp). reflexivity. }
    rewrite (run_is_straight (hand ++ board) 8).
    + simpl. replace (rank_set_eqb (map rank (hand ++ board)) royal_ranks) with true;
        [reflexivity | ].
      symmetry. apply rank_set_eqb_iff. intros r.
      split; apply Permutation_in; [exact Hp | now symmetry].
    + rewrite Hlen, card_value_ranks.
      apply (Permutation_map rank_index) in Hp. exact Hp.
Qed.

(** ** What evaluate_hand returns *)

(** X4.  For an empty hole [evaluate_hand] returns (0, []), a category
    that [HAND_RANKINGS] has no name for, so the name lookup of
    [show_results] raises IndexError.  For a non-empty hole the category
    is one of the ranks 2 to 11, and the lookup finds the name whose
    rank it is. *)
Theorem category_is_named_unless_hole_is_empty (hand board : list Card) :
  (hand = [] /\ evaluate_hand hand board = (0%nat, []) /\
   hand_category (fst (evaluate_hand hand board)) = Raise IndexError) \/
  (hand <> [] /\
   2 <= fst (evaluate_hand hand board) <= 11 /\
   exists name : string,
     hand_category (fst (evaluate_hand hand board)) = Ok name /\
     ranking_of name = fst (evaluate_hand hand board)).
Proof.
  destruct hand as [ | h0 hrest]; [left; repeat split | right].
  split; [discriminate | ].
  rewrite evaluate_hand_category by discriminate.
  unfold category_of.
  destruct (is_flush ((h0 :: hrest) ++ board)), (is_straight ((h0 :: hrest) ++ board)),
    (rank_set_eqb (map rank ((h0 :: hrest) ++ board)) royal_ranks),
    (is_some (has_four_of_a_kind ((h0 :: hrest) ++ board))),
    (is_some (has_full_house ((h0 :: hrest) ++ board))),
    (is_some (has_three_of_a_kind ((h0 :: hrest) ++ board))),
    (is_some (has_two_pairs ((h0 :: hrest) ++ board))),
    (is_some (has_pair ((h0 :: hrest) ++ board)));
    cbv [andb]; (split; [vm_compute; lia | eexists; split; vm_compute; reflexivity]).
Qed.

Lemma in_by_rank_desc (c : Card) (l : list Card) : In c (by_rank_desc l) -> In c l.
Proof. apply Permutation_in. apply sorted_rev_perm. Qed.

Lemma in_with_rank (c : Card) (r : Rank) (l : list Card) : In c (with_rank r l) -> In c l.
Proof. unfold with_rank. intros H. apply filter_In in H. tauto. Qed.

Lemma in_without_rank (c : Card) (r : Rank) (l : list Card) :
  In c (without_rank r l) -> In c l.
Proof. unfold without_rank. intros H. apply filter_In in H. tauto. Qed.

Lemma in_firstn {A : Type} (x : A) (n : nat) (l : list A) : In x (firstn n l) -> In x l.
Proof.
  intros H. rewrite <- (firstn_skipn n l). apply in_or_app. now left.
Qed.

Lemma max_from_In {A : Type} (ltb : A -> A -> bool) (l : list A) :
  forall best : A, In (max_from ltb best l) (best :: l).
Proof.
  induction l as [ | x t IH]; intros best; simpl.
  - now left.
  - destruct (ltb best x).
    + right. apply IH.
    + destruct (IH best) as [H | H]; [now left | right; now right].
Qed.

(** X5.  Every card in the result of [evaluate_hand] is one of the
    cards of the hole and the board it was given. *)
Theorem result_cards_come_from_hole_and_board (hand board : list Card) :
  incl (snd (evaluate_hand hand board)) (hand ++ board).
Proof.
  intros c. destruct hand as [ | h0 hrest]; [intros [] | ].
  unfold evaluate_hand, evaluate_hand_body. cbv zeta.
  set (all_cards := (h0 :: hrest) ++ board).
  assert (Hhand : forall x, In x (h0 :: hrest) -> In x all_cards)
    by (intros x Hx; apply in_or_app; now left).
  destruct (is_flush all_cards && is_straight all_cards).
  { destruct (rank_set_eqb (map rank all_cards) royal_ranks); cbn [snd]; auto. }
  destruct (has_four_of_a_kind all_cards).
  { cbn [snd]. intros H. apply in_app_or in H. destruct H as [H | H].
    - now apply in_by_rank_desc, in_with_rank in H.
    - now apply in_firstn, in_by_rank_desc, in_without_rank in H. }
  destruct (has_full_house all_cards).
  { cbn [snd]. intros H. apply in_app_or in H.
    destruct H as [H | H]; now apply in_by_rank_desc, in_with_rank in H. }
  destruct (is_flush all_cards); [cbn [snd]; auto | ].
  destruct (is_straight all_cards); [cbn [snd]; auto | ].
  destruct (has_three_of_a_kind all_cards); [cbn [snd]; apply in_with_rank | ].
  destruct (has_two_pairs all_cards).
  { cbn [snd]. intros H. apply in_app_or in H. destruct H as [H | H]; now apply in_with_rank in H. }
  destruct (has_pair all_cards); [cbn [snd]; apply in_with_rank | ].
  cbn [snd fst]. replace (0 <=? ranking_of "High Card")%nat with true by reflexivity.
  cbn [snd]. intros [<- | []]. apply Hhand. apply max_from_In.
Qed.

(** ** Descending sorts *)

Section DescendingFacts.
Context {A : Type} (ltb : A -> A -> bool).
Hypothesis ltb_asym : forall a b : A, ltb a b = true -> ltb b a = false.
Hypothesis geb_trans :
  forall a b c : A, ltb a b = false -> ltb b c = false -> ltb a c = false.

Lemma insert_desc_sorted (x : A) (l : list A) :
  StronglySorted (fun a b => ltb a b = false) l ->
  StronglySorted (fun a b => ltb a b = false) (insert_desc ltb x l).
Proof.
  induction l as [ | h t IH]; intros Hs; simpl.
  - repeat constructor.
  - inversion Hs as [ | ? ? Ht Hall]; subst.
    destruct (ltb x h) eqn:E.
    + constructor; [now apply IH | ].
      eapply Permutation_Forall; [symmetry; apply insert_desc_perm | ].
      constructor; [now apply ltb_asym | exact Hall].
    + constructor; [exact Hs | ].
      constructor; [exact E | ].
      eapply Forall_impl; [ | exact Hall]. simpl. intros y Hy.
      now apply (geb_trans x h y).
Qed.

Lemma sorted_rev_sorted (l : list A) :
  StronglySorted (fun a b => ltb a b = false) (sorted_rev ltb l).
Proof.
  induction l as [ | x l IH]; simpl; [constructor | now apply insert_desc_sorted].
Qed.
End DescendingFacts.

(** Stability: the elements of one key keep their order. *)
Lemma insert_desc_stable {A : Type} (key : A -> nat) (k : nat) (x : A) (l : list A) :
  filter (fun y => (key y =? k)%nat) (insert_desc (key_ltb key) x l)
  = filter (fun y => (key y =? k)%nat) (x :: l).
Proof.
  induction l as [ | h t IH]; [reflexivity | ].
  simpl insert_desc. unfold key_ltb at 1.
  destruct (Nat.ltb_spec (key x) (key h)) as [Hlt | Hge]; [ | reflexivity].
  simpl filter at 1. rewrite IH. simpl.
  destruct (Nat.eqb_spec (key x) k), (Nat.eqb_spec (key h) k); try reflexivity. lia.
Qed.

Lemma sorted_rev_stable {A : Type} (key : A -> nat) (k : nat) (l : list A) :
  filter (fun y => (key y =? k)%nat) (sorted_rev (key_ltb key) l)
  = filter (fun y => (key y =? k)%nat) l.
Proof.
  induction l as [ | x l IH]; [reflexivity | ].
  simpl sorted_rev. rewrite insert_desc_stable. simpl. now rewrite IH.
Qed.

(** ** The order of the counts *)

Lemma counter_add_keys_eq (r : Rank) (c : list (Rank * nat)) :
  map fst (counter_add r c)
  = if existsb (rank_eqb r) (map fst c) then map fst c else map fst c ++ [r].
Proof.
  induction c as [ | [r' n] t IH]; simpl; [reflexivity | ].
  destruct (rank_eqb r r') eqn:E; simpl; [reflexivity | ].
  rewrite IH. now destruct (existsb (rank_eqb r) (map fst t)).
Qed.

Lemma filter_not_among_drop (ks : list Rank) (r : Rank) (l : list Rank) :
  existsb (rank_eqb r) ks = true ->
  filter (not_among ks) (filter (fun x => negb (rank_eqb x r)) l)
  = filter (not_among ks) l.
Proof.
  intros Hr. induction l as [ | x l IH]; [reflexivity | ]. simpl.
  destruct (rank_eqb x r) eqn:E; simpl.
  - apply rank_eqb_eq in E. subst x.
    unfold not_among at 2. rewrite Hr. simpl. exact IH.
  - now rewrite IH.
Qed.

Lemma filter_not_among_snoc (ks : list Rank) (r : Rank) (l : list Rank) :
  filter (not_among (ks ++ [r])) l
  = filter (not_among ks) (filter (fun x => negb (rank_eqb x r)) l).
Proof.
  induction l as [ | x l IH]; [reflexivity | ]. simpl.
  unfold not_among at 1. rewrite existsb_app. simpl. rewrite orb_false_r.
  destruct (rank_eqb x r) eqn:E; simpl.
  - rewrite orb_true_r. simpl. exact IH.
  - rewrite orb_false_r. fold (not_among ks x).
    destruct (not_among ks x); [now rewrite IH | exact IH].
Qed.

Lemma Counter_keys_from (rs : list Rank) :
  forall c : list (Rank * nat),
    map fst (fold_left (fun c r => counter_add r c) rs c)
    = map fst c ++ filter (not_among (map fst c)) (first_seen rs).
Proof.
  induction rs as [ | r rs IH]; intros c; simpl.
  - now rewrite app_nil_r.
  - rewrite IH, counter_add_keys_eq.
    unfold not_among at 2.
    destruct (existsb (rank_eqb r) (map fst c)) eqn:E; simpl.
    + now rewrite filter_not_among_drop.
    + rewrite <- app_assoc. simpl. now rewrite filter_not_among_snoc.
Qed.

Lemma filter_all {A : Type} (f : A -> bool) (l : list A) :
  (forall x, In x l -> f x = true) -> filter f l = l.
Proof.
  induction l as [ | x l IH]; intros H; [reflexivity | ]. simpl.
  rewrite (H x) by now left. f_equal. apply IH. intros y Hy. apply H. now right.
Qed.

Lemma Counter_keys (rs : list Rank) : map fst (Counter rs) = first_seen rs.
Proof.
  unfold Counter. rewrite Counter_keys_from. simpl.
  apply filter_all. reflexivity.
Qed.

Lemma counter_wf_entries (c : list (Rank * nat)) :
  counter_wf c -> c = map (fun r => (r, count_in c r)) (map fst c).
Proof.
  unfold counter_wf. induction c as [ | [r n] t IH]; intros [Hnd Hpos]; [reflexivity | ].
  simpl in Hnd. inversion Hnd as [ | ? ? Hnotin Hnd']; subst.
  inversion Hpos as [ | ? ? _ Hpos']; subst.
  simpl. rewrite rank_eqb_refl. f_equal.
  rewrite (IH (conj Hnd' Hpos')) at 1.
  apply map_ext_in. intros x Hx.
  replace (rank_eqb x r) with false; [reflexivity | ].
  symmetry. apply rank_eqb_neq. intros ->. contradiction.
Qed.

(** [Counter] lists each rank once, in order of first occurrence, with
    the number of its occurrences. *)
Lemma Counter_entries (rs : list Rank) :
  Counter rs = map (fun r => (r, count_occ rank_eq_dec rs r)) (first_seen rs).
Proof.
  rewrite (counter_wf_entries _ (Counter_wf rs)) at 1.
  rewrite Counter_keys. apply map_ext. intros r.
  unfold Counter. now rewrite count_in_fold.
Qed.

Lemma filter_map_swap {A B : Type} (f : A -> B) (p : B -> bool) (l : list A) :
  filter p (map f l) = map f (filter (fun x => p (f x)) l).
Proof.
  induction l as [ | x l IH]; [reflexivity | ]. simpl.
  destruct (p (f x)); simpl; now rewrite IH.
Qed.

Lemma ranks_of_count (cs : list Card) (k : nat) :
  map fst (filter (count_is k) (get_counts cs))
  = filter (fun r => (rank_count r cs =? k)%nat) (first_seen (map rank cs)).
Proof.
  unfold get_counts, most_common, count_is.
  rewrite (sorted_rev_stable snd k), Counter_entries, filter_map_swap, map_map.
  simpl. apply map_id.
Qed.

Lemma StronglySorted_weaken {A : Type} (R R' : A -> A -> Prop) (l : list A) :
  (forall a b, R a b -> R' a b) -> StronglySorted R l -> StronglySorted R' l.
Proof.
  intros Himp. induction 1 as [ | a l _ IH Hall]; constructor.
  - exact IH.
  - eapply Forall_impl; [ | exact Hall]. apply Himp.
Qed.

Lemma key_ltb_asym {A : Type} (key : A -> nat) (a b : A) :
  key_ltb key a b = true -> key_ltb key b a = false.
Proof.
  unfold key_ltb. intros H. apply Nat.ltb_lt in H. apply Nat.ltb_ge. lia.
Qed.

Lemma key_geb_trans {A : Type} (key : A -> nat) (a b c : A) :
  key_ltb key a b = false -> key_ltb key b c = false -> key_ltb key a c = false.
Proof.
  unfold key_ltb. intros H1 H2. apply Nat.ltb_ge in H1, H2. apply Nat.ltb_ge. lia.
Qed.

(** X6.  [get_counts] lists every rank that occurs among the cards
    exactly once, with the number of its occurrences; the counts never
    increase along the list; and ranks with the same count stand in the
    order in which they first occur among the cards. *)
Theorem get_counts_by_count_then_first_seen (cs : list Card) :
  (forall (r : Rank) (n : nat),
      In (r, n) (get_counts cs) <-> n = rank_count r cs /\ 0 < n) /\
  NoDup (map fst (get_counts cs)) /\
  StronglySorted (fun a b => snd b <= snd a) (get_counts cs) /\
  (forall k : nat,
      map fst (filter (count_is k) (get_counts cs))
      = filter (fun r => (rank_count r cs =? k)%nat) (first_seen (map rank cs))).
Proof.
  split; [intros r n; apply get_counts_In | ].
  split.
  { unfold get_counts, most_common.
    eapply Permutation_NoDup;
      [apply Permutation_map; symmetry; apply sorted_rev_perm | apply Counter_wf]. }
  split; [ | apply ranks_of_count].
  unfold get_counts, most_common.
  apply (StronglySorted_weaken (fun a b => key_ltb snd a b = false)).
  - unfold key_ltb. intros a b H. now apply Nat.ltb_ge in H.
  - apply sorted_rev_sorted; [apply key_ltb_asym | apply key_geb_trans].
Qed.

Lemma find_hd_filter {A : Type} (f : A -> bool) (l : list A) :
  find f l = hd_error (filter f l).
Proof.
  induction l as [ | x l IH]; [reflexivity | ]. simpl.
  destruct (f x); [reflexivity | exact IH].
Qed.

Lemma hd_error_map {A B : Type} (f : A -> B) (l : list A) :
  hd_error (map f l) = option_map f (hd_error l).
Proof. destruct l; reflexivity. Qed.

(** X7.  On the counts of a set of cards, [get_pairs] returns the
    first [n] ranks that occur exactly twice, [get_three_of_a_kind] the
    first rank that occurs exactly three times and [get_four_of_a_kind]
    the first that occurs exactly four times, first meaning first to
    occur among the cards: the order of the input decides, not the
    height of the rank, and a rank held three or four times is no pair. *)
Theorem pairs_and_trips_in_input_order (cs : list Card) (n : nat) :
  let ranks_held k := filter (fun r => (rank_count r cs =? k)%nat) (first_seen (map rank cs)) in
  get_pairs (get_counts cs) n = firstn n (ranks_held 2) /\
  get_three_of_a_kind (get_counts cs) = hd_error (ranks_held 3) /\
  get_four_of_a_kind (get_counts cs) = hd_error (ranks_held 4).
Proof.
  cbv zeta. unfold get_pairs, get_three_of_a_kind, get_four_of_a_kind.
  rewrite <- !ranks_of_count, !hd_error_map, !find_hd_filter.
  repeat split.
Qed.

(** ** The best five values *)

Lemma combinations_length {A : Type} (l : list A) :
  forall (k : nat) (c : list A), In c (combinations l k) -> length c = k.
Proof.
  induction l as [ | x t IH]; intros [ | k'] c H; simpl in H.
  - destruct H as [<- | []]. reflexivity.
  - destruct H.
  - destruct H as [<- | []]. reflexivity.
  - apply in_app_or in H. destruct H as [H | H].
    + apply in_map_iff in H. destruct H as (c' & <- & Hc'). simpl. f_equal. now apply IH.
    + now apply IH.
Qed.

Lemma combinations_short {A : Type} (l : list A) :
  forall k : nat, length l < k -> combinations l k = [].
Proof.
  induction l as [ | x t IH]; intros [ | k'] H; simpl in *; try lia; [reflexivity | ].
  rewrite (IH k'), (IH (S k')) by lia. reflexivity.
Qed.

Lemma combinations_first {A : Type} (l : list A) :
  forall k : nat, k <= length l ->
    exists rest : list (list A), combinations l k = firstn k l :: rest.
Proof.
  induction l as [ | x t IH]; intros [ | k'] H; simpl in *; try lia.
  - now exists [].
  - now exists [].
  - destruct (IH k') as (rest & Hrest); [lia | ].
    rewrite Hrest. simpl. eexists. reflexivity.
Qed.

Lemma shift_below (c : list nat) :
  forall (k y : nat) (t : list nat),
    StronglySorted (fun a b => b <= a) (y :: t) ->
    length c = k ->
    Forall2 le c (firstn k t) -> Forall2 le c (firstn k (y :: t)).
Proof.
  induction c as [ | a c IH]; intros k y t Hs Hlen H; simpl in Hlen; subst k.
  - constructor.
  - destruct t as [ | b t']; simpl in H; inversion H as [ | ? ? ? ? Hab Hrest]; subst.
    inversion Hs as [ | ? ? Ht Hall]; subst.
    inversion Hall as [ | ? ? Hby _]; subst.
    simpl. constructor; [lia | ].
    apply IH; auto.
Qed.

Lemma combinations_below_first (l : list nat) :
  StronglySorted (fun a b => b <= a) l ->
  forall (k : nat) (c : list nat), In c (combinations l k) -> Forall2 le c (firstn k l).
Proof.
  induction l as [ | x t IH]; intros Hs [ | k'] c H; simpl in H.
  - destruct H as [<- | []]. constructor.
  - destruct H.
  - destruct H as [<- | []]. constructor.
  - inversion Hs as [ | ? ? Ht Hall]; subst.
    apply in_app_or in H. destruct H as [H | H].
    + apply in_map_iff in H. destruct H as (c' & <- & Hc'). simpl.
      constructor; [lia | now apply IH].
    + apply (shift_below c (S k') x t Hs).
      * now apply (combinations_length t).
      * now apply IH.
Qed.

Lemma below_is_not_above (c top : list nat) :
  Forall2 le c top -> lex_ltb top c = false.
Proof.
  induction 1 as [ | x y c top Hxy _ IH]; [reflexivity | ]. simpl.
  destruct (Nat.eqb_spec y x); [exact IH | ]. apply Nat.ltb_ge. lia.
Qed.

Lemma sorted_rev_keeps_top {A : Type} (ltb : A -> A -> bool) (top d : A) (rest : list A) :
  (forall c, In c rest -> ltb top c = false) ->
  hd d (sorted_rev ltb (top :: rest)) = top.
Proof.
  intros H. simpl.
  destruct (sorted_rev ltb rest) as [ | h t] eqn:E; [reflexivity | ]. simpl.
  rewrite (H h); [reflexivity | ].
  apply (Permutation_in _ (sorted_rev_perm ltb rest)). rewrite E. now left.
Qed.

Lemma values_descend (l : list nat) :
  StronglySorted (fun a b => b <= a) (sorted_rev Nat.ltb l).
Proof.
  apply (StronglySorted_weaken (fun a b => (a <? b)%nat = false)).
  - intros a b H. now apply Nat.ltb_ge in H.
  - apply sorted_rev_sorted.
    + intros a b H. apply Nat.ltb_lt in H. apply Nat.ltb_ge. lia.
    + intros a b c H1 H2. apply Nat.ltb_ge in H1, H2. apply Nat.ltb_ge. lia.
Qed.

(** X8.  [best_five_cards] returns the empty list for fewer than five
    cards, and otherwise the five highest rank values among all the
    cards, highest first: suits play no part, and neither does the
    category the cards were ranked in. *)
Theorem best_five_cards_are_the_top_five_values (cs : list Card) :
  best_five_cards cs
  = if (length cs <? 5)%nat then PyList []
    else PyTuple (firstn 5 (sorted_rev Nat.ltb (map card_value cs))).
Proof.
  unfold best_five_cards. cbv zeta.
  set (vals := sorted_rev Nat.ltb (map card_value cs)).
  assert (Hlen : length vals = length cs).
  { unfold vals. rewrite (Permutation_length (sorted_rev_perm _ _)). apply length_map. }
  destruct (Nat.ltb_spec (length cs) 5) as [Hlt | Hge].
  - rewrite combinations_short by lia. reflexivity.
  - destruct (combinations_first vals 5) as (rest & Hc); [lia | ].
    assert (Hbelow : forall c, In c rest -> lex_ltb (firstn 5 vals) c = false).
    { intros c Hin. apply below_is_not_above.
      apply combinations_below_first; [apply values_descend | ].
      rewrite Hc. now right. }
    rewrite Hc. f_equal. now apply sorted_rev_keeps_top.
Qed.

(** ** The showdown *)

Lemma key_gt_true (a b : nat * PySeq) : key_gt a b = Ok true -> fst b <= fst a.
Proof.
  unfold key_gt. destruct (Nat.eqb_spec (fst a) (fst b)) as [E | E]; [lia | ].
  intros H. inversion H as [H1]. apply Nat.ltb_lt in H1. lia.
Qed.

Lemma key_gt_false (a b : nat * PySeq) : key_gt a b = Ok false -> fst a <= fst b.
Proof.
  unfold key_gt. destruct (Nat.eqb_spec (fst a) (fst b)) as [E | E]; [lia | ].
  intros H. inversion H as [H1]. apply Nat.ltb_ge in H1. lia.
Qed.

Lemma max_ranking_from_spec (l : list (nat * list Card)) :
  forall best m : nat * list Card,
    max_ranking_from best l = Ok m ->
    In m (best :: l) /\ fst best <= fst m /\ (forall x, In x l -> fst x <= fst m).
Proof.
  induction l as [ | x t IH]; intros best m H; simpl in H.
  - inversion H; subst. split; [now left | ]. split; [lia | intros x []].
  - destruct (key_gt (showdown_key x) (showdown_key best)) as [[ | ] | e] eqn:E;
      [ | | discriminate].
    + apply key_gt_true in E. simpl in E.
      destruct (IH x m H) as (Hin & Hle & Hall).
      split; [now right | ]. split; [lia | ].
      intros y [<- | Hy]; [exact Hle | now apply Hall].
    + apply key_gt_false in E. simpl in E.
      destruct (IH best m H) as (Hin & Hle & Hall).
      split; [destruct Hin as [Hin | Hin]; [now left | right; now right] | ].
      split; [exact Hle | ].
      intros y [<- | Hy]; [lia | now apply Hall].
Qed.

Lemma max_ranking_from_error (l : list (nat * list Card)) :
  forall (best : nat * list Card) (e : Exn),
    max_ranking_from best l = Raise e -> e = TypeError.
Proof.
  induction l as [ | x t IH]; intros best e H; simpl in H; [discriminate | ].
  destruct (key_gt (showdown_key x) (showdown_key best)) as [[ | ] | e'] eqn:E;
    try (now apply IH in H).
  inversion H; subst. unfold key_gt in E.
  destruct (fst (showdown_key x) =? fst (showdown_key best))%nat; [ | discriminate].
  destruct (pyseq_eqb (snd (showdown_key x)) (snd (showdown_key best))); [discriminate | ].
  unfold pyseq_gt in E.
  destruct (snd (showdown_key x)), (snd (showdown_key best)); congruence.
Qed.

Lemma ranking_eqb_eq (a b : nat * list Card) : ranking_eqb a b = true <-> a = b.
Proof.
  unfold ranking_eqb. destruct a as [ca la], b as [cb lb]. simpl.
  rewrite andb_true_iff, Nat.eqb_eq.
  destruct (list_eq_dec card_eq_dec la lb); split; intros H.
  - destruct H. now subst.
  - inversion H. auto.
  - destruct H. discriminate.
  - inversion H. contradiction.
Qed.

Lemma in_combine_seq {A : Type} (l : list A) :
  forall (s i : nat) (x : A),
    In (i, x) (combine (seq s (length l)) l) <-> s <= i /\ nth_error l (i - s) = Some x.
Proof.
  induction l as [ | y t IH]; intros s i x; simpl.
  - split; [intros [] | intros [_ H]]. destruct (i - s); discriminate.
  - rewrite IH. split.
    + intros [H | [Hle H]].
      * inversion H; subst. rewrite Nat.sub_diag. auto.
      * split; [lia | ]. replace (i - s) with (S (i - S s)) by lia. exact H.
    + intros [Hle H]. destruct (i - s) as [ | d] eqn:E.
      * left. simpl in H. inversion H. f_equal. lia.
      * right. split; [lia | ]. replace (i - S s) with d by lia. exact H.
Qed.

Lemma in_enumerate {A : Type} (l : list A) (i : nat) (x : A) :
  In (i, x) (enumerate l) <-> nth_error l i = Some x.
Proof.
  unfold enumerate. rewrite in_combine_seq, Nat.sub_0_r. intuition lia.
Qed.

Lemma in_potential_winners (rs : list (nat * list Card)) (m : nat * list Card) (i : nat) :
  In i (potential_winners rs m) <-> nth_error rs i = Some m.
Proof.
  unfold potential_winners. rewrite in_map_iff. split.
  - intros ([j r] & <- & H). apply filter_In in H. destruct H as [Hin Heq].
    simpl in *. apply ranking_eqb_eq in Heq. subst r. now apply in_enumerate.
  - intros H. exists (i, m). split; [reflexivity | ].
    apply filter_In. split; [now apply in_enumerate | now apply ranking_eqb_eq].
Qed.

Lemma hand_category_inv (r : nat) (name : string) :
  hand_category r = Ok name -> ranking_of name = r.
Proof.
  intros H.
  do 12 (destruct r as [ | r];
         [vm_compute in H; first [discriminate H | inversion H; reflexivity] | ]).
  cbn in H. discriminate H.
Qed.

Lemma map_res_nth {A B : Type} (f : A -> Res B) (l : list A) :
  forall (ys : list B) (i : nat) (x : A),
    map_res f l = Ok ys -> nth_error l i = Some x ->
    exists y : B, nth_error ys i = Some y /\ f x = Ok y.
Proof.
  induction l as [ | a l IH]; intros ys i x H Hn; [destruct i; discriminate | ].
  simpl in H.
  destruct (f a) as [y | e] eqn:Ea; [ | discriminate].
  destruct (map_res f l) as [ys' | e] eqn:El; [ | discriminate].
  inversion H; subst.
  destruct i as [ | i]; simpl in *.
  - inversion Hn; subst. now exists y.
  - now apply (IH ys' i x).
Qed.

Lemma map_res_error {A B : Type} (f : A -> Res B) (l : list A) (e : Exn) :
  map_res f l = Raise e -> exists x : A, In x l /\ f x = Raise e.
Proof.
  induction l as [ | a l IH]; simpl; [discriminate | ].
  destruct (f a) as [y | e'] eqn:Ea.
  - destruct (map_res f l) as [ys | e'']; [discriminate | ].
    intros H. inversion H; subst. destruct (IH eq_refl) as (x & Hin & Hx).
    exists x. auto.
  - intros H. inversion H; subst. exists a. auto.
Qed.

Lemma show_results_parts (ps : list Player) (b : list Card)
      (categories : list string) (winners : list nat) :
  show_results ps b = Ok (categories, winners) ->
  exists m : nat * list Card,
    In m (map (fun p => evaluate_hand (hand p) b) ps) /\
    (forall x, In x (map (fun p => evaluate_hand (hand p) b) ps) -> fst x <= fst m) /\
    winners = potential_winners (map (fun p => evaluate_hand (hand p) b) ps) m /\
    map_res hand_category (map fst (map (fun p => evaluate_hand (hand p) b) ps))
      = Ok categories.
Proof.
  unfold show_results.
  set (rs := map (fun p => evaluate_hand (hand p) b) ps).
  destruct rs as [ | r0 rs'] eqn:E; [discriminate | ].
  destruct (max_ranking_from r0 rs') as [m | e] eqn:Em; [ | discriminate].
  destruct (map_res hand_category (map fst (r0 :: rs'))) as [cs | e] eqn:Ec; [ | discriminate].
  intros H. inversion H; subst.
  destruct (max_ranking_from_spec _ _ _ Em) as (Hin & Hle & Hall).
  exists m. split; [exact Hin | ]. split; [ | split; reflexivity].
  intros x [<- | Hx]; [exact Hle | now apply Hall].
Qed.

(** X9.  When [show_results] returns, it names at least one winner;
    the winners are exactly the seats whose result, category and cards,
    equals one result [m] that some seat holds; no seat has a higher
    category than [m]; and every seat, folded or not, is listed with the
    name of its category. *)
Theorem winners_hold_a_highest_category :
  forall (ps : list Player) (b : list Card) (categories : list string) (winners : list nat),
    show_results ps b = Ok (categories, winners) ->
    winners <> [] /\
    (exists m : nat * list Card,
        (forall i : nat,
            In i winners <->
            exists p : Player, nth_error ps i = Some p /\ evaluate_hand (hand p) b = m) /\
        (forall p : Player, In p ps -> fst (evaluate_hand (hand p) b) <= fst m)) /\
    (forall (i : nat) (p : Player),
        nth_error ps i = Some p ->
        exists name : string,
          nth_error categories i = Some name /\
          ranking_of name = fst (evaluate_hand (hand p) b)).
Proof.
  intros ps b cats winners H.
  destruct (show_results_parts _ _ _ _ H) as (m & Hin & Hmax & Hw & Hc).
  assert (Hiff : forall i, In i winners <->
                   exists p, nth_error ps i = Some p /\ evaluate_hand (hand p) b = m).
  { intros i. rewrite Hw, in_potential_winners, nth_error_map.
    destruct (nth_error ps i) as [p | ]; simpl; split.
    - intros E. inversion E. now exists p.
    - intros (p' & E & Hp'). inversion E; subst. reflexivity.
    - discriminate.
    - intros (p' & E & _). discriminate. }
  split; [ | split].
  - apply In_nth_error in Hin. destruct Hin as (i & Hi).
    apply in_potential_winners in Hi. rewrite <- Hw in Hi.
    intros ->. destruct Hi.
  - exists m. split; [exact Hiff | ].
    intros p Hp. apply Hmax. apply in_map_iff. now exists p.
  - intros i p Hp.
    destruct (map_res_nth hand_category _ cats i (fst (evaluate_hand (hand p) b)) Hc)
      as (name & Hn & Hname).
    { rewrite !nth_error_map, Hp. reflexivity. }
    exists name. split; [exact Hn | now apply hand_category_inv].
Qed.

Lemma winners_hold_a_highest_category_witness :
  exists (categories : list string) (winners : list nat),
    show_results [seat 0 royal_hole; seat 1 deuce_seven] royal_board
      = Ok (categories, winners) /\
    winners <> [].
Proof.
  exists ["High Card"; "Pair"], [1].
  assert (H : show_results [seat 0 royal_hole; seat 1 deuce_seven] royal_board
              = Ok (["High Card"; "Pair"], [1])) by (vm_compute; reflexivity).
  split; [exact H | ].
  exact (proj1 (winners_hold_a_highest_category _ _ _ _ H)).
Defined.

(** X10.  A seat that holds no cards makes [show_results] fail: the
    seat's category 0 has no name, so unless comparing the results has
    already raised TypeError, the name lookup raises IndexError and no
    winner is printed. *)
Theorem show_results_fails_on_an_empty_hand :
  forall (ps : list Player) (b : list Card) (p : Player),
    In p ps -> hand p = [] ->
    show_results ps b = Raise IndexError \/ show_results ps b = Raise TypeError.
Proof.
  intros ps b p Hp Hhand.
  unfold show_results.
  set (rs := map (fun q => evaluate_hand (hand q) b) ps).
  assert (Hin : In (0, []) rs).
  { unfold rs. apply in_map_iff. exists p. rewrite Hhand. auto. }
  destruct rs as [ | r0 rs'] eqn:E; [destruct Hin | ].
  destruct (max_ranking_from r0 rs') as [m | e] eqn:Em.
  - left.
    destruct (map_res hand_category (map fst (r0 :: rs'))) as [cs | e] eqn:Ec.
    + exfalso. apply In_nth_error in Hin. destruct Hin as (i & Hi).
      destruct (map_res_nth hand_category _ cs i 0 Ec) as (name & _ & Hname).
      * rewrite nth_error_map, Hi. reflexivity.
      * vm_compute in Hname. discriminate Hname.
    + apply map_res_error in Ec. destruct Ec as (x & _ & Hx).
      f_equal. unfold hand_category in Hx.
      destruct (filter (fun kv => (snd kv =? x)%nat) HAND_RANKINGS); congruence.
  - right. f_equal. now apply (max_ranking_from_error rs' r0).
Qed.

Lemma show_results_fails_on_an_empty_hand_witness :
  show_results [seat 0 royal_hole; seat 1 []] royal_board = Raise IndexError \/
  show_results [seat 0 royal_hole; seat 1 []] royal_board = Raise TypeError.
Proof.
  apply (show_results_fails_on_an_empty_hand _ royal_board (seat 1 [])).
  - simpl. right. now left.
  - reflexivity.
Defined.

(** ** Dealing from the deck *)

Lemma draw_one (c : Card) (rest : list Card) :
  draw_card 1 (mkDeck (c :: rest)) = (Ok [c], mkDeck rest).
Proof.
  unfold draw_card. simpl cards. simpl Z.leb.
  destruct (1 >? Z.of_nat (length (c :: rest)))%Z eqn:E; [ | reflexivity].
  rewrite Z.gtb_ltb in E. apply Z.ltb_lt in E. simpl length in E. lia.
Qed.

Lemma deal_row_ok (hands : list (list Card)) :
  forall d : Deck,
    length hands <= length (cards d) ->
    exists hs : list (list Card),
      deal_row hands d = (Ok hs, mkDeck (skipn (length hands) (cards d))) /\
      length hs = length hands /\
      (forall (i : nat) (h : list Card),
          nth_error hands i = Some h ->
          exists c : Card,
            nth_error (cards d) i = Some c /\ nth_error hs i = Some (h ++ [c])).
Proof.
  induction hands as [ | h t IH]; intros [cs] Hlen; simpl in Hlen.
  - exists []. repeat split. intros [ | i] h H; discriminate.
  - destruct cs as [ | c rest]; simpl in Hlen; [lia | ].
    destruct (IH (mkDeck rest)) as (hs & Hrun & Hl & Hnth); [simpl; lia | ].
    exists ((h ++ [c]) :: hs).
    split; [ | split].
    + simpl. unfold bind. rewrite draw_one, Hrun. reflexivity.
    + simpl. now rewrite Hl.
    + intros [ | i] h' H; simpl in H.
      * inversion H; subst. exists c. auto.
      * destruct (Hnth i h' H) as (c' & Hc' & Hh'). exists c'. auto.
Qed.

Lemma deal_rows_ok (k : nat) :
  forall (hands : list (list Card)) (d : Deck),
    k * length hands <= length (cards d) ->
    exists hs : list (list Card),
      deal_rows k hands d = (Ok hs, mkDeck (skipn (k * length hands) (cards d))) /\
      length hs = length hands /\
      (forall (i : nat) (h : list Card),
          nth_error hands i = Some h ->
          exists h' : list Card,
            nth_error hs i = Some (h ++ h') /\ length h' = k /\
            (forall j : nat, j < k ->
               nth_error h' j = nth_error (cards d) (j * length hands + i))).
Proof.
  induction k as [ | k IH]; intros hands [cs] Hlen.
  - exists hands. repeat split. intros i h H. exists []. rewrite app_nil_r.
    repeat split; [exact H | intros j Hj; lia].
  - simpl in Hlen. simpl cards in *.
    destruct (deal_row_ok hands (mkDeck cs)) as (hs1 & Hrow & Hl1 & Hn1); [simpl; lia | ].
    simpl cards in *.
    destruct (IH hs1 (mkDeck (skipn (length hands) cs))) as (hs2 & Hrows & Hl2 & Hn2).
    { simpl. rewrite length_skipn, Hl1. nia. }
    simpl cards in *.
    exists hs2. split; [ | split].
    + simpl deal_rows. unfold bind. rewrite Hrow, Hrows.
      rewrite skipn_skipn, Hl1. do 3 f_equal. lia.
    + congruence.
    + intros i h H.
      destruct (Hn1 i h H) as (c & Hc & Hh1).
      destruct (Hn2 i _ Hh1) as (h'' & Hh2 & Hlen'' & Hj).
      exists (c :: h''). split; [ | split].
      * rewrite Hh2, <- app_assoc. reflexivity.
      * simpl. now rewrite Hlen''.
      * intros [ | j] Hlt; simpl.
        -- now rewrite Hc.
        -- rewrite Hj by lia. rewrite nth_error_skipn, Hl1. f_equal. lia.
Qed.

Lemma deal_row_perm (hands : list (list Card)) :
  forall (d : Deck) (hs : list (list Card)) (d' : Deck),
    deal_row hands d = (Ok hs, d') ->
    Permutation (concat hs ++ cards d') (concat hands ++ cards d).
Proof.
  induction hands as [ | h t IH]; intros d hs d' H; simpl in H.
  - inversion H; subst. reflexivity.
  - destruct (is_empty d); [inversion H; subst; reflexivity | ].
    unfold bind in H.
    destruct (draw_card 1 d) as [[card | e] d1] eqn:Ed; [ | discriminate].
    destruct (deal_row t d1) as [[rest | e] d2] eqn:Er; [ | discriminate].
    inversion H; subst.
    apply draw_card_ok in Ed. destruct Ed as [Ed _].
    apply IH in Er. simpl. rewrite <- Ed, <- !app_assoc.
    apply Permutation_app_head.
    rewrite Er. apply Permutation_app_swap_app.
Qed.

Lemma deal_rows_perm (k : nat) :
  forall (hands : list (list Card)) (d : Deck) (hs : list (list Card)) (d' : Deck),
    deal_rows k hands d = (Ok hs, d') ->
    Permutation (concat hs ++ cards d') (concat hands ++ cards d).
Proof.
  induction k as [ | k IH]; intros hands d hs d' H; simpl in H.
  - inversion H; subst. reflexivity.
  - unfold bind in H.
    destruct (deal_row hands d) as [[hs1 | e] d1] eqn:Er; [ | discriminate].
    apply IH in H. apply deal_row_perm in Er. now rewrite H.
Qed.

Lemma concat_repeat_nil {A : Type} (n : nat) : concat (repeat (@nil A) n) = [].
Proof. induction n; simpl; auto. Qed.

Lemma deal_guards_pass (n k : nat) (d : Deck) :
  0 < n -> 0 < k -> n * k <= length (cards d) ->
  deal (Z.of_nat n) (Z.of_nat k) d = deal_rows k (repeat [] n) d.
Proof.
  intros Hn Hk Hlen. unfold deal.
  replace ((Z.of_nat n <=? 0) || (Z.of_nat k <=? 0))%Z with false.
  - replace (Z.of_nat n * Z.of_nat k >? Z.of_nat (length (cards d)))%Z with false.
    + now rewrite !Nat2Z.id.
    + symmetry. rewrite Z.gtb_ltb. apply Z.ltb_ge. nia.
  - symmetry. apply orb_false_iff. split; apply Z.leb_gt; lia.
Qed.

Lemma deal_goes_round_the_table_aux (n k : nat) (d : Deck) :
  0 < n -> 0 < k -> n * k <= length (cards d) ->
  exists (hands : list (list Card)) (d' : Deck),
    deal (Z.of_nat n) (Z.of_nat k) d = (Ok hands, d').
Proof.
  intros Hn Hk Hlen. rewrite (deal_guards_pass n k d Hn Hk Hlen).
  destruct (deal_rows_ok k (repeat [] n) d) as (hs & Hrun & _).
  { rewrite repeat_length. lia. }
  eauto.
Qed.

(** X11.  When both counts are positive and the deck holds at least
    [n * k] cards, [deal] returns [n] hands of [k] cards each, dealt one
    card at a time around the table: the [j]-th card of hand [i] is the
    deck's card at position [j * n + i].  The first [n * k] cards leave
    the deck, and the hands with the rest of the deck are the cards the
    deck held. *)
Theorem deal_goes_round_the_table :
  forall (n k : nat) (d : Deck),
    0 < n -> 0 < k -> n * k <= length (cards d) ->
    exists hands : list (list Card),
      deal (Z.of_nat n) (Z.of_nat k) d = (Ok hands, mkDeck (skipn (n * k) (cards d))) /\
      length hands = n /\
      (forall (i : nat) (h : list Card),
          nth_error hands i = Some h ->
          length h = k /\
          forall j : nat, j < k -> nth_error h j = nth_error (cards d) (j * n + i)) /\
      Permutation (concat hands ++ skipn (n * k) (cards d)) (cards d).
Proof.
  intros n k d Hn Hk Hlen.
  rewrite (deal_guards_pass n k d Hn Hk Hlen).
  destruct (deal_rows_ok k (repeat [] n) d) as (hs & Hrun & Hl & Hnth).
  { rewrite repeat_length. lia. }
  rewrite repeat_length in *.
  replace (k * n) with (n * k) in Hrun by lia.
  exists hs. split; [exact Hrun | ]. split; [exact Hl | ]. split.
  - intros i h Hi.
    assert (Hi' : i < n) by (rewrite <- Hl; apply nth_error_Some; congruence).
    destruct (Hnth i []) as (h' & Hh' & Hlen' & Hj).
    { rewrite nth_error_repeat by exact Hi'. reflexivity. }
    simpl in Hh'. assert (h = h') by congruence. subst h'. auto.
  - apply deal_rows_perm in Hrun. simpl in Hrun.
    now rewrite concat_repeat_nil in Hrun.
Qed.

Lemma deal_goes_round_the_table_witness :
  exists hands : list (list Card),
    deal 3 2 Deck_init = (Ok hands, mkDeck (skipn 6 (cards Deck_init))) /\
    nth_error hands 1 = Some [R3 of Hearts; R6 of Hearts].
Proof.
  destruct (deal_goes_round_the_table 3 2 Deck_init) as (hands & Hrun & _ & _ & _);
    [lia | lia | simpl; lia | ].
  exists hands. split; [exact Hrun | ].
  vm_compute in Hrun. inversion Hrun. reflexivity.
Defined.

(** X12.  [deal] raises exactly when a count is not positive or the
    deck holds fewer than [n * k] cards; what it raises is a ValueError,
    and the deck is left as it was: no card is taken before the guards
    have passed. *)
Theorem deal_fails_only_at_its_guards (n k : Z) (d : Deck) :
  ((exists (e : Exn) (d' : Deck), deal n k d = (Raise e, d')) <->
   (n <= 0 \/ k <= 0 \/ Z.of_nat (length (cards d)) < n * k)%Z) /\
  (forall (e : Exn) (d' : Deck),
      deal n k d = (Raise e, d') -> d' = d /\ exists msg : string, e = ValueError msg).
Proof.
  assert (Hok : (0 < n -> 0 < k -> n * k <= Z.of_nat (length (cards d)) ->
                 exists hands d', deal n k d = (Ok hands, d'))%Z).
  { intros Hn Hk Hlen.
    assert (Hmul : Z.to_nat n * Z.to_nat k <= length (cards d)).
    { apply Nat2Z.inj_le. rewrite Nat2Z.inj_mul, !Z2Nat.id by lia. exact Hlen. }
    destruct (deal_goes_round_the_table_aux (Z.to_nat n) (Z.to_nat k) d)
      as (hands & d' & H); [lia | lia | exact Hmul | ].
    rewrite !Z2Nat.id in H by lia. eauto. }
  split; [split | ].
  - intros (e & d' & H).
    destruct (Z_le_gt_dec n 0) as [ | Hn]; [auto | ].
    destruct (Z_le_gt_dec k 0) as [ | Hk]; [auto | ].
    destruct (Z_lt_le_dec (Z.of_nat (length (cards d))) (n * k)) as [ | Hlen]; [auto | ].
    destruct Hok as (hands & d'' & H'); try lia. congruence.
  - unfold deal, raise. intros H.
    destruct ((n <=? 0) || (k <=? 0))%Z eqn:E1; [eauto | ].
    destruct (n * k >? Z.of_nat (length (cards d)))%Z eqn:E2; [eauto | ].
    apply orb_false_iff in E1. destruct E1 as [E1 E1'].
    apply Z.leb_gt in E1, E1'. rewrite Z.gtb_ltb in E2. apply Z.ltb_ge in E2. lia.
  - unfold deal, raise. intros e d' H.
    destruct ((n <=? 0) || (k <=? 0))%Z eqn:E1; [inversion H; eauto | ].
    destruct (n * k >? Z.of_nat (length (cards d)))%Z eqn:E2; [inversion H; eauto | ].
    apply orb_false_iff in E1. destruct E1 as [E1 E1'].
    apply Z.leb_gt in E1, E1'. rewrite Z.gtb_ltb in E2. apply Z.ltb_ge in E2.
    destruct Hok as (hands & d'' & H'); try lia.
    unfold deal in H'. rewrite orb_false_intro in H' by (apply Z.leb_gt; lia).
    replace (n * k >? Z.of_nat (length (cards d)))%Z with false in H'
      by (symmetry; rewrite Z.gtb_ltb; apply Z.ltb_ge; lia).
    congruence.
Qed.

(** ** Asking until the answer is valid *)

Lemma read_until_ok {A : Type} (accept : string -> option A) (lines : list string) :
  forall (a : A) (rest : list string),
    read_until accept lines = (Ok a, rest) <->
    exists (pre : list string) (s : string),
      lines = pre ++ s :: rest /\
      Forall (fun x => accept x = None) pre /\ accept s = Some a.
Proof.
  induction lines as [ | l t IH]; intros a rest; simpl.
  - split; [discriminate | ]. intros (pre & s & H & _). destruct pre; discriminate.
  - destruct (accept l) as [a' | ] eqn:E.
    + split.
      * intros H. inversion H; subst. exists [], l. auto.
      * intros ([ | p pre] & s & H & Hpre & Hs); simpl in H; inversion H; subst.
        -- congruence.
        -- inversion Hpre; subst. congruence.
    + rewrite IH. split.
      * intros (pre & s & -> & Hpre & Hs). exists (l :: pre), s. auto.
      * intros ([ | p pre] & s & H & Hpre & Hs); simpl in H; inversion H; subst.
        -- congruence.
        -- inversion Hpre; subst. eauto.
Qed.

Lemma read_until_error {A : Type} (accept : string -> option A) (lines : list string) :
  forall (e : Exn) (rest : list string),
    read_until accept lines = (Raise e, rest) <->
    e = EOFError /\ rest = [] /\ Forall (fun x => accept x = None) lines.
Proof.
  induction lines as [ | l t IH]; intros e rest; simpl.
  - split.
    + intros H. inversion H. auto.
    + intros (-> & -> & _). reflexivity.
  - destruct (accept l) as [a' | ] eqn:E.
    + split; [discriminate | ]. intros (_ & _ & H). inversion H; subst. congruence.
    + rewrite IH. split.
      * intros (-> & -> & H). auto.
      * intros (-> & -> & H). inversion H; subst. auto.
Qed.

Lemma read_until_raising_ok {A : Type} (accept : string -> Res (option A))
      (lines : list string) :
  forall (a : A) (rest : list string),
    read_until_raising accept lines = (Ok a, rest) <->
    exists (pre : list string) (s : string),
      lines = pre ++ s :: rest /\
      Forall (fun x => accept x = Ok None) pre /\ accept s = Ok (Some a).
Proof.
  induction lines as [ | l t IH]; intros a rest; simpl.
  - split; [discriminate | ]. intros (pre & s & H & _). destruct pre; discriminate.
  - destruct (accept l) as [[a' | ] | e'] eqn:E.
    + split.
      * intros H. inversion H; subst. exists [], l. auto.
      * intros ([ | p pre] & s & H & Hpre & Hs); simpl in H; inversion H; subst.
        -- congruence.
        -- inversion Hpre; subst. congruence.
    + rewrite IH. split.
      * intros (pre & s & -> & Hpre & Hs). exists (l :: pre), s. auto.
      * intros ([ | p pre] & s & H & Hpre & Hs); simpl in H; inversion H; subst.
        -- congruence.
        -- inversion Hpre; subst. eauto.
    + split; [discriminate | ].
      intros ([ | p pre] & s & H & Hpre & Hs); simpl in H; inversion H; subst.
      * congruence.
      * inversion Hpre; subst. congruence.
Qed.

Lemma read_until_raising_error {A : Type} (accept : string -> Res (option A))
      (lines : list string) :
  forall (e : Exn) (rest : list string),
    read_until_raising accept lines = (Raise e, rest) <->
    (e = EOFError /\ rest = [] /\ Forall (fun x => accept x = Ok None) lines) \/
    (exists (pre : list string) (s : string),
        lines = pre ++ s :: rest /\
        Forall (fun x => accept x = Ok None) pre /\ accept s = Raise e).
Proof.
  induction lines as [ | l t IH]; intros e rest; simpl.
  - split.
    + intros H. inversion H. auto.
    + intros [(-> & -> & _) | (pre & s & H & _)]; [reflexivity | destruct pre; discriminate].
  - destruct (accept l) as [[a' | ] | e'] eqn:E.
    + split; [discriminate | ].
      intros [(_ & _ & H) | ([ | p pre] & s & H & Hpre & Hs)].
      * inversion H; subst. congruence.
      * simpl in H. inversion H; subst. congruence.
      * simpl in H. inversion H; subst. inversion Hpre; subst. congruence.
    + rewrite IH. split.
      * intros [(-> & -> & H) | (pre & s & -> & Hpre & Hs)]; [left; auto | ].
        right. exists (l :: pre), s. auto.
      * intros [(-> & -> & H) | ([ | p pre] & s & H & Hpre & Hs)].
        -- inversion H; subst. left. auto.
        -- simpl in H. inversion H; subst. congruence.
        -- simpl in H. inversion H; subst. inversion Hpre; subst. right. eauto.
    + split.
      * intros H. inversion H; subst. right. exists [], l. auto.
      * intros [(_ & _ & H) | ([ | p pre] & s & H & Hpre & Hs)].
        -- inversion H; subst. congruence.
        -- simpl in H. inversion H; subst. congruence.
        -- simpl in H. inversion H; subst. inversion Hpre; subst. congruence.
Qed.



Lemma accept_bet_ok {py : Str} (max_bet stack amount : Z) (s : string) :
  accept_bet max_bet stack s = Ok (Some amount) <->
  isdigit s = true /\ int s = Ok amount /\
  (max_bet < amount <= stack /\ 2 * BIG_BLIND <= amount)%Z.
Proof.
  unfold accept_bet. change (2 * BIG_BLIND)%Z with 20%Z.
  destruct (isdigit s); simpl; [ | split; [discriminate | intros (H & _); discriminate]].
  destruct (int s) as [v | e]; [ | split; [discriminate | intros (_ & H & _); discriminate]].
  destruct (Z.leb_spec v max_bet) as [L1 | L1]; simpl;
    [split; [discriminate | intros (_ & H & L); inversion H; lia] | ].
  destruct (v >? stack)%Z eqn:E2; simpl;
    [rewrite Z.gtb_ltb in E2; apply Z.ltb_lt in E2;
     split; [discriminate | intros (_ & H & L); inversion H; lia] | ].
  rewrite Z.gtb_ltb in E2. apply Z.ltb_ge in E2.
  destruct (Z.ltb_spec v 20) as [L3 | L3]; simpl;
    [split; [discriminate | intros (_ & H & L); inversion H; lia] | ].
  split; [intros H'; inversion H'; subst; repeat split; lia | ].
  intros (_ & H & _). inversion H. reflexivity.
Qed.

Lemma accept_bet_refused {py : Str} (max_bet stack : Z) (s : string) :
  accept_bet max_bet stack s = Ok None <-> bet_refused max_bet stack s.
Proof.
  unfold accept_bet, bet_refused. change (2 * BIG_BLIND)%Z with 20%Z.
  destruct (isdigit s); simpl.
  2: { split; auto. }
  destruct (int s) as [v | e].
  2: { split; [discriminate | ].
       intros [H | (v & _ & H & _)]; discriminate. }
  destruct (Z.leb_spec v max_bet) as [L1 | L1]; simpl.
  { split; [ | reflexivity]. intros _. right. exists v. auto. }
  destruct (v >? stack)%Z eqn:E2; simpl.
  { rewrite Z.gtb_ltb in E2. apply Z.ltb_lt in E2.
    split; [ | reflexivity]. intros _. right. exists v. auto. }
  rewrite Z.gtb_ltb in E2. apply Z.ltb_ge in E2.
  destruct (Z.ltb_spec v 20) as [L3 | L3]; simpl.
  { split; [ | reflexivity]. intros _. right. exists v. auto. }
  split; [discriminate | ].
  intros [H | (v' & _ & H & L)]; [discriminate | ]. inversion H; subst. lia.
Qed.

Lemma accept_bet_raises {py : Str} (max_bet stack : Z) (s : string) (e : Exn) :
  accept_bet max_bet stack s = Raise e <-> isdigit s = true /\ int s = Raise e.
Proof.
  unfold accept_bet.
  destruct (isdigit s); simpl; [ | split; [discriminate | intros [H _]; discriminate]].
  destruct (int s) as [v | e'].
  - split; [ | intros [_ H]; discriminate].
    match goal with |- context [if ?c then _ else _] => destruct c end; discriminate.
  - split; [intros H; inversion H; auto | intros [_ H]; inversion H; reflexivity].
Qed.

Lemma Forall_iff {A : Type} (P Q : A -> Prop) (l : list A) :
  (forall x, P x <-> Q x) -> (Forall P l <-> Forall Q l).
Proof.
  intros H. split; apply Forall_impl; intros x; apply H.
Qed.



Lemma bet_prompt_ok {py : Str} (max_bet stack amount : Z) (lines rest : list string) :
  read_until_raising (accept_bet max_bet stack) lines = (Ok amount, rest) <->
  exists (pre : list string) (s : string),
    lines = pre ++ s :: rest /\ Forall (bet_refused max_bet stack) pre /\
    isdigit s = true /\ int s = Ok amount /\
    (max_bet < amount <= stack /\ 2 * BIG_BLIND <= amount)%Z.
Proof.
  rewrite read_until_raising_ok. split.
  - intros (pre & s & H1 & H2 & H3). apply accept_bet_ok in H3.
    exists pre, s. split; [exact H1 | ]. split; [ | exact H3].
    revert H2. apply Forall_impl. intros x. apply accept_bet_refused.
  - intros (pre & s & H1 & H2 & H3). exists pre, s. split; [exact H1 | ].
    split; [ | now apply accept_bet_ok].
    revert H2. apply Forall_impl. intros x. apply accept_bet_refused.
Qed.

Lemma bet_prompt_error {py : Str} (max_bet stack : Z) (lines rest : list string) (e : Exn) :
  read_until_raising (accept_bet max_bet stack) lines = (Raise e, rest) <->
  (e = EOFError /\ rest = [] /\ Forall (bet_refused max_bet stack) lines) \/
  (exists (pre : list string) (s : string),
      lines = pre ++ s :: rest /\ Forall (bet_refused max_bet stack) pre /\
      isdigit s = true /\ int s = Raise e).
Proof.
  rewrite read_until_raising_error.
  rewrite (Forall_iff _ (bet_refused max_bet stack) lines (accept_bet_refused max_bet stack)).
  split; (intros [H | (pre & s & H1 & H2 & H3)]; [left; exact H | right]).
  - apply accept_bet_raises in H3. exists pre, s. split; [exact H1 | ]. split; [ | exact H3].
    revert H2. apply Forall_impl. intros x. apply accept_bet_refused.
  - exists pre, s. split; [exact H1 | ]. split; [ | now apply accept_bet_raises].
    revert H2. apply Forall_impl. intros x. apply accept_bet_refused.
Qed.


(** ** One seat's turn *)

Lemma list_set_same {A : Type} (l : list A) :
  forall (i : nat) (x : A), nth_error l i = Some x -> list_set l i x = Some l.
Proof.
  induction l as [ | y l IH]; intros [ | i] x H; simpl in *; try discriminate.
  - now inversion H.
  - now rewrite (IH i x H).
Qed.

Lemma list_set_in_range {A : Type} (l : list A) (i : nat) (v : A) :
  i < length l ->
  exists l' : list A,
    list_set l i v = Some l' /\ nth_error l' i = Some v /\ length l' = length l.
Proof.
  intros H. destruct (nth_error l i) as [x | ] eqn:E.
  - now apply (list_set_nth_error l i x v).
  - apply nth_error_None in E. lia.
Qed.

Lemma accept_action_of {py : Str} (line act : string) :
  lower_strip line = act -> In act VALID_ACTIONS -> accept_action line = Some act.
Proof.
  intros H Hin. unfold accept_action. rewrite H.
  replace (existsb (String.eqb act) VALID_ACTIONS) with true; [reflexivity | ].
  symmetry. apply existsb_exists. exists act. split; [exact Hin | apply String.eqb_refl].
Qed.

Lemma update_max_bet_max (b : Z) (g : GameState) :
  current_max_bet (update_max_bet b g) = Z.max (current_max_bet g) b /\
  pot_size (update_max_bet b g) = pot_size g /\
  players_in_game (update_max_bet b g) = players_in_game g.
Proof.
  unfold update_max_bet. destruct (b >? current_max_bet g)%Z eqn:E; simpl.
  - rewrite Z.gtb_ltb in E. apply Z.ltb_lt in E. repeat split. lia.
  - rewrite Z.gtb_ltb in E. apply Z.ltb_ge in E. repeat split. lia.
Qed.

(** X14.  When an active seat that posts no blind answers fold, its
    stack is untouched and the seat is marked inactive, in the player
    and in the game state; it does not count as active for the round.
    But the bet the seat last made is added to the pot once more, and
    the max bet is raised to it if it was lower: a fold is not free for
    the pot. *)
Theorem fold_adds_the_last_bet_to_the_pot {py : Str} :
  forall (w : World) (sb bb i idx a : nat) (p : Player)
         (line : string) (rest : list string),
    nth_error (players (game w)) idx = Some p ->
    is_active p = true ->
    i <> sb -> i <> bb ->
    stdin w = line :: rest ->
    lower_strip line = "fold" ->
    player_id p < length (players_in_game (game_state (game w))) ->
    exists w' : World,
      seat_turn sb bb i idx a w = (Ok a, w') /\
      nth_error (players (game w')) idx = Some (set_active false p) /\
      chips (set_active false p) = chips p /\
      nth_error (players_in_game (game_state (game w'))) (player_id p) = Some false /\
      pot_size (game_state (game w'))
        = (pot_size (game_state (game w)) + current_bet p)%Z /\
      current_max_bet (game_state (game w'))
        = Z.max (current_max_bet (game_state (game w))) (current_bet p) /\
      stdin w' = rest.
Proof.
  intros w sb bb i idx a p line rest Hp Hact Hsb Hbb Hin Hline Hid.
  destruct (list_set_nth_error (players (game w)) idx p (set_active false p) Hp)
    as (ps1 & Hset1 & Hnth1 & _).
  destruct (list_set_nth_error ps1 idx _ (set_active false (set_active false p)) Hnth1)
    as (ps2 & Hset2 & Hnth2 & _).
  destruct (list_set_in_range (players_in_game (game_state (game w))) (player_id p) false Hid)
    as (flags & Hflags & Hflag & _).
  destruct w as [g ins out]. simpl in *. subst ins.
  unfold seat_turn, bind, get_player. simpl. rewrite Hp, Hact. simpl.
  apply Nat.eqb_neq in Hsb, Hbb. rewrite Hsb, Hbb.
  unfold input_until. simpl.
  rewrite (accept_action_of line "fold" Hline) by (simpl; auto). simpl.
  unfold on_player. simpl. rewrite Hp. simpl. rewrite Hset1. simpl.
  rewrite Hnth1. simpl. rewrite Hset2. simpl.
  unfold on_game_state, player_fold. simpl. rewrite Hflags. simpl.
  rewrite Hnth2. simpl.
  eexists. split; [reflexivity | ]. simpl.
  destruct (update_max_bet_max (current_bet p)
              (update_pot (current_bet p)
                 (mkGameState (current_betting_round (game_state g)) flags
                              (current_max_bet (game_state g)) (pot_size (game_state g)))))
    as (Hmax & Hpot & Hpig).
  repeat split.
  - exact Hnth2.
  - rewrite Hpig. exact Hflag.
  - rewrite Hpot. reflexivity.
  - rewrite Hmax. reflexivity.
Qed.

Lemma fold_adds_the_last_bet_to_the_pot_witness :
  exists w' : World,
    seat_turn 0 1 2 2 0 (mkWorld (game table_on_the_turn) ["Fold"] []) = (Ok 0%nat, w') /\
    pot_size (game_state (game w')) = 100%Z.
Proof.
  destruct (fold_adds_the_last_bet_to_the_pot
              (mkWorld (game table_on_the_turn) ["Fold"] []) 0 1 2 2 0
              (mkPlayer 2 75 20 [R4 of Hearts; R8 of Hearts] None true) "Fold" [])
    as (w' & Hrun & _ & _ & _ & Hpot & _);
    try reflexivity; try (intro H; discriminate H); [vm_compute; lia | ].
  exists w'. split; [exact Hrun | ]. rewrite Hpot. reflexivity.
Defined.

Lemma accept_bet_some {py : Str} (max_bet stack amount : Z) (s : string) :
  accept_bet max_bet stack s = Ok (Some amount) ->
  (max_bet < amount <= stack /\ 20 <= amount)%Z.
Proof. intros H. apply accept_bet_ok in H. exact (proj2 (proj2 H)). Qed.

(** X15.  When an active seat that posts no blind answers raise, the
    loop over the bet takes the first following line that [isdigit]
    accepts and [int] reads as a number above the max bet, at least
    twice the big blind and within the seat's stack, the lines before
    it having been refused.  Provided the seat's current bet is not
    above both the max bet and 19 (blinds are 5 and 10), the raise goes
    through without an exception: the seat pays the whole amount, which
    becomes its current bet and the new max bet and is added to the pot,
    and the seat counts as active. *)
Theorem raise_sets_the_max_bet {py : Str} :
  forall (w : World) (sb bb i idx a : nat) (p : Player)
         (line s : string) (pre rest : list string) (amount : Z),
    nth_error (players (game w)) idx = Some p ->
    is_active p = true ->
    i <> sb -> i <> bb ->
    stdin w = line :: pre ++ s :: rest ->
    lower_strip line = "raise" ->
    Forall (bet_refused (current_max_bet (game_state (game w))) (chips p)) pre ->
    isdigit s = true ->
    int s = Ok amount ->
    (current_max_bet (game_state (game w)) < amount <= chips p)%Z ->
    (2 * BIG_BLIND <= amount)%Z ->
    (current_bet p <= Z.max (current_max_bet (game_state (game w))) 19)%Z ->
    exists w' : World,
      seat_turn sb bb i idx a w = (Ok (S a), w') /\
      nth_error (players (game w')) idx = Some (set_bet amount p) /\
      chips (set_bet amount p) = (chips p - amount)%Z /\
      current_max_bet (game_state (game w')) = amount /\
      pot_size (game_state (game w')) = (pot_size (game_state (game w)) + amount)%Z /\
      stdin w' = rest.
Proof.
  intros w sb bb i idx a p line s pre rest amount
         Hp Hact Hsb Hbb Hin Hline Hpre Hdigit Hint Hlegal Hbig Hcb.
  change (2 * BIG_BLIND)%Z with 20%Z in Hbig.
  assert (Hread : read_until_raising
                    (accept_bet (current_max_bet (game_state (game w))) (chips p))
                    (pre ++ s :: rest) = (Ok amount, rest)).
  { apply bet_prompt_ok. exists pre, s. change (2 * BIG_BLIND)%Z with 20%Z.
    repeat split; auto; lia. }
  destruct (list_set_nth_error (players (game w)) idx p (set_bet amount p) Hp)
    as (ps & Hset & Hnth & _).
  assert (Hraise : raise_bet amount p = (Ok tt, set_bet amount p)).
  { unfold raise_bet, bet.
    destruct (Z.leb_spec amount (current_bet p)); [lia | ].
    destruct (amount >? chips p)%Z eqn:E; [ | reflexivity].
    rewrite Z.gtb_ltb in E. apply Z.ltb_lt in E. lia. }
  destruct w as [g ins out]. simpl in Hp, Hin, Hread, Hset, Hcb, Hlegal. subst ins.
  unfold seat_turn, bind, get_player. cbn [game players stdin stdout]. rewrite Hp, Hact.
  cbn [negb].
  apply Nat.eqb_neq in Hsb, Hbb. rewrite Hsb, Hbb.
  unfold input_until. cbn [game stdin stdout read_until].
  rewrite (accept_action_of line "raise" Hline) by (simpl; auto).
  cbn [String.eqb Ascii.eqb Bool.eqb get game game_state ret].
  unfold input_until_raising. cbn [game stdin stdout]. rewrite Hread.
  unfold on_player. cbn [game players]. rewrite Hp, Hraise, Hset.
  cbn [set_game set_players game players]. rewrite Hnth.
  eexists. split; [reflexivity | ]. simpl.
  destruct (update_max_bet_max amount (update_pot amount (game_state g)))
    as (Hmax & Hpot & _).
  repeat split.
  - exact Hnth.
  - rewrite Hmax. simpl. lia.
  - rewrite Hpot. reflexivity.
Qed.

Lemma raise_sets_the_max_bet_witness :
  exists w' : World,
    seat_turn 0 1 2 2 0 (mkWorld (game table_on_the_turn) ["RAISE"; "x"; "20"; "30"] [])
      = (Ok 1%nat, w') /\
    current_max_bet (game_state (game w')) = 30%Z.
Proof.
  destruct (raise_sets_the_max_bet
              (mkWorld (game table_on_the_turn) ["RAISE"; "x"; "20"; "30"] []) 0 1 2 2 0
              (mkPlayer 2 75 20 [R4 of Hearts; R8 of Hearts] None true)
              "RAISE" "30" ["x"; "20"] [] 30)
    as (w' & Hrun & _ & _ & Hmax & _).
  - reflexivity.
  - reflexivity.
  - discriminate.
  - discriminate.
  - reflexivity.
  - reflexivity.
  - constructor; [left; reflexivity | ].
    constructor; [ | constructor].
    right. exists 20%Z. split; [reflexivity | ]. split; [reflexivity | ].
    left. vm_compute. discriminate.
  - reflexivity.
  - reflexivity.
  - vm_compute. split; [reflexivity | discriminate].
  - vm_compute. discriminate.
  - vm_compute. discriminate.
  - exists w'. split; [exact Hrun | exact Hmax].
Defined.

(** X16.  The seat at the small-blind position of the round's seat
    list posts 5 and the seat at the big-blind position posts 10,
    without being asked: the amount leaves the stack and becomes the
    current bet, while the pot, the max bet and the count of active
    seats stay as they were and no input is read.  A seat that cannot
    cover its blind ends the round with a ValueError, the table
    unchanged. *)
Theorem blinds_bypass_the_pot {py : Str} :
  forall (w : World) (sb bb i idx a : nat) (p : Player) (blind : Z),
    nth_error (players (game w)) idx = Some p ->
    is_active p = true ->
    (i = sb /\ blind = SMALL_BLIND) \/ (i <> sb /\ i = bb /\ blind = BIG_BLIND) ->
    ((blind <= chips p)%Z ->
     exists w' : World,
       seat_turn sb bb i idx a w = (Ok a, w') /\
       nth_error (players (game w')) idx = Some (set_bet blind p) /\
       game_state (game w') = game_state (game w) /\
       stdin w' = stdin w) /\
    ((chips p < blind)%Z ->
     seat_turn sb bb i idx a w = (Raise not_enough_chips, w)).
Proof.
  intros w sb bb i idx a p blind Hp Hact Hpos.
  assert (Hturn : seat_turn sb bb i idx a w
                  = bind (on_player idx (bet blind))
                         (fun _ => bind (print (EvBlind (player_id p + 1) blind))
                                        (fun _ => ret a)) w).
  { unfold seat_turn at 1. unfold bind at 1. unfold get_player. rewrite Hp, Hact.
    cbn [negb].
    destruct Hpos as [[-> ->] | (Hne & -> & ->)].
    - rewrite Nat.eqb_refl. reflexivity.
    - apply Nat.eqb_neq in Hne. rewrite Hne, Nat.eqb_refl. reflexivity. }
  rewrite Hturn. split.
  - intros Hle.
    destruct (list_set_nth_error (players (game w)) idx p (set_bet blind p) Hp)
      as (ps & Hset & Hnth & _).
    assert (Hbet : bet blind p = (Ok tt, set_bet blind p)).
    { unfold bet. destruct (blind >? chips p)%Z eqn:E; [ | reflexivity].
      rewrite Z.gtb_ltb in E. apply Z.ltb_lt in E. lia. }
    destruct w as [g ins out]. simpl in *.
    unfold bind, on_player. simpl. rewrite Hp, Hbet, Hset. simpl.
    eexists. split; [reflexivity | ]. simpl. repeat split. exact Hnth.
  - intros Hlt.
    assert (Hbet : bet blind p = (Raise not_enough_chips, p)).
    { unfold bet, raise. destruct (blind >? chips p)%Z eqn:E; [reflexivity | ].
      rewrite Z.gtb_ltb in E. apply Z.ltb_ge in E. lia. }
    destruct w as [[n ps b d gs pos] ins out]. simpl in *.
    unfold bind, on_player. simpl. rewrite Hp, Hbet, (list_set_same ps idx p Hp).
    reflexivity.
Qed.

Lemma blinds_bypass_the_pot_witness :
  exists w' : World,
    seat_turn 0 1 0 0 0 table_on_the_turn = (Ok 0%nat, w') /\
    game_state (game w') = game_state (game table_on_the_turn).
Proof.
  destruct (blinds_bypass_the_pot table_on_the_turn 0 1 0 0 0
              (mkPlayer 0 75 5 [R2 of Hearts; R6 of Hearts] None true) SMALL_BLIND)
    as [Hok _]; try reflexivity; [left; split; reflexivity | ].
  destruct Hok as (w' & Hrun & _ & Hgs & _); [vm_compute; discriminate | ].
  exists w'. split; [exact Hrun | exact Hgs].
Defined.

(** ** Steps and what they keep *)

Lemma triple_bind {A B : Type} (P : World -> Prop) (m : M World A) (k : A -> M World B)
      (Q : A -> World -> Prop) (Q' : B -> World -> Prop) (E : Exn -> World -> Prop) :
  triple P m Q E -> (forall a : A, triple (Q a) (k a) Q' E) -> triple P (bind m k) Q' E.
Proof.
  intros Hm Hk w r w' HP Hrun. unfold bind in Hrun.
  destruct (m w) as [[a | e] w1] eqn:Em.
  - exact (Hk a w1 r w' (Hm w (Ok a) w1 HP Em) Hrun).
  - inversion Hrun; subst. exact (Hm w (Raise e) w' HP Em).
Qed.

Lemma triple_ret {A : Type} (P : World -> Prop) (a : A)
      (Q : A -> World -> Prop) (E : Exn -> World -> Prop) :
  (forall w, P w -> Q a w) -> triple P (ret a) Q E.
Proof. intros H w r w' HP Hrun. inversion Hrun; subst. now apply H. Qed.

Lemma triple_weaken {A : Type} (P P' : World -> Prop) (m : M World A)
      (Q Q' : A -> World -> Prop) (E E' : Exn -> World -> Prop) :
  triple P m Q E ->
  (forall w, P' w -> P w) ->
  (forall a w, Q a w -> Q' a w) ->
  (forall e w, E e w -> E' e w) ->
  triple P' m Q' E'.
Proof.
  intros Hm HP HQ HE w r w' HP' Hrun.
  specialize (Hm w r w' (HP w HP') Hrun). destruct r; auto.
Qed.

Lemma list_set_spec {A : Type} (l : list A) :
  forall (i : nat) (v : A) (l' : list A),
    list_set l i v = Some l' ->
    length l' = length l /\
    (forall j : nat, nth_error l' j = if (j =? i)%nat then Some v else nth_error l j).
Proof.
  induction l as [ | x l IH]; intros [ | i] v l' H; simpl in H; try discriminate.
  - inversion H; subst. split; [reflexivity | ]. intros [ | j]; reflexivity.
  - destruct (list_set l i v) as [l1 | ] eqn:E; [ | discriminate].
    inversion H; subst. destruct (IH i v l1 E) as [Hl Hn].
    split; [simpl; now rewrite Hl | ]. intros [ | j]; simpl; [reflexivity | apply Hn].
Qed.

Lemma list_set_Forall {A : Type} (P : A -> Prop) (l : list A) :
  forall (i : nat) (v : A) (l' : list A),
    list_set l i v = Some l' -> Forall P l -> P v -> Forall P l'.
Proof.
  induction l as [ | x l IH]; intros [ | i] v l' H Hall Hv; simpl in H; try discriminate.
  - inversion H; subst. inversion Hall; subst. now constructor.
  - destruct (list_set l i v) as [l1 | ] eqn:E; [ | discriminate].
    inversion H; subst. inversion Hall; subst. constructor; [assumption | ].
    now apply (IH i v).
Qed.

Lemma list_set_map {A B : Type} (f : A -> B) (l : list A) :
  forall (i : nat) (x v : A) (l' : list A),
    nth_error l i = Some x -> list_set l i v = Some l' -> f v = f x ->
    map f l' = map f l.
Proof.
  induction l as [ | y l IH]; intros [ | i] x v l' Hn H Hf; simpl in *; try discriminate.
  - inversion H; subst. inversion Hn; subst. simpl. now rewrite Hf.
  - destruct (list_set l i v) as [l1 | ] eqn:E; [ | discriminate].
    inversion H; subst. simpl. f_equal. now apply (IH i x v).
Qed.

Lemma seat_ok_mono (B m m' : Z) (p : Player) :
  (m <= m')%Z -> seat_ok B m p -> seat_ok B m' p.
Proof. unfold seat_ok. intros Hm [H1 H2]. split; lia. Qed.

(** Replacing one seat by a seat with the same id and cards, itself in
    order, together with a game state whose max bet has not gone down,
    keeps the table in order and the cards where they were. *)
Lemma table_step (n : nat) (B : Z) (g : Poker) (idx : nat) (p p' : Player)
      (ps : list Player) (gs' : GameState) :
  table_ok n B g ->
  nth_error (players g) idx = Some p ->
  list_set (players g) idx p' = Some ps ->
  player_id p' = player_id p ->
  hand p' = hand p ->
  seat_ok B (current_max_bet gs') p' ->
  (current_max_bet (game_state g) <= current_max_bet gs')%Z ->
  (0 <= pot_size gs')%Z ->
  length (players_in_game gs') = n ->
  table_ok n B (mkPoker (num_players g) ps (board g) (deck g) gs' (player_positions g)) /\
  table_cards (mkPoker (num_players g) ps (board g) (deck g) gs' (player_positions g))
  = table_cards g.
Proof.
  intros (Hn & Hlen & Hids & Hflags & Hpos & Hseats & Hmax & Hpot & Hnum)
         Hp Hset Hid Hhand Hseat Hmono Hpot' Hflags'.
  destruct (list_set_spec _ _ _ _ Hset) as [Hl Hnth].
  split.
  - unfold table_ok. simpl. repeat split; try assumption; try lia.
    + intros j q Hq. rewrite Hnth in Hq.
      destruct (Nat.eqb_spec j idx) as [-> | Hne].
      * inversion Hq; subst. rewrite Hid. now apply Hids.
      * now apply Hids.
    + apply (list_set_Forall _ _ _ _ _ Hset); [ | exact Hseat].
      eapply Forall_impl; [ | exact Hseats]. intros q. now apply seat_ok_mono.
  - unfold table_cards. simpl. now rewrite (list_set_map hand _ _ _ _ _ Hp Hset Hhand).
Qed.

Lemma accept_action_valid {py : Str} (s act : string) :
  accept_action s = Some act -> In act VALID_ACTIONS.
Proof.
  unfold accept_action.
  destruct (existsb (String.eqb (lower_strip s)) VALID_ACTIONS) eqn:E; [ | discriminate].
  intros H. inversion H; subst.
  apply existsb_exists in E. destruct E as (x & Hin & Hx).
  apply String.eqb_eq in Hx. now subst.
Qed.

Local Arguments update_max_bet : simpl never.
Local Arguments update_pot : simpl never.

(** One seat's turn keeps the table in order and the cards in place,
    whatever is typed; it can only end with the input running out or
    with a blind the seat cannot pay; and it adds at most one to the
    count of active seats, nothing for a seat at a blind position. *)
Lemma seat_turn_keeps {py : Str} (n : nat) (B : Z) (tc : list (list Card) * list Card * Deck)
      (sb bb i idx a : nat) :
  idx < n ->
  triple (fun w => table_ok n B (game w) /\ table_cards (game w) = tc)
         (seat_turn sb bb i idx a)
         (fun a' w => (table_ok n B (game w) /\ table_cards (game w) = tc) /\
                      a <= a' <= a + (if ((i =? sb) || (i =? bb))%nat then 0 else 1))
         (fun e w => stops_a_hand e /\
                     table_ok n B (game w) /\ table_cards (game w) = tc).
Proof.
  intros Hidx [[np ps b d gs pos] ins out] r w' [Hok Htc] Hrun.
  simpl in Hok, Htc.
  pose proof Hok as (Hn & Hlen & Hids & Hflags & Hpos & Hseats & Hmax & Hpot & Hnum).
  simpl in Hlen, Hids, Hflags, Hpos, Hseats, Hmax, Hpot, Hnum.
  destruct (nth_error ps idx) as [p | ] eqn:Hp; [ | apply nth_error_None in Hp; lia].
  assert (Hid : player_id p = idx) by now apply Hids.
  assert (Hseat : seat_ok B (current_max_bet gs) p).
  { rewrite Forall_forall in Hseats. apply Hseats. now apply nth_error_In with idx. }
  destruct Hseat as [Hchips Hbet].
  assert (Hstep : forall p' ps' gs',
             list_set ps idx p' = Some ps' ->
             player_id p' = player_id p -> hand p' = hand p ->
             seat_ok B (current_max_bet gs') p' ->
             (current_max_bet gs <= current_max_bet gs')%Z ->
             (0 <= pot_size gs')%Z -> length (players_in_game gs') = n ->
             table_ok n B (mkPoker np ps' b d gs' pos) /\
             table_cards (mkPoker np ps' b d gs' pos) = tc).
  { intros p' ps' gs' Hset H1 H2 H3 H4 H5 H6. rewrite <- Htc.
    exact (table_step n B (mkPoker np ps b d gs pos) idx p p' ps' gs'
                      Hok Hp Hset H1 H2 H3 H4 H5 H6). }
  unfold seat_turn, bind, get_player in Hrun. simpl in Hrun. rewrite Hp in Hrun.
  destruct (is_active p) eqn:Hact; simpl in Hrun.
  2: { inversion Hrun; subst. simpl. split; [now split | ].
       destruct ((i =? sb) || (i =? bb))%nat; lia. }
  destruct (i =? sb)%nat eqn:Esb.
  { unfold on_player in Hrun. simpl in Hrun. rewrite Hp in Hrun.
    unfold bet, raise in Hrun.
    destruct (SMALL_BLIND >? chips p)%Z eqn:E.
    - rewrite (list_set_same ps idx p Hp) in Hrun. inversion Hrun; subst. simpl.
      split; [right; left; reflexivity | now split].
    - rewrite Z.gtb_ltb in E. apply Z.ltb_ge in E.
      destruct (list_set_nth_error ps idx p (set_bet SMALL_BLIND p) Hp) as (ps' & Hset & _).
      rewrite Hset in Hrun. simpl in Hrun. inversion Hrun; subst. simpl.
      split; [ | lia].
      apply (Hstep (set_bet SMALL_BLIND p)); simpl; auto; try lia.
      unfold seat_ok, SMALL_BLIND in *. simpl. lia. }
  destruct (i =? bb)%nat eqn:Ebb.
  { unfold on_player in Hrun. simpl in Hrun. rewrite Hp in Hrun.
    unfold bet, raise in Hrun.
    destruct (BIG_BLIND >? chips p)%Z eqn:E.
    - rewrite (list_set_same ps idx p Hp) in Hrun. inversion Hrun; subst. simpl.
      split; [right; left; reflexivity | now split].
    - rewrite Z.gtb_ltb in E. apply Z.ltb_ge in E.
      destruct (list_set_nth_error ps idx p (set_bet BIG_BLIND p) Hp) as (ps' & Hset & _).
      rewrite Hset in Hrun. simpl in Hrun. inversion Hrun; subst. simpl.
      split; [ | lia].
      apply (Hstep (set_bet BIG_BLIND p)); simpl; auto; try lia.
      unfold seat_ok, BIG_BLIND in *. simpl. lia. }
  simpl orb.
  unfold input_until in Hrun. simpl in Hrun.
  destruct (read_until accept_action ins) as [[act | e] rest] eqn:Eact.
  2: { apply read_until_error in Eact. destruct Eact as (-> & -> & _).
       inversion Hrun; subst. simpl. split; [left; reflexivity | now split]. }
  assert (Hvalid : In act VALID_ACTIONS).
  { apply read_until_ok in Eact. destruct Eact as (pre & s & _ & _ & Hs).
    now apply accept_action_valid in Hs. }
  destruct Hvalid as [<- | [<- | [<- | []]]]; simpl in Hrun.
  - (* fold *)
    destruct (list_set_nth_error ps idx p (set_active false p) Hp) as (ps1 & Hset1 & Hnth1 & _).
    unfold on_player in Hrun. simpl in Hrun. rewrite Hp in Hrun. simpl in Hrun.
    rewrite Hset1 in Hrun. simpl in Hrun. rewrite Hnth1 in Hrun. simpl in Hrun.
    change (set_active false (set_active false p)) with (set_active false p) in Hrun.
    rewrite (list_set_same ps1 idx _ Hnth1) in Hrun. simpl in Hrun.
    unfold on_game_state, player_fold in Hrun. simpl in Hrun.
    destruct (list_set_in_range (players_in_game gs) (player_id p) false) as (fl & Hfl & _ & Hfll);
      [lia | ].
    rewrite Hfl in Hrun. simpl in Hrun. rewrite Hnth1 in Hrun. simpl in Hrun.
    inversion Hrun; subst. simpl. split; [ | lia].
    match goal with
    | |- context [update_max_bet ?c ?g0] =>
        destruct (update_max_bet_max c g0) as (Hm' & Hp' & Hf')
    end.
    apply (Hstep (set_active false p)); auto;
      rewrite ?Hm', ?Hp', ?Hf'; unfold seat_ok, update_pot; simpl; lia.
  - (* call *)
    unfold on_player in Hrun. simpl in Hrun. rewrite Hp in Hrun.
    rewrite call_result in Hrun.
    set (committed := if (current_max_bet gs >? chips p)%Z then chips p
                      else current_max_bet gs) in *.
    assert (Hcommit : (if (current_max_bet gs >? chips p)%Z then set_bet (chips p) p
                       else set_bet (current_max_bet gs) p) = set_bet committed p)
      by (unfold committed; now destruct (current_max_bet gs >? chips p)%Z).
    rewrite Hcommit in Hrun.
    assert (Hc : (0 <= committed <= chips p /\ committed <= current_max_bet gs)%Z).
    { unfold committed. destruct (current_max_bet gs >? chips p)%Z eqn:E.
      - rewrite Z.gtb_ltb in E. apply Z.ltb_lt in E. lia.
      - rewrite Z.gtb_ltb in E. apply Z.ltb_ge in E. lia. }
    destruct (list_set_nth_error ps idx p (set_bet committed p) Hp) as (ps1 & Hset1 & Hnth1 & _).
    rewrite Hset1 in Hrun. simpl in Hrun. rewrite Hnth1 in Hrun. simpl in Hrun.
    inversion Hrun; subst. simpl. split; [ | lia].
    destruct (update_max_bet_max committed (update_pot committed gs)) as (Hm' & Hp' & Hf').
    apply (Hstep (set_bet committed p)); auto;
      rewrite ?Hm', ?Hp', ?Hf'; unfold seat_ok, update_pot; simpl; lia.
  - (* raise *)
    unfold input_until_raising in Hrun. simpl in Hrun.
    destruct (read_until_raising (accept_bet (current_max_bet gs) (chips p)) rest)
      as [[amount | e] rest'] eqn:Ebet.
    2: { simpl in Hrun. inversion Hrun; subst. simpl. split; [ | now split].
         apply bet_prompt_error in Ebet.
         destruct Ebet as [(-> & _) | (pre & s & _ & _ & Hd & Hi)];
           [left; reflexivity | right; right; exists s; auto]. }
    assert (Hlegal : (current_max_bet gs < amount <= chips p /\ 20 <= amount)%Z).
    { apply read_until_raising_ok in Ebet. destruct Ebet as (pre & s & _ & _ & Hs).
      now apply accept_bet_some in Hs. }
    simpl in Hrun. unfold on_player in Hrun. simpl in Hrun. rewrite Hp in Hrun.
    assert (Hraise : raise_bet amount p = (Ok tt, set_bet amount p)).
    { unfold raise_bet, bet.
      destruct (Z.leb_spec amount (current_bet p)); [lia | ].
      destruct (amount >? chips p)%Z eqn:E; [ | reflexivity].
      rewrite Z.gtb_ltb in E. apply Z.ltb_lt in E. lia. }
    rewrite Hraise in Hrun.
    destruct (list_set_nth_error ps idx p (set_bet amount p) Hp) as (ps1 & Hset1 & Hnth1 & _).
    rewrite Hset1 in Hrun. simpl in Hrun. rewrite Hnth1 in Hrun. simpl in Hrun.
    inversion Hrun; subst. simpl. split; [ | lia].
    destruct (update_max_bet_max amount (update_pot amount gs)) as (Hm' & Hp' & Hf').
    apply (Hstep (set_bet amount p)); auto;
      rewrite ?Hm', ?Hp', ?Hf'; unfold seat_ok, update_pot; simpl; lia.
Qed.

Lemma seats_loop_keeps {py : Str} (n : nat) (B : Z) (tc : list (list Card) * list Card * Deck)
      (sb bb : nat) (order : list (nat * nat)) :
  (forall x, In x order -> snd x < n) ->
  forall a : nat,
    triple (fun w => table_ok n B (game w) /\ table_cards (game w) = tc)
           (seats_loop sb bb order a)
           (fun a' w => (table_ok n B (game w) /\ table_cards (game w) = tc) /\
                        a <= a' <= a + asked sb bb order)
           (fun e w => stops_a_hand e /\
                       table_ok n B (game w) /\ table_cards (game w) = tc).
Proof.
  induction order as [ | [i idx] t IH]; intros Hin a w r w' HP Hrun.
  - inversion Hrun; subst. split; [exact HP | unfold asked; simpl; lia].
  - simpl in Hrun. unfold bind in Hrun.
    destruct (seat_turn sb bb i idx a w) as [[a1 | e] w1] eqn:E1.
    + pose proof (seat_turn_keeps n B tc sb bb i idx a (Hin (i, idx) (or_introl eq_refl))
                                  w (Ok a1) w1 HP E1) as [HP1 Ha1].
      pose proof (IH (fun x Hx => Hin x (or_intror Hx)) a1 w1 r w' HP1 Hrun) as Hrest.
      destruct r as [a' | e'].
      * destruct Hrest as [HP' Ha']. split; [exact HP' | ].
        unfold asked in *. simpl.
        destruct ((i =? sb) || (i =? bb))%nat; simpl; lia.
      * exact Hrest.
    + inversion Hrun; subst.
      exact (seat_turn_keeps n B tc sb bb i idx a (Hin (i, idx) (or_introl eq_refl))
                             w (Raise e) w' HP E1).
Qed.

Lemma combine_seq_high (l : list nat) :
  forall s : nat, 2 <= s -> asked 0 1 (combine (seq s (length l)) l) = length l.
Proof.
  unfold asked. induction l as [ | x l IH]; intros s Hs; [reflexivity | ].
  simpl. destruct s as [ | [ | s']]; try lia. simpl. f_equal. apply IH. lia.
Qed.

Lemma asked_enumerate (l : list nat) :
  asked 0 1 (enumerate l) = length l - 2.
Proof.
  unfold enumerate. destruct l as [ | x [ | y t]]; try reflexivity.
  change (asked 0 1 (combine (seq 0 (length (x :: y :: t))) (x :: y :: t)))
    with (asked 0 1 (combine (seq 2 (length t)) t)).
  rewrite combine_seq_high by lia. simpl. lia.
Qed.

Lemma rotated_seats_spec (s n : nat) :
  length (rotated_seats s n) = n /\ (forall idx, In idx (rotated_seats s n) -> idx < n).
Proof.
  unfold rotated_seats. split.
  - rewrite length_app, Nat.add_comm, <- length_app, firstn_skipn. apply length_seq.
  - intros idx H.
    assert (Hin : In idx (seq 0 n)).
    { rewrite <- (firstn_skipn s (seq 0 n)). apply in_or_app.
      apply in_app_or in H. tauto. }
    apply in_seq in Hin. lia.
Qed.

(** A betting round keeps the table in order and the cards in place,
    ends only as a seat's turn can, and reports at most two seats fewer
    than the table has as active. *)
Lemma betting_round_keeps {py : Str} (n : nat) (B : Z) (tc : list (list Card) * list Card * Deck)
      (first_round : bool) :
  triple (fun w => table_ok n B (game w) /\ table_cards (game w) = tc)
         (betting_round first_round)
         (fun a w => (table_ok n B (game w) /\ table_cards (game w) = tc) /\ a <= n - 2)
         (fun e w => stops_a_hand e /\
                     table_ok n B (game w) /\ table_cards (game w) = tc).
Proof.
  intros w r w' HP Hrun.
  pose proof HP as [(Hn & Hlen & _ & _ & Hpos & _) _].
  unfold betting_round, bind, get in Hrun. rewrite Hpos in Hrun.
  destruct n as [ | [ | n']]; try lia. simpl seq in Hrun. cbv iota in Hrun.
  rewrite Hlen in Hrun.
  set (start := if first_round then 2 else 0) in *.
  destruct (rotated_seats_spec start (S (S n'))) as [Hrl Hrin].
  pose proof (seats_loop_keeps (S (S n')) B tc 0 1
                (enumerate (rotated_seats start (S (S n'))))) as Hloop.
  assert (Hin : forall x, In x (enumerate (rotated_seats start (S (S n')))) ->
                          snd x < S (S n')).
  { intros [i idx] Hx. apply in_enumerate in Hx. apply nth_error_In in Hx.
    simpl. now apply Hrin. }
  specialize (Hloop Hin 0 w r w' HP Hrun).
  rewrite asked_enumerate, Hrl in Hloop.
  destruct r as [a | e]; [ | exact Hloop].
  destruct Hloop as [HP' Ha]. split; [exact HP' | lia].
Qed.

(** ** How many cards a result holds *)

Lemma with_rank_length (r : Rank) (cs : list Card) :
  length (with_rank r cs) = rank_count r cs.
Proof.
  unfold with_rank, rank_count, rank_eqb.
  induction cs as [ | c cs IH]; [reflexivity | ]. simpl.
  destruct (rank_eq_dec (rank c) r); simpl; now rewrite IH.
Qed.

Lemma with_without_length (r : Rank) (cs : list Card) :
  length (with_rank r cs) + length (without_rank r cs) = length cs.
Proof.
  unfold with_rank, without_rank.
  induction cs as [ | c cs IH]; [reflexivity | ]. simpl.
  destruct (rank_eqb (rank c) r); simpl; lia.
Qed.

Lemma two_ranks_length (r1 r2 : Rank) (cs : list Card) :
  r1 <> r2 -> length (with_rank r1 cs) + length (with_rank r2 cs) <= length cs.
Proof.
  intros Hne. unfold with_rank.
  induction cs as [ | c cs IH]; [simpl; lia | ]. simpl.
  destruct (rank_eqb (rank c) r1) eqn:E1, (rank_eqb (rank c) r2) eqn:E2; simpl; try lia.
  apply rank_eqb_eq in E1, E2. congruence.
Qed.

Lemma by_rank_desc_length (cs : list Card) : length (by_rank_desc cs) = length cs.
Proof. apply Permutation_length. apply sorted_rev_perm. Qed.

Lemma find_count_is (cs : list Card) (k : nat) (rc : Rank * nat) :
  find (fun rc => (snd rc =? k)%nat) (get_counts cs) = Some rc ->
  rank_count (fst rc) cs = k.
Proof.
  intros H. apply find_some in H. destruct H as [Hin Hk].
  apply Nat.eqb_eq in Hk. destruct rc as [r n]. simpl in *. subst n.
  apply get_counts_In in Hin. destruct Hin as [Hin _]. now symmetry.
Qed.

Lemma get_pairs_counts (cs : list Card) (n : nat) (r : Rank) :
  In r (get_pairs (get_counts cs) n) -> rank_count r cs = 2.
Proof.
  unfold get_pairs. intros H. apply in_firstn in H. apply in_map_iff in H.
  destruct H as ([r' k] & <- & H). apply filter_In in H. destruct H as [Hin Hk].
  simpl in *. apply Nat.eqb_eq in Hk. subst k.
  apply get_counts_In in Hin. destruct Hin as [Hin _]. now symmetry.
Qed.

Lemma best_five_cards_shape (cs : list Card) :
  is_tuple (best_five_cards cs) = (5 <=? length cs)%nat.
Proof.
  unfold best_five_cards. cbv zeta.
  set (vals := sorted_rev Nat.ltb (map card_value cs)).
  assert (Hlen : length vals = length cs).
  { unfold vals. rewrite (Permutation_length (sorted_rev_perm _ _)). apply length_map. }
  destruct (Nat.leb_spec 5 (length cs)) as [Hge | Hlt].
  - destruct (combinations_first vals 5) as (rest & Hc); [lia | ]. now rewrite Hc.
  - rewrite combinations_short by lia. reflexivity.
Qed.

(** The result holds five cards or more exactly when hole and board do
    and the category is Straight or better. *)
Lemma result_length (hand board : list Card) :
  hand <> [] ->
  (5 <=? length (snd (evaluate_hand hand board)))%nat
  = (5 <=? length (hand ++ board))%nat && (6 <=? fst (evaluate_hand hand board))%nat.
Proof.
  intros Hne. destruct hand as [ | h0 hrest]; [congruence | ].
  unfold evaluate_hand, evaluate_hand_body. cbv zeta.
  set (all_cards := (h0 :: hrest) ++ board).
  destruct (is_flush all_cards && is_straight all_cards).
  { destruct (rank_set_eqb (map rank all_cards) royal_ranks); cbn [fst snd];
      now rewrite andb_true_r. }
  unfold has_four_of_a_kind, get_four_of_a_kind.
  destruct (find (fun rc => (snd rc =? 4)%nat) (get_counts all_cards)) as [rc | ] eqn:E4.
  { apply find_count_is in E4. cbn [option_map nth fst snd].
    rewrite andb_true_r, length_app, by_rank_desc_length, with_rank_length, E4.
    rewrite length_firstn, by_rank_desc_length.
    pose proof (with_without_length (fst rc) all_cards) as Hw.
    rewrite with_rank_length, E4 in Hw.
    destruct (Nat.leb_spec 5 (length all_cards)), (Nat.leb_spec 5 (4 + Nat.min 1 (length (without_rank (fst rc) all_cards)))); lia. }
  cbn [option_map].
  unfold has_full_house, get_three_of_a_kind.
  destruct (find (fun rc => (snd rc =? 3)%nat) (get_counts all_cards)) as [rc | ] eqn:E3;
    cbn [option_map].
  { destruct (get_pairs (get_counts all_cards) 1) as [ | pr prs] eqn:Ep.
    - (* three of a kind, or flush, or straight *)
      destruct (is_flush all_cards); [cbn [fst snd]; now rewrite andb_true_r | ].
      destruct (is_straight all_cards); [cbn [fst snd]; now rewrite andb_true_r | ].
      unfold has_three_of_a_kind, get_three_of_a_kind. rewrite E3. cbn [option_map nth fst snd].
      apply find_count_is in E3. rewrite with_rank_length, E3.
      now rewrite andb_false_r.
    - cbn [nth fst snd].
      assert (H2 : rank_count pr all_cards = 2)
        by (apply (get_pairs_counts all_cards 1); rewrite Ep; now left).
      apply find_count_is in E3.
      rewrite andb_true_r, length_app, !by_rank_desc_length, !with_rank_length, E3, H2.
      assert (Hne' : fst rc <> pr) by (intros Heq; rewrite Heq in E3; lia).
      pose proof (two_ranks_length _ _ all_cards Hne') as Hw.
      rewrite !with_rank_length, E3, H2 in Hw.
      destruct (Nat.leb_spec 5 (length all_cards)); [reflexivity | lia]. }
  destruct (is_flush all_cards); [cbn [fst snd]; now rewrite andb_true_r | ].
  destruct (is_straight all_cards); [cbn [fst snd]; now rewrite andb_true_r | ].
  unfold has_three_of_a_kind, get_three_of_a_kind. rewrite E3. cbn [option_map].
  unfold has_two_pairs.
  destruct (length (get_pairs (get_counts all_cards) 2) =? 2)%nat eqn:E2.
  { cbn [fst snd]. rewrite andb_false_r.
    destruct (get_pairs (get_counts all_cards) 2) as [ | r1 [ | r2 [ | r3 t]]] eqn:Ep;
      simpl in E2; try discriminate.
    cbn [nth].
    rewrite length_app, !with_rank_length.
    rewrite (get_pairs_counts all_cards 2 r1), (get_pairs_counts all_cards 2 r2);
      rewrite ?Ep; simpl; auto. }
  unfold has_pair.
  destruct (get_pairs (get_counts all_cards) 1) as [ | pr prs] eqn:Ep.
  - cbn [fst snd]. replace (0 <=? ranking_of "High Card")%nat with true by reflexivity.
    cbn [fst snd length]. now rewrite andb_false_r.
  - cbn [fst snd nth]. rewrite andb_false_r, with_rank_length.
    rewrite (get_pairs_counts all_cards 1 pr) by (rewrite Ep; now left). reflexivity.
Qed.

(** ** A showdown that cannot fail *)

Lemma key_gt_same_shape (a b : nat * PySeq) :
  (fst a = fst b -> is_tuple (snd a) = is_tuple (snd b)) ->
  exists v : bool, key_gt a b = Ok v.
Proof.
  intros H. unfold key_gt.
  destruct (Nat.eqb_spec (fst a) (fst b)) as [E | E]; [ | eauto].
  destruct (pyseq_eqb (snd a) (snd b)); [eauto | ].
  specialize (H E). unfold pyseq_gt.
  destruct (snd a), (snd b); simpl in H; try discriminate; eauto.
Qed.

Lemma max_ranking_from_ok (l : list (nat * list Card)) :
  forall best : nat * list Card,
    (forall x y, In x (best :: l) -> In y (best :: l) ->
                 exists v, key_gt (showdown_key x) (showdown_key y) = Ok v) ->
    exists m : nat * list Card, max_ranking_from best l = Ok m.
Proof.
  induction l as [ | x t IH]; intros best H; simpl; [eauto | ].
  destruct (H x best) as ([ | ] & Hv); simpl; auto; rewrite Hv.
  - apply IH. intros y z Hy Hz. apply H; simpl in *; tauto.
  - apply IH. intros y z Hy Hz. apply H; simpl in *; tauto.
Qed.

Lemma map_res_ok {A B : Type} (f : A -> Res B) (l : list A) :
  (forall x, In x l -> exists y, f x = Ok y) -> exists ys, map_res f l = Ok ys.
Proof.
  induction l as [ | a l IH]; intros H; simpl; [eauto | ].
  destruct (H a (or_introl eq_refl)) as (y & Hy). rewrite Hy.
  destruct IH as (ys & Hys); [intros x Hx; apply H; now right | ].
  rewrite Hys. eauto.
Qed.

Lemma category_has_a_name (hand board : list Card) :
  hand <> [] -> exists name, hand_category (fst (evaluate_hand hand board)) = Ok name.
Proof.
  intros Hne. rewrite evaluate_hand_category by exact Hne.
  unfold category_of.
  destruct (is_flush (hand ++ board)), (is_straight (hand ++ board)),
    (rank_set_eqb (map rank (hand ++ board)) royal_ranks),
    (is_some (has_four_of_a_kind (hand ++ board))),
    (is_some (has_full_house (hand ++ board))),
    (is_some (has_three_of_a_kind (hand ++ board))),
    (is_some (has_two_pairs (hand ++ board))),
    (is_some (has_pair (hand ++ board)));
    cbv [andb]; eexists; vm_compute; reflexivity.
Qed.

(** At a table where every seat holds the same number of cards, at
    least one, [show_results] returns. *)
Lemma show_results_ok (ps : list Player) (b : list Card) (k : nat) :
  ps <> [] -> 0 < k -> (forall p, In p ps -> length (hand p) = k) ->
  exists (categories : list string) (winners : list nat),
    show_results ps b = Ok (categories, winners).
Proof.
  intros Hps Hk Hhands. unfold show_results.
  set (rs := map (fun p => evaluate_hand (hand p) b) ps).
  assert (Hrs : forall x, In x rs ->
                  exists h, x = evaluate_hand h b /\ length h = k).
  { intros x Hx. unfold rs in Hx. apply in_map_iff in Hx.
    destruct Hx as (p & <- & Hp). exists (hand p). auto. }
  assert (Hkey : forall x y, In x rs -> In y rs ->
                   exists v, key_gt (showdown_key x) (showdown_key y) = Ok v).
  { intros x y Hx Hy.
    destruct (Hrs x Hx) as (hx & -> & Hlx). destruct (Hrs y Hy) as (hy & -> & Hly).
    apply key_gt_same_shape. unfold showdown_key. cbn [fst snd]. intros Hc.
    rewrite !best_five_cards_shape, !result_length, !length_app, Hlx, Hly, Hc;
      [reflexivity | | ]; intros ->; simpl in *; lia. }
  destruct rs as [ | r0 rs'] eqn:E.
  { destruct ps; [congruence | discriminate]. }
  destruct (max_ranking_from_ok rs' r0 Hkey) as (m & Hm). rewrite Hm.
  destruct (map_res_ok hand_category (map fst (r0 :: rs'))) as (cs & Hcs).
  { intros c Hc. apply in_map_iff in Hc. destruct Hc as (x & <- & Hx).
    destruct (Hrs x Hx) as (h & -> & Hl).
    apply category_has_a_name. intros ->. simpl in Hl. lia. }
  rewrite Hcs. eauto.
Qed.

(** ** The phases of a hand *)

Lemma betting_round_phase {py : Str} (n : nat) (D : list Card) (L bl nb dl : nat) (first_round : bool) :
  triple (phase n D L bl nb dl)
         (betting_round first_round)
         (fun a w => phase n D L bl nb dl w /\ a <= n - 2)
         (fun e w => stops_a_hand e /\ phase n D L bl nb dl w).
Proof.
  intros w r w' [Hok Hcards] Hrun.
  pose proof (betting_round_keeps n 100 (table_cards (game w)) first_round
                                  w r w' (conj Hok eq_refl) Hrun) as H.
  unfold phase. destruct r as [a | e].
  - destruct H as [[Hok' Htc] Ha]. rewrite Htc. auto.
  - destruct H as (He & Hok' & Htc). rewrite Htc. auto.
Qed.

Lemma perm_by_count (l1 l2 : list Card) :
  (forall c, count_occ card_eq_dec l1 c = count_occ card_eq_dec l2 c) -> Permutation l1 l2.
Proof. apply Permutation_count_occ. Qed.

Lemma concat_empty_hands (hands : list (list Card)) :
  Forall (fun h => length h = 0) hands -> concat hands = [].
Proof.
  induction 1 as [ | h t Hh _ IH]; [reflexivity | ]. simpl.
  destruct h; [exact IH | discriminate].
Qed.

Lemma assign_hands_ok (hs : list (list Card)) :
  forall ps : list Player,
    length hs = length ps ->
    exists ps' : list Player,
      assign_hands hs ps = Some ps' /\ map hand ps' = hs /\ Forall2 same_seat ps ps'.
Proof.
  induction hs as [ | h hs IH]; intros [ | p ps] Hlen; simpl in Hlen; try discriminate.
  - exists []. repeat split. constructor.
  - destruct (IH ps) as (ps' & Ha & Hm & Hf); [lia | ].
    exists (set_hand h p :: ps'). simpl. rewrite Ha. simpl. rewrite Hm.
    repeat split. constructor; [repeat split | exact Hf].
Qed.

Lemma Forall2_nth_error_r {A B : Type} (R : A -> B -> Prop) (l : list A) (l' : list B) :
  Forall2 R l l' ->
  forall (i : nat) (y : B), nth_error l' i = Some y ->
    exists x : A, nth_error l i = Some x /\ R x y.
Proof.
  induction 1 as [ | x y l l' Hxy _ IH]; intros [ | i] z Hz; simpl in *; try discriminate.
  - inversion Hz; subst. eauto.
  - now apply IH.
Qed.

Lemma same_seats_table (n : nat) (B : Z) (np : nat) (ps ps' : list Player)
      (b b' : list Card) (d d' : Deck) (gs : GameState) (pos : list nat) :
  Forall2 same_seat ps ps' ->
  table_ok n B (mkPoker np ps b d gs pos) -> table_ok n B (mkPoker np ps' b' d' gs pos).
Proof.
  intros Hf (Hn & Hlen & Hids & Hflags & Hpos & Hseats & Hmax & Hpot & Hnum).
  simpl in *. unfold table_ok. simpl.
  repeat split; try assumption; try lia.
  - rewrite <- (Forall2_length Hf). exact Hlen.
  - intros i p' Hp'.
    destruct (Forall2_nth_error_r _ _ _ Hf i p' Hp') as (p & Hp & (Hid & _)).
    rewrite Hid. now apply Hids.
  - clear -Hf Hseats. induction Hf as [ | p p' ps ps' (Hid & Hc & Hb) _ IH]; [constructor | ].
    inversion Hseats as [ | ? ? Hp Hrest]; subst.
    constructor; [ | now apply IH].
    unfold seat_ok in *. rewrite Hc, Hb. exact Hp.
Qed.

Lemma deal_hole_cards_phase (n : nat) (D : list Card) (dl : nat) :
  2 * n <= dl ->
  triple (phase n D 0 0 0 dl)
         deal_hole_cards
         (fun _ w => phase n D 2 0 0 (dl - 2 * n) w)
         (fun _ _ => False).
Proof.
  intros Hdl [[np ps b d gs pos] ins out] r w' [Hok Hcards] Hrun.
  pose proof Hok as (Hn & Hlen & _ & _ & _ & _ & _ & _ & Hnum).
  destruct Hcards as (Hhands & Hbl & Hdlen & burned & Hnb & Hperm).
  simpl in Hlen, Hnum, Hhands, Hbl, Hdlen, Hperm.
  rewrite (concat_empty_hands _ Hhands) in Hperm.
  destruct b; [ | discriminate]. destruct burned; [ | discriminate]. simpl in Hperm.
  unfold deal_hole_cards, bind, get, on_deck in Hrun.
  cbn [game deck num_players] in Hrun.
  subst np. change 2%Z with (Z.of_nat 2) in Hrun.
  rewrite (deal_guards_pass n 2 d) in Hrun by lia.
  destruct (deal_rows_ok 2 (repeat [] n) d) as (hs & Hdeal & Hl & Hnth).
  { rewrite repeat_length. lia. }
  rewrite repeat_length in Hdeal, Hl.
  pose proof (deal_rows_perm 2 _ _ _ _ Hdeal) as Hp2.
  rewrite concat_repeat_nil in Hp2. simpl in Hp2.
  rewrite Hdeal in Hrun. simpl in Hrun.
  destruct (assign_hands_ok hs ps) as (ps' & Ha & Hm & Hf); [lia | ].
  rewrite Ha in Hrun. injection Hrun as <- <-. simpl.
  split.
  - apply (same_seats_table n 100 n ps ps' [] [] d _ gs pos Hf Hok).
  - unfold cards_ok, table_cards. simpl. rewrite Hm.
    split; [ | split; [reflexivity | split]].
    + apply Forall_forall. intros h Hh. apply In_nth_error in Hh. destruct Hh as (i & Hi).
      assert (Hi' : i < n) by (rewrite <- Hl; apply nth_error_Some; congruence).
      destruct (Hnth i []) as (h' & Hh' & Hlen' & _).
      { rewrite nth_error_repeat by exact Hi'. reflexivity. }
      simpl in Hh'. congruence.
    + rewrite length_skipn. lia.
    + exists []. split; [reflexivity | ]. simpl.
      now rewrite Hp2.
Qed.

Lemma draw_card_takes (k : nat) (d : Deck) :
  0 < k -> k <= length (cards d) ->
  draw_card (Z.of_nat k) d = (Ok (firstn k (cards d)), mkDeck (skipn k (cards d))).
Proof.
  intros Hk Hlen. unfold draw_card.
  destruct (Z.leb_spec (Z.of_nat k) 0); [lia | ].
  destruct (Z.of_nat k >? Z.of_nat (length (cards d)))%Z eqn:E.
  - rewrite Z.gtb_ltb in E. apply Z.ltb_lt in E. lia.
  - now rewrite Nat2Z.id.
Qed.

Lemma burn_and_draw_phase (n : nat) (D : list Card) (L bl nb dl k : nat) :
  0 < k -> k + 1 <= dl ->
  triple (phase n D L bl nb dl)
         (burn_and_draw (Z.of_nat k))
         (fun _ w => phase n D L (bl + k) (nb + 1) (dl - (k + 1)) w)
         (fun _ _ => False).
Proof.
  intros Hk Hdl [[np ps b [cs] gs pos] ins out] r w' [Hok Hcards] Hrun.
  destruct Hcards as (Hhands & Hbl & Hdlen & burned & Hnb & Hperm).
  cbn [table_cards fst snd game players board deck cards] in Hok, Hhands, Hbl, Hdlen, Hperm.
  destruct cs as [ | c0 rest]; [simpl in Hdlen; lia | ]. simpl in Hdlen.
  unfold burn_and_draw, bind, on_deck, modify in Hrun. cbn [game deck] in Hrun.
  rewrite draw_one in Hrun.
  cbn [set_game set_deck game deck] in Hrun.
  rewrite (draw_card_takes k) in Hrun by (cbn [cards]; lia).
  cbn [cards] in Hrun.
  injection Hrun as <- <-.
  split.
  - apply (same_seats_table n 100 np ps ps b _ (mkDeck (c0 :: rest)) _ gs pos); [ | exact Hok].
    clear. induction ps; constructor; [repeat split | assumption].
  - unfold cards_ok.
    cbn [table_cards fst snd players board deck cards game set_game set_deck set_board].
    split; [exact Hhands | ].
    split; [rewrite length_app, length_firstn; lia | ].
    split; [rewrite length_skipn; lia | ].
    exists (burned ++ [c0]).
    split; [rewrite length_app; simpl; lia | ].
    rewrite <- Hperm. apply perm_by_count. intros c.
    rewrite <- (firstn_skipn k rest) at 3.
    rewrite !count_occ_app. simpl.
    destruct (card_eq_dec c0 c); rewrite ?count_occ_app; lia.
Qed.

Lemma showdown_runs (w : World) (categories : list string) (winners : list nat) :
  show_results (players (game w)) (board (game w)) = Ok (categories, winners) ->
  showdown w
  = (Ok tt, mkWorld (game w) (stdin w)
                    (stdout w ++ display_events (players (game w)) (board (game w))
                              ++ [EvResults categories winners])).
Proof.
  intros H. unfold showdown, display_hands, bind, get. rewrite display_each_spec.
  unfold show_results_io, bind, get. simpl. rewrite H.
  unfold print, modify. simpl. now rewrite <- app_assoc.
Qed.

Lemma showdown_phase (n : nat) (D : list Card) (bl nb dl : nat) :
  triple (phase n D 2 bl nb dl) showdown
         (fun _ w => phase n D 2 bl nb dl w) (fun _ _ => False).
Proof.
  intros w r w' [Hok Hcards] Hrun.
  pose proof Hok as (Hn & Hlen & _).
  destruct Hcards as (Hhands & Hrest).
  destruct (show_results_ok (players (game w)) (board (game w)) 2) as (cs & ws & Hres).
  - intros E. rewrite E in Hlen. simpl in Hlen. lia.
  - lia.
  - intros p Hp. unfold table_cards in Hhands. simpl in Hhands.
    rewrite Forall_forall in Hhands. apply Hhands. now apply in_map.
  - rewrite (showdown_runs w cs ws Hres) in Hrun. injection Hrun as <- <-.
    split; [exact Hok | ]. split; [exact Hhands | exact Hrest].
Qed.

Lemma triple_pure {A : Type} (F : Prop) (P : World -> Prop) (m : M World A)
      (Q : A -> World -> Prop) (E : Exn -> World -> Prop) :
  (F -> triple P m Q E) -> triple (fun w => P w /\ F) m Q E.
Proof. intros H w r w' [HP HF] Hrun. exact (H HF w r w' HP Hrun). Qed.

Lemma triple_no_raise {A : Type} (P : World -> Prop) (m : M World A)
      (Q : A -> World -> Prop) (E : Exn -> World -> Prop) :
  triple P m Q (fun _ _ => False) -> triple P m Q E.
Proof.
  intros H. apply (triple_weaken P P m Q Q (fun _ _ => False) E H); auto.
  intros e w [].
Qed.

Lemma hand_over_preflop (n : nat) (D : list Card) (dl : nat) (w : World) :
  phase n D 2 0 0 dl w -> hand_over n D w.
Proof. intros H. exists 0, 0, dl. auto. Qed.

Lemma hand_over_later (n : nat) (D : list Card) (bl nb dl : nat) (w : World) :
  4 <= n -> (bl = 5 /\ nb = 3) \/ (bl = 6 /\ nb = 4) \/ (bl = 7 /\ nb = 5) ->
  phase n D 2 bl nb dl w -> hand_over n D w.
Proof. intros Hn Hc H. exists bl, nb, dl. auto. Qed.

Lemma betting_round_over {py : Str} (n : nat) (D : list Card) (bl nb dl : nat) (first_round : bool) :
  (forall w, phase n D 2 bl nb dl w -> hand_over n D w) ->
  triple (phase n D 2 bl nb dl)
         (betting_round first_round)
         (fun a w => phase n D 2 bl nb dl w /\ a <= n - 2)
         (fun e w => stops_a_hand e /\ hand_over n D w).
Proof.
  intros Hover.
  apply (triple_weaken _ _ _ _ _ _ _ (betting_round_phase n D 2 bl nb dl first_round)); auto.
  intros e w [He Hp]. auto.
Qed.

Lemma river_phase {py : Str} (n : nat) (D : list Card) (dl : nat) :
  4 <= n -> 2 <= dl ->
  triple (phase n D 2 6 4 dl)
         (bind deal_river (fun _ => bind (betting_round false) (fun _ => ret tt)))
         (fun _ w => hand_over n D w)
         (fun e w => stops_a_hand e /\ hand_over n D w).
Proof.
  intros Hn Hdl.
  eapply triple_bind.
  - apply triple_no_raise. apply (burn_and_draw_phase n D 2 6 4 dl 1); lia.
  - intros u. eapply triple_bind.
    + apply betting_round_over. intros w. apply hand_over_later; auto.
    + intros a. apply triple_ret. intros w [H _].
      revert H. apply hand_over_later; auto.
Qed.

Lemma turn_phase {py : Str} (n : nat) (D : list Card) (dl : nat) :
  4 <= n -> 4 <= dl ->
  triple (phase n D 2 5 3 dl)
         (bind deal_turn
               (fun _ => bind (betting_round false)
                              (fun a => if gt1 a
                                        then bind deal_river
                                                  (fun _ => bind (betting_round false)
                                                                 (fun _ => ret tt))
                                        else ret tt)))
         (fun _ w => hand_over n D w)
         (fun e w => stops_a_hand e /\ hand_over n D w).
Proof.
  intros Hn Hdl.
  eapply triple_bind.
  - apply triple_no_raise. apply (burn_and_draw_phase n D 2 5 3 dl 1); lia.
  - intros u. eapply triple_bind.
    + apply betting_round_over. intros w. apply hand_over_later; auto.
    + intros a. destruct (gt1 a).
      * apply triple_pure. intros _. apply river_phase; lia.
      * apply triple_ret. intros w [H _]. revert H. apply hand_over_later; auto.
Qed.

Lemma flop_phase {py : Str} (n : nat) (D : list Card) (dl : nat) :
  4 <= n -> 12 <= dl ->
  triple (phase n D 2 0 0 dl)
         (bind deal_community_cards
               (fun _ => bind (betting_round false)
                  (fun a => if gt1 a
                     then bind deal_turn
                            (fun _ => bind (betting_round false)
                               (fun a' => if gt1 a'
                                  then bind deal_river
                                         (fun _ => bind (betting_round false)
                                                        (fun _ => ret tt))
                                  else ret tt))
                     else ret tt)))
         (fun _ w => hand_over n D w)
         (fun e w => stops_a_hand e /\ hand_over n D w).
Proof.
  intros Hn Hdl.
  eapply triple_bind.
  - apply triple_no_raise. unfold deal_community_cards.
    eapply triple_bind; [apply (burn_and_draw_phase n D 2 0 0 dl 3); lia | ].
    intros u. eapply triple_bind; [apply (burn_and_draw_phase n D 2 3 1 (dl - 4) 1); lia | ].
    intros u'. apply (burn_and_draw_phase n D 2 4 2 (dl - 4 - 2) 1); lia.
  - intros u. eapply triple_bind.
    + apply (betting_round_over n D 5 3). intros w. apply hand_over_later; auto.
    + intros a. destruct (gt1 a).
      * apply triple_pure. intros _. apply turn_phase; lia.
      * apply triple_ret. intros w [H _]. revert H. apply hand_over_later; auto.
Qed.

Lemma showdown_over {py : Str} (n : nat) (D : list Card) :
  triple (hand_over n D) showdown
         (fun _ w => hand_over n D w)
         (fun e w => stops_a_hand e /\ hand_over n D w).
Proof.
  intros w r w' (bl & nb & dl & Hph & Hcase) Hrun.
  pose proof (showdown_phase n D bl nb dl w r w' Hph Hrun) as H.
  destruct r as [u | e]; [ | destruct H].
  exists bl, nb, dl. auto.
Qed.

(** A hand started on a table in order, no card dealt yet and at least
    [2 * n + 12] cards in the deck, ends, normally or not, with two cards
    in every hole and a board of 0, 5, 6 or 7 cards, the table still in
    order; it fails only when the input ends or a blind cannot be paid;
    and the board stays empty at a table of fewer than four seats. *)
Lemma play_phases {py : Str} (n : nat) (D : list Card) (dl : nat) :
  2 * n + 12 <= dl ->
  triple (phase n D 0 0 0 dl) play
         (fun _ w => hand_over n D w)
         (fun e w => stops_a_hand e /\ hand_over n D w).
Proof.
  intros Hdl. unfold play.
  eapply triple_bind.
  - apply triple_no_raise. apply (deal_hole_cards_phase n D dl). lia.
  - intros u. eapply triple_bind.
    + apply (betting_round_over n D 0 0). intros w. apply hand_over_preflop.
    + intros a. eapply triple_bind; [ | intros u2; apply showdown_over].
      destruct (gt1 a) eqn:Ea.
      * apply triple_pure. intros Ha.
        assert (Hn : 4 <= n) by (unfold gt1 in Ea; apply Nat.ltb_lt in Ea; lia).
        apply flop_phase; lia.
      * apply triple_ret. intros w [H _]. revert H. apply hand_over_preflop.
Qed.

(** ** A hand from start to end *)

Lemma start_phase (n : nat) (deck0 : list Card) (lines : list string) (w : World) :
  start n deck0 lines = Ok w ->
  2 <= n <= 9 /\ phase n deck0 0 0 0 (length deck0) w /\ stdin w = lines.
Proof.
  unfold start, Poker_init.
  destruct ((n <? 2) || (9 <? n))%nat eqn:E; [discriminate | ].
  apply orb_false_iff in E. destruct E as [E1 E2].
  apply Nat.ltb_ge in E1, E2.
  intros H. injection H as <-. split; [lia | ]. split; [ | reflexivity].
  split.
  - unfold table_ok. simpl. repeat split; try lia.
    + now rewrite length_map, length_seq.
    + intros i p Hp. rewrite nth_error_map in Hp.
      destruct (nth_error (seq 0 n) i) as [j | ] eqn:Ej; [ | discriminate].
      simpl in Hp. injection Hp as <-. simpl.
      apply nth_error_In in Ej as Hin. apply in_seq in Hin.
      rewrite nth_error_seq in Ej.
      destruct (Nat.ltb_spec i n); [ | discriminate]. injection Ej as <-. reflexivity.
    + apply repeat_length.
    + apply Forall_forall. intros p Hp. apply in_map_iff in Hp.
      destruct Hp as (i & <- & _). unfold seat_ok. simpl. lia.
  - unfold cards_ok, table_cards. simpl.
    assert (Hh : Forall (fun h : list Card => length h = 0)
                        (map hand (map (fun i => Player_init i 100) (seq 0 n)))).
    { apply Forall_forall. intros h Hh. rewrite map_map in Hh. apply in_map_iff in Hh.
      destruct Hh as (i & <- & _). reflexivity. }
    split; [exact Hh | ]. split; [reflexivity | ]. split; [reflexivity | ].
    exists []. split; [reflexivity | ].
    rewrite (concat_empty_hands _ Hh). reflexivity.
Qed.

Lemma play_from_start {py : Str} (n : nat) (deck0 : list Card) (lines : list string)
      (w : World) (r : Res unit) (w' : World) :
  start n deck0 lines = Ok w ->
  Permutation deck0 (cards Deck_init) ->
  play w = (r, w') ->
  2 <= n <= 9 /\ hand_over n deck0 w' /\
  (r = Ok tt \/ exists e, r = Raise e /\ stops_a_hand e).
Proof.
  intros Hstart Hperm Hrun.
  destruct (start_phase _ _ _ _ Hstart) as (Hn & Hph & _).
  assert (Hlen : length deck0 = 52) by (rewrite (Permutation_length Hperm); reflexivity).
  pose proof (play_phases n deck0 (length deck0) ltac:(lia) w r w' Hph Hrun) as H.
  split; [exact Hn | ].
  destruct r as [[] | e].
  - split; [exact H | now left].
  - destruct H as [He Hover]. split; [exact Hover | right; eauto].
Qed.



(** X18.  Through a hand of [play] at a freshly set-up table, however
    it ends, every seat's stack stays between 0 and the 100 chips it
    started with and its current bet is never negative; the max bet and
    the pot are never negative; and the table keeps its seats, each
    with its id at its own index. *)
Theorem stacks_stay_between_0_and_100 {py : Str} :
  forall (n : nat) (deck0 : list Card) (lines : list string)
         (w : World) (r : Res unit) (w' : World),
    start n deck0 lines = Ok w ->
    Permutation deck0 (cards Deck_init) ->
    play w = (r, w') ->
    length (players (game w')) = n /\
    (forall (i : nat) (p : Player),
        nth_error (players (game w')) i = Some p ->
        player_id p = i /\ (0 <= chips p <= 100)%Z /\ (0 <= current_bet p)%Z) /\
    (0 <= current_max_bet (game_state (game w')))%Z /\
    (0 <= pot_size (game_state (game w')))%Z.
Proof.
  intros n deck0 lines w r w' Hstart Hperm Hrun.
  destruct (play_from_start _ _ _ _ _ _ Hstart Hperm Hrun)
    as (_ & (bl & nb & dl & [Hok _] & _) & _).
  destruct Hok as (_ & Hlen & Hids & _ & _ & Hseats & Hmax & Hpot & _).
  split; [exact Hlen | ]. split; [ | split; assumption].
  intros i p Hp. split; [now apply Hids | ].
  rewrite Forall_forall in Hseats.
  destruct (Hseats p (nth_error_In _ _ Hp)) as [Hc Hb]. split; [exact Hc | lia].
Qed.

Lemma stacks_stay_between_0_and_100_witness :
  length (players (game (snd (play (five_seats calls_then_folds))))) = 5 /\
  (0 <= pot_size (game_state (game (snd (play (five_seats calls_then_folds))))))%Z.
Proof.
  destruct (stacks_stay_between_0_and_100 5 stacked_deck calls_then_folds
              (five_seats calls_then_folds) (fst (play (five_seats calls_then_folds)))
              (snd (play (five_seats calls_then_folds))))
    as (Hlen & _ & _ & Hpot).
  - reflexivity.
  - exact stacked_deck_perm.
  - apply surjective_pairing.
  - split; [exact Hlen | exact Hpot].
Defined.

Lemma concat_length_uniform (hands : list (list Card)) (L : nat) :
  Forall (fun h => length h = L) hands -> length (concat hands) = length hands * L.
Proof.
  induction 1 as [ | h t Hh _ IH]; [reflexivity | ].
  simpl. rewrite length_app, IH, Hh. lia.
Qed.

(** X19.  However a hand of [play] at a freshly set-up table ends,
    every seat holds exactly two cards, the board holds no card or five,
    six or seven (the flop step deals all five community cards, and the
    turn and river steps each add one more), and no card has been lost
    or doubled: the hole cards, the board, the burnt cards and the rest
    of the deck are together the 52 cards, so hole cards and board are
    all distinct. *)
Theorem cards_are_dealt_once {py : Str} :
  forall (n : nat) (deck0 : list Card) (lines : list string)
         (w : World) (r : Res unit) (w' : World),
    start n deck0 lines = Ok w ->
    Permutation deck0 (cards Deck_init) ->
    play w = (r, w') ->
    Forall (fun p => length (hand p) = 2) (players (game w')) /\
    In (length (board (game w'))) [0; 5; 6; 7] /\
    (exists burned : list Card,
        Permutation (concat (map hand (players (game w'))) ++ board (game w')
                       ++ burned ++ cards (deck (game w')))
                    (cards Deck_init)) /\
    NoDup (concat (map hand (players (game w'))) ++ board (game w')).
Proof.
  intros n deck0 lines w r w' Hstart Hperm Hrun.
  destruct (play_from_start _ _ _ _ _ _ Hstart Hperm Hrun)
    as (_ & (bl & nb & dl & [_ Hcards] & Hcase) & _).
  destruct Hcards as (Hhands & Hbl & _ & burned & _ & Hp).
  unfold table_cards in *. simpl in Hhands, Hbl, Hp.
  assert (Hall : Permutation (concat (map hand (players (game w'))) ++ board (game w')
                                ++ burned ++ cards (deck (game w')))
                             (cards Deck_init)) by now rewrite Hp.
  split; [ | split; [ | split]].
  - apply Forall_forall. intros p Hin. rewrite Forall_forall in Hhands.
    apply Hhands. now apply in_map.
  - rewrite Hbl. simpl. destruct Hcase as [[-> _] | (_ & [[-> _] | [[-> _] | [-> _]]])]; auto.
  - exists burned. exact Hall.
  - assert (Hnd : NoDup (concat (map hand (players (game w'))) ++ board (game w')
                            ++ burned ++ cards (deck (game w')))).
    { apply (Permutation_NoDup (Permutation_sym Hall)). apply Deck_init_NoDup. }
    rewrite app_assoc in Hnd. now apply NoDup_app_remove_r in Hnd.
Qed.

Lemma cards_are_dealt_once_witness :
  In (length (board (game (snd (play (five_seats calls_then_folds)))))) [0; 5; 6; 7].
Proof.
  destruct (cards_are_dealt_once 5 stacked_deck calls_then_folds
              (five_seats calls_then_folds) (fst (play (five_seats calls_then_folds)))
              (snd (play (five_seats calls_then_folds))))
    as (_ & Hb & _).
  - reflexivity.
  - exact stacked_deck_perm.
  - apply surjective_pairing.
  - exact Hb.
Defined.

(** X20.  At a freshly set-up table of two or three seats no community
    card is ever dealt: two seats post the blinds, so at most one seat
    is asked in the first betting round, the round reports at most one
    active seat, and [play] goes to the showdown on an empty board. *)
Theorem small_tables_never_see_a_flop {py : Str} :
  forall (n : nat) (deck0 : list Card) (lines : list string)
         (w : World) (r : Res unit) (w' : World),
    start n deck0 lines = Ok w ->
    Permutation deck0 (cards Deck_init) ->
    play w = (r, w') ->
    n <= 3 ->
    board (game w') = [].
Proof.
  intros n deck0 lines w r w' Hstart Hperm Hrun Hn.
  destruct (play_from_start _ _ _ _ _ _ Hstart Hperm Hrun)
    as (_ & (bl & nb & dl & [_ Hcards] & Hcase) & _).
  destruct Hcards as (_ & Hbl & _).
  unfold table_cards in Hbl. simpl in Hbl.
  destruct Hcase as [[-> _] | [H4 _]]; [ | lia].
  now destruct (board (game w')).
Qed.

Lemma small_tables_never_see_a_flop_witness :
  board (game (snd (play (three_seats ["raise"; "50"])))) = [].
Proof.
  apply (small_tables_never_see_a_flop 3 (cards Deck_init) ["raise"; "50"]
           (three_seats ["raise"; "50"]) (fst (play (three_seats ["raise"; "50"])))).
  - reflexivity.
  - apply Permutation_refl.
  - apply surjective_pairing.
  - lia.
Defined.

(** ** The showdown on equal holes *)

(** X21.  When every seat holds the same positive number of hole cards,
    [show_results] raises nothing: all results then carry their five
    values in the same kind of sequence, so every comparison under
    [max] is defined, and every category has a name.  It returns one
    category name per seat. *)
Theorem show_results_returns_on_equal_holes :
  forall (ps : list Player) (b : list Card) (k : nat),
    ps <> [] -> 0 < k ->
    (forall p : Player, In p ps -> length (hand p) = k) ->
    exists (categories : list string) (winners : list nat),
      show_results ps b = Ok (categories, winners) /\
      length categories = length ps.
Proof.
  intros ps b k Hps Hk Hhands.
  destruct (show_results_ok ps b k Hps Hk Hhands) as (cs & ws & H).
  exists cs, ws. split; [exact H | ].
  destruct (show_results_parts _ _ _ _ H) as (_ & _ & _ & _ & Hc).
  apply map_res_length in Hc. rewrite Hc, !length_map. reflexivity.
Qed.

Lemma show_results_returns_on_equal_holes_witness :
  exists (categories : list string) (winners : list nat),
    show_results (players (game (snd (play (three_seats ["call"]))))) [] = Ok (categories, winners) /\
    length categories = length (players (game (snd (play (three_seats ["call"]))))).
Proof.
  apply (show_results_returns_on_equal_holes _ [] 2).
  - vm_compute. discriminate.
  - lia.
  - vm_compute. intros p [<- | [<- | [<- | []]]]; reflexivity.
Defined.

(** ** The seat order *)

Lemma rotate_last {A : Type} (l : list A) (x : A) :
  match rev (l ++ [x]) with [] => [] | y :: r => y :: rev r end = x :: l.
Proof.
  rewrite rev_app_distr. simpl. now rewrite rev_involutive.
Qed.

Lemma positions_after (k : nat) (g : Poker) :
  Nat.iter k update_player_positions g
  = mkPoker (num_players g) (players g) (board g) (deck g) (game_state g)
            (Nat.iter k (fun l => match rev l with [] => [] | y :: r => y :: rev r end)
                      (player_positions g)).
Proof.
  induction k as [ | k IH]; [now destruct g | ].
  simpl. rewrite IH. reflexivity.
Qed.

Lemma rotate_many {A : Type} (b : list A) :
  forall a : list A,
    Nat.iter (length b) (fun l => match rev l with [] => [] | y :: r => y :: rev r end) (a ++ b)
    = b ++ a.
Proof.
  induction b as [ | x b' IH] using rev_ind; intros a.
  - simpl. now rewrite app_nil_r.
  - rewrite length_app, Nat.add_1_r, Nat.iter_succ_r, app_assoc, rotate_last.
    change (x :: a ++ b') with ((x :: a) ++ b').
    rewrite (IH (x :: a)), <- app_assoc. reflexivity.
Qed.

(** X22.  [update_player_positions] moves the last seat of the order
    to the front and keeps the others in their order; nothing else of
    the table changes.  Applied [k] times it brings the last [k] seats
    to the front, so applied once per seat it gives back the table it
    started from. *)
Theorem update_player_positions_rotates :
  (forall (g : Poker) (front : list nat) (x : nat),
      player_positions g = front ++ [x] ->
      update_player_positions g
      = mkPoker (num_players g) (players g) (board g) (deck g) (game_state g) (x :: front)) /\
  (forall (g : Poker) (front back : list nat),
      player_positions g = front ++ back ->
      Nat.iter (length back) update_player_positions g
      = mkPoker (num_players g) (players g) (board g) (deck g) (game_state g) (back ++ front)) /\
  (forall g : Poker,
      Nat.iter (length (player_positions g)) update_player_positions g = g).
Proof.
  split; [ | split].
  - intros g front x H. unfold update_player_positions. now rewrite H, rotate_last.
  - intros g front back H. now rewrite positions_after, H, rotate_many.
  - intros g. rewrite positions_after.
    rewrite <- (app_nil_l (player_positions g)) at 2.
    rewrite rotate_many, app_nil_r. now destruct g.
Qed.

(** X23.  [play] never moves the blinds: at a freshly set-up table the
    seat order is 0, 1, 2, ... before the hand and is the same when the
    hand ends, however it ends, and the seat count is unchanged.  The
    small blind is therefore looked up at position 0 and the big blind
    at position 1 in every betting round of the hand. *)
Theorem play_keeps_the_seat_order {py : Str} :
  forall (n : nat) (deck0 : list Card) (lines : list string)
         (w : World) (r : Res unit) (w' : World),
    start n deck0 lines = Ok w ->
    Permutation deck0 (cards Deck_init) ->
    play w = (r, w') ->
    player_positions (game w) = seq 0 n /\
    player_positions (game w') = seq 0 n /\
    num_players (game w') = n /\
    length (players_in_game (game_state (game w'))) = n.
Proof.
  intros n deck0 lines w r w' Hstart Hperm Hrun.
  destruct (start_phase _ _ _ _ Hstart) as (_ & [Hok0 _] & _).
  destruct (play_from_start _ _ _ _ _ _ Hstart Hperm Hrun)
    as (_ & (bl & nb & dl & [Hok _] & _) & _).
  destruct Hok0 as (_ & _ & _ & _ & Hpos0 & _).
  destruct Hok as (_ & _ & _ & Hfl & Hpos & _ & _ & _ & Hnum).
  auto.
Qed.

Lemma play_keeps_the_seat_order_witness :
  player_positions (game (snd (play (five_seats calls_then_folds)))) = seq 0 5.
Proof.
  destruct (play_keeps_the_seat_order 5 stacked_deck calls_then_folds
              (five_seats calls_then_folds) (fst (play (five_seats calls_then_folds)))
              (snd (play (five_seats calls_then_folds))))
    as (_ & H & _).
  - reflexivity.
  - exact stacked_deck_perm.
  - apply surjective_pairing.
  - exact H.
Defined.

(** ** The has-methods *)

Lemma first_seen_In (l : list Rank) (r : Rank) : In r (first_seen l) <-> In r l.
Proof.
  induction l as [ | x t IH]; [reflexivity | ].
  simpl. rewrite filter_In, IH, negb_true_iff, rank_eqb_neq.
  destruct (rank_eq_dec x r) as [-> | Hne]; [tauto | ].
  assert (Hne' : r <> x) by congruence. tauto.
Qed.

Lemma first_seen_NoDup (l : list Rank) : NoDup (first_seen l).
Proof.
  induction l as [ | x t IH]; [constructor | ].
  simpl. constructor.
  - rewrite filter_In, negb_true_iff, rank_eqb_neq. tauto.
  - now apply NoDup_filter.
Qed.

Lemma held_In (cs : list Card) (k : nat) (r : Rank) :
  0 < k ->
  In r (filter (fun x => (rank_count x cs =? k)%nat) (first_seen (map rank cs)))
  <-> rank_count r cs = k.
Proof.
  intros Hk. rewrite filter_In, first_seen_In, Nat.eqb_eq.
  split; [tauto | ]. intros H. split; [ | exact H].
  unfold rank_count in H. apply (count_occ_In rank_eq_dec). lia.
Qed.

Lemma held_NoDup (cs : list Card) (k : nat) :
  NoDup (filter (fun x => (rank_count x cs =? k)%nat) (first_seen (map rank cs))).
Proof. apply NoDup_filter, first_seen_NoDup. Qed.

Lemma get_pairs_held (cs : list Card) (n : nat) :
  get_pairs (get_counts cs) n
  = firstn n (filter (fun x => (rank_count x cs =? 2)%nat) (first_seen (map rank cs))).
Proof. unfold get_pairs. now rewrite <- ranks_of_count. Qed.

Lemma get_three_held (cs : list Card) :
  get_three_of_a_kind (get_counts cs)
  = hd_error (filter (fun x => (rank_count x cs =? 3)%nat) (first_seen (map rank cs))).
Proof.
  unfold get_three_of_a_kind. now rewrite <- ranks_of_count, hd_error_map, find_hd_filter.
Qed.

Lemma get_four_held (cs : list Card) :
  get_four_of_a_kind (get_counts cs)
  = hd_error (filter (fun x => (rank_count x cs =? 4)%nat) (first_seen (map rank cs))).
Proof.
  unfold get_four_of_a_kind. now rewrite <- ranks_of_count, hd_error_map, find_hd_filter.
Qed.

Lemma some_held (cs : list Card) (k : nat) :
  0 < k ->
  hd_error (filter (fun x => (rank_count x cs =? k)%nat) (first_seen (map rank cs))) <> None
  <-> exists r : Rank, rank_count r cs = k.
Proof.
  intros Hk.
  pose proof (fun r => held_In cs k r Hk) as Hin.
  destruct (filter _ _) as [ | r0 l]; simpl.
  - split; [congruence | ]. intros (r & Hr). apply Hin in Hr. destruct Hr.
  - split; [ | discriminate]. intros _. exists r0. apply Hin. now left.
Qed.

(** X24.  The has-methods look for exact counts.  Four of a kind
    needs a rank held exactly four times, three of a kind a rank held
    exactly three times, a pair a rank held exactly twice, two pairs two
    different ranks each held exactly twice, and a full house a rank
    held exactly three times together with a rank held exactly twice:
    two ranks held three times each make no full house, and a rank held
    five times or more makes nothing. *)
Theorem has_methods_need_exact_counts (cs : list Card) :
  (has_four_of_a_kind cs <> None <-> exists r : Rank, rank_count r cs = 4) /\
  (has_three_of_a_kind cs <> None <-> exists r : Rank, rank_count r cs = 3) /\
  (has_pair cs <> None <-> exists r : Rank, rank_count r cs = 2) /\
  (has_two_pairs cs <> None <->
   exists r1 r2 : Rank, r1 <> r2 /\ rank_count r1 cs = 2 /\ rank_count r2 cs = 2) /\
  (has_full_house cs <> None <->
   (exists r : Rank, rank_count r cs = 3) /\ (exists r : Rank, rank_count r cs = 2)).
Proof.
  assert (H2 : 0 < 2) by lia. assert (H3 : 0 < 3) by lia. assert (H4 : 0 < 4) by lia.
  pose proof (some_held cs 4 H4) as S4.
  pose proof (some_held cs 3 H3) as S3.
  pose proof (some_held cs 2 H2) as S2.
  pose proof (fun r => held_In cs 2 r H2) as Hin.
  pose proof (held_NoDup cs 2) as Hnd.
  unfold has_four_of_a_kind, has_three_of_a_kind, has_pair, has_two_pairs, has_full_house.
  cbv zeta.
  rewrite get_four_held, get_three_held, !get_pairs_held.
  set (fours := filter (fun x => (rank_count x cs =? 4)%nat) (first_seen (map rank cs))) in *.
  set (threes := filter (fun x => (rank_count x cs =? 3)%nat) (first_seen (map rank cs))) in *.
  set (twos := filter (fun x => (rank_count x cs =? 2)%nat) (first_seen (map rank cs))) in *.
  repeat split.
  - intros H. apply S4. destruct (hd_error fours); congruence.
  - intros H. apply S4 in H. destruct (hd_error fours); congruence.
  - intros H. apply S3. destruct (hd_error threes); congruence.
  - intros H. apply S3 in H. destruct (hd_error threes); congruence.
  - intros H. apply S2. destruct twos; simpl in *; congruence.
  - intros H. apply S2 in H. destruct twos; simpl in *; congruence.
  - intros H. destruct twos as [ | a [ | b l]]; simpl in H; try congruence.
    exists a, b. inversion Hnd as [ | ? ? Hna _]; subst.
    split; [intros ->; apply Hna; now left | ].
    split; apply Hin; simpl; auto.
  - intros (r1 & r2 & Hne & E1 & E2). apply Hin in E1, E2.
    destruct twos as [ | a [ | b l]]; simpl in *; try discriminate; try tauto.
    destruct E1 as [<- | []], E2 as [<- | []]. congruence.
  - destruct (hd_error threes) eqn:E; [ | congruence]. apply S3. congruence.
  - destruct twos; simpl in *; [destruct (hd_error threes); congruence | ].
    apply S2. discriminate.
  - intros [T P]. apply S3 in T. apply S2 in P.
    destruct (hd_error threes); [ | congruence].
    destruct twos; simpl in *; congruence.
Qed.

(** ** The max bet from street to street *)

Lemma keeps_same_state {A : Type} (m : M World A) :
  (forall w, game_state (game (snd (m w))) = game_state (game w)) -> keeps_street m.
Proof.
  intros H g0 w r w' HP Hrun. specialize (H w). rewrite Hrun in H. simpl in H.
  unfold street_kept in *. rewrite H. destruct r; exact HP.
Qed.

Lemma keeps_bind {A B : Type} (m : M World A) (k : A -> M World B) :
  keeps_street m -> (forall a, keeps_street (k a)) -> keeps_street (bind m k).
Proof. intros Hm Hk g0. eapply triple_bind; [apply Hm | intros a; apply Hk]. Qed.

Lemma keeps_ret {A : Type} (a : A) : keeps_street (ret a).
Proof. now apply keeps_same_state. Qed.

Lemma keeps_raise {A : Type} (e : Exn) : keeps_street (@raise World A e).
Proof. now apply keeps_same_state. Qed.

Lemma keeps_get : keeps_street (@get World).
Proof. now apply keeps_same_state. Qed.

Lemma keeps_print (e : Event) : keeps_street (print e).
Proof. now apply keeps_same_state. Qed.

Lemma keeps_get_player (idx : nat) : keeps_street (get_player idx).
Proof.
  apply keeps_same_state. intros w. unfold get_player.
  now destruct (nth_error (players (game w)) idx).
Qed.

Lemma keeps_on_player {A : Type} (idx : nat) (m : M Player A) :
  keeps_street (on_player idx m).
Proof.
  apply keeps_same_state. intros w. unfold on_player.
  destruct (nth_error (players (game w)) idx) as [p | ]; [ | reflexivity].
  destruct (m p) as [r p'].
  now destruct (list_set (players (game w)) idx p').
Qed.

Lemma keeps_on_deck {A : Type} (m : M Deck A) : keeps_street (on_deck m).
Proof.
  apply keeps_same_state. intros w. unfold on_deck.
  now destruct (m (deck (game w))).
Qed.

Lemma keeps_input_until {A : Type} (accept : string -> option A) :
  keeps_street (input_until accept).
Proof.
  apply keeps_same_state. intros w. unfold input_until.
  now destruct (read_until accept (stdin w)).
Qed.

Lemma keeps_input_until_raising {A : Type} (accept : string -> Res (option A)) :
  keeps_street (input_until_raising accept).
Proof.
  apply keeps_same_state. intros w. unfold input_until_raising.
  now destruct (read_until_raising accept (stdin w)).
Qed.

Lemma keeps_player_fold (id : nat) : keeps_street (on_game_state (player_fold id)).
Proof.
  intros g0 w r w' HP Hrun. unfold on_game_state, player_fold in Hrun.
  destruct (list_set (players_in_game (game_state (game w))) id false);
    injection Hrun as <- <-; exact HP.
Qed.

Lemma keeps_update_pot (b : Z) : keeps_street (on_game_state (modify (update_pot b))).
Proof. intros g0 w r w' HP Hrun. injection Hrun as <- <-. exact HP. Qed.

Lemma keeps_update_max_bet (b : Z) :
  keeps_street (on_game_state (modify (update_max_bet b))).
Proof.
  intros g0 w r w' [H1 H2] Hrun. injection Hrun as <- <-.
  unfold street_kept, update_max_bet. simpl.
  destruct (Z.gtb_spec b (current_max_bet (game_state (game w)))); simpl; split;
    auto; lia.
Qed.

Ltac keeps_street_step :=
  first
    [ apply keeps_ret | apply keeps_raise | apply keeps_get | apply keeps_print
    | apply keeps_get_player | apply keeps_on_player | apply keeps_on_deck
    | apply keeps_input_until | apply keeps_input_until_raising | apply keeps_player_fold | apply keeps_update_pot
    | apply keeps_update_max_bet
    | apply keeps_bind; [ | intros ? ]
    | match goal with
      | |- keeps_street (if ?c then _ else _) => destruct c
      | |- keeps_street (match ?x with _ => _ end) => destruct x
      end ].

Lemma keeps_seat_turn {py : Str} (sb bb i idx a : nat) : keeps_street (seat_turn sb bb i idx a).
Proof. unfold seat_turn. repeat keeps_street_step. Qed.

Lemma keeps_seats_loop {py : Str} (sb bb : nat) (order : list (nat * nat)) :
  forall a : nat, keeps_street (seats_loop sb bb order a).
Proof.
  induction order as [ | [i idx] t IH]; intros a; simpl.
  - apply keeps_ret.
  - apply keeps_bind; [apply keeps_seat_turn | intros a'; apply IH].
Qed.

Lemma keeps_betting_round {py : Str} (first_round : bool) : keeps_street (betting_round first_round).
Proof.
  unfold betting_round. apply keeps_bind; [apply keeps_get | intros w].
  destruct (player_positions (game w)) as [ | sb [ | bb rest]];
    try apply keeps_raise. apply keeps_seats_loop.
Qed.

Lemma keeps_modify_board (f : World -> list Card) :
  keeps_street (modify (fun w => set_game (set_board (f w) (game w)) w)).
Proof. now apply keeps_same_state. Qed.

Lemma keeps_burn_and_draw (n : Z) : keeps_street (burn_and_draw n).
Proof.
  unfold burn_and_draw.
  apply keeps_bind; [apply keeps_on_deck | intros burnt].
  apply keeps_bind; [apply keeps_on_deck | intros drawn].
  apply (keeps_modify_board (fun w => board (game w) ++ drawn)).
Qed.

Lemma keeps_deal_hole_cards : keeps_street deal_hole_cards.
Proof.
  unfold deal_hole_cards.
  apply keeps_bind; [apply keeps_get | intros w].
  apply keeps_bind; [apply keeps_on_deck | intros hands].
  intros g0 w1 r w' HP Hrun. unfold bind, get in Hrun.
  destruct (assign_hands hands (players (game w1))); injection Hrun as <- <-; exact HP.
Qed.

Lemma keeps_display_each (b : list Card) (ps : list Player) :
  keeps_street (display_each ps b).
Proof.
  induction ps as [ | p t IH]; simpl; [apply keeps_ret | ].
  apply keeps_bind; [ | intros u; exact IH].
  unfold display_poker_hand. repeat keeps_street_step.
Qed.

Lemma keeps_showdown : keeps_street (display_hands ;;; show_results_io)%py.
Proof.
  apply keeps_bind; [ | intros u].
  - unfold display_hands. apply keeps_bind; [apply keeps_get | intros w].
    apply keeps_display_each.
  - unfold show_results_io. apply keeps_bind; [apply keeps_get | intros w].
    destruct (show_results (players (game w)) (board (game w))) as [[cs ws] | e];
      [apply keeps_print | apply keeps_raise].
Qed.

Lemma keeps_play {py : Str} : keeps_street play.
Proof.
  unfold play, deal_community_cards, deal_flop, deal_turn, deal_river.
  repeat first
    [ apply keeps_deal_hole_cards | apply keeps_betting_round | apply keeps_burn_and_draw
    | apply keeps_showdown | apply keeps_ret
    | apply keeps_bind; [ | intros ? ]
    | match goal with |- keeps_street (if ?c then _ else _) => destruct c end ].
Qed.

Lemma keeps_run {A : Type} (m : M World A) (w : World) :
  keeps_street m -> street_kept (game_state (game w)) (snd (m w)).
Proof.
  intros H.
  assert (H0 : street_kept (game_state (game w)) w) by (split; [reflexivity | lia]).
  pose proof (H (game_state (game w)) w (fst (m w)) (snd (m w)) H0
                (surjective_pairing _)) as Hk.
  now destruct (fst (m w)).
Qed.

(** X25.  Nothing in a hand starts a new betting round in the game
    state: [start_new_betting_round] is never called, so through every
    betting round, and through the whole of [play], the round counter
    stays where it was and the max bet is never set back; it can only
    rise.  This holds from any table and whether the step returns or
    raises.  A street therefore opens with the max bet the street before
    it ended on. *)
Theorem max_bet_is_never_reset {py : Str} (w : World) :
  (forall first_round : bool,
      street_kept (game_state (game w)) (snd (betting_round first_round w))) /\
  street_kept (game_state (game w)) (snd (play w)) /\
  (forall g : GameState,
      current_max_bet (start_new_betting_round g) = 0%Z /\
      current_betting_round (start_new_betting_round g) = (current_betting_round g + 1)%Z).
Proof.
  split; [ | split].
  - intros first_round. apply keeps_run, keeps_betting_round.
  - apply keeps_run, keeps_play.
  - intros g. split; reflexivity.
Qed.

(** ** The category and the order of the cards *)

(** X26.  The category [evaluate_hand] returns does not depend on the
    order of the hole cards or on the order of the board: flush,
    straight and the rank counts are all taken from the cards as a
    multiset.  Only the cards returned with the category can differ. *)
Theorem category_ignores_card_order :
  forall hand hand' board board' : list Card,
    Permutation hand hand' -> Permutation board board' ->
    fst (evaluate_hand hand board) = fst (evaluate_hand hand' board').
Proof. exact evaluate_hand_category_perm. Qed.

Lemma category_ignores_card_order_witness :
  fst (evaluate_hand two_aces kings_then_queens)
  = fst (evaluate_hand (rev two_aces) queens_then_kings).
Proof.
  apply (category_ignores_card_order two_aces (rev two_aces)
           kings_then_queens queens_then_kings).
  - apply Permutation_rev.
  - apply perm_skip.
    apply (Permutation_app_comm [RK of Spades; RK of Hearts] [RQ of Spades; RQ of Hearts]).
Defined.

(** ** The community cards *)

(** X27.  [deal_community_cards] puts five cards on the board in one
    call: on a deck of at least eight cards it burns the first, deals
    the next three, burns one, deals one, burns one and deals one, and
    changes nothing else of the table.  On a deck of fewer than eight
    cards it raises the ValueError of [draw_card], after the draws that
    could still be made: below four cards the first card, if there is
    one, has been burnt and the board is as it was; with four or five
    cards the flop is on the board and the deck is empty; with six or
    seven the flop and the turn card are on the board and the deck is
    empty. *)
Theorem community_cards_come_all_at_once (w : World) :
  let cs := cards (deck (game w)) in
  let table b d := set_game (set_board b (set_deck (mkDeck d) (game w))) w in
  let short := Raise (ValueError "Not enough cards left in the deck.") in
  (forall (b1 f1 f2 f3 b2 t b3 r : Card) (rest : list Card),
      cs = b1 :: f1 :: f2 :: f3 :: b2 :: t :: b3 :: r :: rest ->
      deal_community_cards w
      = (Ok tt, table (board (game w) ++ [f1; f2; f3; t; r]) rest)) /\
  (length cs < 4 ->
   deal_community_cards w = (short, table (board (game w)) (skipn 1 cs))) /\
  (4 <= length cs < 6 ->
   deal_community_cards w
   = (short, table (board (game w) ++ firstn 3 (skipn 1 cs)) [])) /\
  (6 <= length cs < 8 ->
   deal_community_cards w
   = (short, table (board (game w) ++ firstn 3 (skipn 1 cs) ++ firstn 1 (skipn 5 cs)) [])).
Proof.
  destruct w as [[np ps b [cs] gs pos] ins out]. cbv zeta.
  cbn [game deck cards board].
  split; [ | split; [ | split]].
  - intros b1 f1 f2 f3 b2 t b3 r rest Hcs. subst cs.
    unfold deal_community_cards, deal_flop, deal_turn, deal_river, burn_and_draw,
      bind, on_deck, modify.
    cbn [game deck]. rewrite draw_one. cbn [set_game set_deck game deck].
    rewrite (draw_card_takes 3) by (simpl; lia).
    cbn [cards firstn skipn set_game set_deck set_board game deck board
         num_players players game_state player_positions stdin stdout].
    rewrite draw_one. cbn [set_game set_deck game deck].
    rewrite draw_one.
    cbn [cards firstn skipn set_game set_deck set_board game deck board
         num_players players game_state player_positions stdin stdout].
    rewrite draw_one. cbn [set_game set_deck game deck].
    rewrite draw_one.
    cbn [cards firstn skipn set_game set_deck set_board game deck board
         num_players players game_state player_positions stdin stdout].
    rewrite <- !app_assoc. reflexivity.
  - intros Hlen.
    do 4 (destruct cs as [ | ? cs]; [reflexivity | ]).
    simpl in Hlen. lia.
  - intros Hlen.
    do 4 (destruct cs as [ | ? cs]; [simpl in Hlen; lia | ]).
    do 2 (destruct cs as [ | ? cs];
          [unfold set_board, set_deck, set_game; simpl; rewrite ?app_nil_r; reflexivity | ]).
    simpl in Hlen. lia.
  - intros Hlen.
    do 6 (destruct cs as [ | ? cs]; [simpl in Hlen; lia | ]).
    do 2 (destruct cs as [ | ? cs];
          [unfold deal_community_cards, deal_flop, deal_turn, deal_river, burn_and_draw,
             bind, on_deck, modify, draw_card, set_board, set_deck, set_game;
           simpl; rewrite <- ?app_assoc; reflexivity | ]).
    simpl in Hlen. lia.
Qed.

Lemma community_cards_come_all_at_once_witness :
  board (game (snd (deal_community_cards (three_seats []))))
  = [R3 of Hearts; R4 of Hearts; R5 of Hearts; R7 of Hearts; R9 of Hearts].
Proof.
  destruct (community_cards_come_all_at_once (three_seats [])) as [H _].
  rewrite (H _ _ _ _ _ _ _ _ _ eq_refl). reflexivity.
Defined.
